(** * SAGAN (v1/SAGAN): a shallow embedding of [layers.py] and [sagan.py]

    Numbers.  The elements of a tensor are floats ([float]): finite numbers,
    the two infinities and NaN.  A finite number is idealised as an exact
    rational, so the rounding of a finite result is left out, but a result
    beyond the range of float32 overflows to an infinity.  The loss functions
    are studied on finite scores, with exact rationals [Q] compared by [Qeq]
    ([==]), and so are the Python scalars of the annealing formula.  Where
    Python takes an integer out of a quotient, [int(a / b)], the quotient is
    rounded to a double as Python does.  The only transcendental function of
    the code, the exponential inside [nn.Softmax], is a parameter
    [exp : Q -> Q] of the definitions that use it.

    Errors.  A Python exception is a [Raise] in the [result] type.

    Tensors.  A tensor is a shape with its row-major data. *)

From Stdlib Require Import ZArith QArith Qabs Qminmax Qround Qpower Lqa Lia List
  String Ascii.
From stdpp Require Import gmap strings list fin_maps pretty.

(* ===================================================================== *)
(** ** Python exceptions *)
(* ===================================================================== *)

Inductive exn : Type :=
| ZeroDivisionError
| KeyError (key : string)
| FileNotFoundError (path : string)
| StatisticsError
| IndexError
| TypeError
| RuntimeError (msg : string)
| ValueError (msg : string)
| UnboundLocalError (name : string)
| OverflowError
| UnpicklingError.

Inductive result (A : Type) : Type :=
| Ok (a : A)
| Raise (e : exn).
Arguments Ok {A} a.
Arguments Raise {A} e.

Definition bind {A B} (r : result A) (k : A -> result B) : result B :=
  match r with
  | Ok a => k a
  | Raise e => Raise e
  end.

Declare Scope py_scope.
Delimit Scope py_scope with py.
Notation "'let*' x ':=' r 'in' k" := (bind r (fun x => k))
  (at level 10, x name, r at level 100, k at level 200) : py_scope.
Local Open Scope py_scope.

(** [range(a, b)] of Python, on integers. *)
Definition range (a b : Z) : list Z :=
  map (fun i => (a + Z.of_nat i)%Z) (seq 0 (Z.to_nat (b - a))).

(* ===================================================================== *)
(** ** Instance-noise annealing ([SAGAN.train], sagan.py 168-171) *)
(* ===================================================================== *)

(** Python's true division [a / b] of two integers: the real quotient (the
    double that Python makes of it is [binary64] below). *)
Definition truediv (a b : Z) : result Q :=
  if Z.eqb b 0%Z then Raise ZeroDivisionError
  else Ok (inject_Z a / inject_Z b)%Q.

(** [inst_noise_sigma_curr = 0 if step > self.inst_noise_sigma_iters
      else (1 - step/self.inst_noise_sigma_iters)*self.inst_noise_sigma] *)
Definition inst_noise_sigma_curr
    (inst_noise_sigma : Q) (inst_noise_sigma_iters : Z) (step : Z) : result Q :=
  if Z.ltb inst_noise_sigma_iters step then Ok 0%Q
  else
    let* r := truediv step inst_noise_sigma_iters in
    Ok ((1 - r) * inst_noise_sigma)%Q.

(* ===================================================================== *)
(** ** Gradient buffers in the discriminator phase
       ([SAGAN.reset_grad], [SAGAN.train], sagan.py 117-120 and 175-206) *)
(* ===================================================================== *)

(** Autograd is abstract: [Grad] is the type of a network's [.grad] buffers,
    [gzero] the zeroed buffers, [gadd] the accumulation done by [backward()].
    The k-th sub-iteration draws fresh noise and a fresh latent vector, so its
    gradients depend on k; the parameters do not change inside the phase. *)
Section DiscriminatorPhase.
Context {Grad : Type}.
Variable gzero : Grad.
Variable gadd : Grad -> Grad -> Grad.
(** gradient of [d_loss_real] of sub-iteration k in the discriminator *)
Variable d_loss_real_grad : nat -> Grad.
(** gradient of [d_loss_fake] of sub-iteration k in the discriminator and,
    through [fake_images = self.G(z)], in the generator *)
Variable d_loss_fake_grad_D : nat -> Grad.
Variable d_loss_fake_grad_G : nat -> Grad.

(** [d_steps] logs, oldest first, the gradients each call of
    [self.d_optimizer.step()] has read. *)
Record grad_state : Type := GradState {
  D_grad : Grad;
  G_grad : Grad;
  d_steps : list Grad
}.

Definition reset_grad (s : grad_state) : grad_state :=
  {| D_grad := gzero; G_grad := gzero; d_steps := d_steps s |}.

Definition d_loss_real_backward (k : nat) (s : grad_state) : grad_state :=
  {| D_grad := gadd (D_grad s) (d_loss_real_grad k);
     G_grad := G_grad s;
     d_steps := d_steps s |}.

Definition d_loss_fake_backward (k : nat) (s : grad_state) : grad_state :=
  {| D_grad := gadd (D_grad s) (d_loss_fake_grad_D k);
     G_grad := gadd (G_grad s) (d_loss_fake_grad_G k);
     d_steps := d_steps s |}.

(** one pass of the body of [for _ in range(self.d_iters)] *)
Definition d_iteration (s : grad_state) (k : nat) : grad_state :=
  d_loss_fake_backward k (d_loss_real_backward k (reset_grad s)).

Definition d_optimizer_step (s : grad_state) : grad_state :=
  {| D_grad := D_grad s; G_grad := G_grad s;
     d_steps := d_steps s ++ [D_grad s] |}.

(** the loop, then [self.d_optimizer.step()] after it *)
Definition discriminator_phase (d_iters : Z) (s : grad_state) : grad_state :=
  d_optimizer_step (fold_left d_iteration (seq 0 (Z.to_nat d_iters)) s).

(** The reading of the specification: gradients are zeroed at the start
    of the phase and every real and fake pass of the window accumulates
    into the one optimizer step. *)
Definition spec_d_iteration (s : grad_state) (k : nat) : grad_state :=
  d_loss_fake_backward k (d_loss_real_backward k s).

Definition spec_discriminator_phase (d_iters : Z) (s : grad_state) : grad_state :=
  d_optimizer_step
    (fold_left spec_d_iteration (seq 0 (Z.to_nat d_iters)) (reset_grad s)).
End DiscriminatorPhase.

Arguments GradState {Grad} _ _ _.

(* ===================================================================== *)
(** ** Floating-point numbers *)
(* ===================================================================== *)

(** An element of a float32 tensor: a finite number, an infinity or NaN.
    A finite element is idealised as an exact rational: the rounding of a
    finite result to the nearest float is left out, and zero has no sign.
    Overflow is kept: a result beyond the largest finite float32 is the
    infinity of its sign (the format itself still rounds to that largest
    number a result less than half a unit in the last place beyond it). *)
Inductive float : Type :=
| Fin (q : Q)
| Inf (neg : bool)
| NaN.

(** the largest finite float32, (2 - 2^-23) * 2^127 *)
Definition float_max : Q := 340282346638528859811704183484516925440.

(** a float holds a finite number only within the range of the format *)
Definition representable (x : float) : Prop :=
  match x with
  | Fin q => (Qabs q <= float_max)%Q
  | _ => True
  end.

Definition is_finite (x : float) : bool :=
  match x with Fin _ => true | _ => false end.

Definition is_nan (x : float) : bool :=
  match x with NaN => true | _ => false end.

(** the sign of a finite number: [true] when negative *)
Definition Qneg (q : Q) : bool := negb (Qle_bool 0 q).

(** the float of a real result *)
Definition fl (q : Q) : float :=
  if Qle_bool (Qabs q) float_max then Fin q else Inf (Qneg q).

Definition fneg (x : float) : float :=
  match x with
  | Fin q => Fin (- q)
  | Inf s => Inf (negb s)
  | NaN => NaN
  end.

Definition fadd (x y : float) : float :=
  match x, y with
  | NaN, _ | _, NaN => NaN
  | Inf s, Inf s' => if Bool.eqb s s' then Inf s else NaN
  | Inf s, Fin _ | Fin _, Inf s => Inf s
  | Fin a, Fin b => fl (a + b)
  end.

Definition fsub (x y : float) : float := fadd x (fneg y).

Definition fmul (x y : float) : float :=
  match x, y with
  | NaN, _ | _, NaN => NaN
  | Inf s, Inf s' => Inf (xorb s s')
  | Inf s, Fin q | Fin q, Inf s =>
      if Qeq_bool q 0 then NaN else Inf (xorb s (Qneg q))
  | Fin a, Fin b => fl (a * b)
  end.

Definition fdiv (x y : float) : float :=
  match x, y with
  | NaN, _ | _, NaN => NaN
  | Inf _, Inf _ => NaN
  | Inf s, Fin q => Inf (xorb s (Qneg q))
  | Fin _, Inf _ => Fin 0
  | Fin a, Fin b =>
      if Qeq_bool b 0 then (if Qeq_bool a 0 then NaN else Inf (Qneg a))
      else fl (a / b)
  end.

(** [x <= y]; every comparison with NaN is false *)
Definition fle (x y : float) : bool :=
  match x, y with
  | NaN, _ | _, NaN => false
  | Inf true, _ | _, Inf false => true
  | Inf false, _ | _, Inf true => false
  | Fin a, Fin b => Qle_bool a b
  end.

(** the larger of two floats; NaN if one of them is *)
Definition fmax (x y : float) : float :=
  match x, y with
  | NaN, _ | _, NaN => NaN
  | _, _ => if fle x y then y else x
  end.

Definition fsum (l : list float) : float := fold_right fadd (Fin 0) l.

(** two floats are the same value *)
Definition feq (x y : float) : Prop :=
  match x, y with
  | Fin a, Fin b => (a == b)%Q
  | Inf s, Inf s' => s = s'
  | NaN, NaN => True
  | _, _ => False
  end.

(** [0 <= x <= 1] *)
Definition in_unit_interval (x : float) : bool :=
  fle (Fin 0) x && fle x (Fin 1).

(* ===================================================================== *)
(** ** Tensors *)
(* ===================================================================== *)

Record tensor (A : Type) : Type := Tensor { shape : list nat; data : list A }.
Arguments Tensor {A} shape data.
Arguments shape {A} t.
Arguments data {A} t.

Fixpoint numel_of (s : list nat) : nat :=
  match s with
  | [] => 1
  | d :: s' => d * numel_of s'
  end.

Definition numel {A} (t : tensor A) : nat := numel_of (shape t).

(** the representation invariant of a tensor *)
Definition wf_tensor {A} (t : tensor A) : Prop := length (data t) = numel t.

(** row-major offset of a multi-index, and its inverse *)
Fixpoint ravel (s ix : list nat) : nat :=
  match s, ix with
  | _ :: s', i :: ix' => i * numel_of s' + ravel s' ix'
  | _, _ => 0
  end.

Fixpoint unravel (s : list nat) (idx : nat) : list nat :=
  match s with
  | [] => []
  | d :: s' => (idx / numel_of s') mod d :: unravel s' idx
  end.

Definition get (t : tensor float) (ix : list nat) : float :=
  nth (ravel (shape t) ix) (data t) (Fin 0).

(** the tensor of shape [s] whose element at multi-index [ix] is [f ix] *)
Definition init (s : list nat) (f : list nat -> float) : tensor float :=
  Tensor s (map (fun idx => f (unravel s idx)) (seq 0 (numel_of s))).

Definition Qsum (l : list Q) : Q := fold_right Qplus 0%Q l.

(** an elementwise operation with a Python scalar *)
Definition map_tensor {A B} (f : A -> B) (t : tensor A) : tensor B :=
  Tensor (shape t) (map f (data t)).

(** [torch.zeros(n)] *)
Definition zeros (n : nat) : tensor float := Tensor [n] (repeat (Fin 0) n).

(** *** Broadcasting binary operations ([*] and [+] on tensors) *)

Fixpoint broadcast_rev (r1 r2 : list nat) : option (list nat) :=
  match r1, r2 with
  | [], r => Some r
  | r, [] => Some r
  | d1 :: r1', d2 :: r2' =>
      match broadcast_rev r1' r2' with
      | None => None
      | Some r =>
          if Nat.eqb d1 d2 then Some (d1 :: r)
          else if Nat.eqb d1 1 then Some (d2 :: r)
          else if Nat.eqb d2 1 then Some (d1 :: r)
          else None
      end
  end.

(** shapes are aligned at their last dimension *)
Definition broadcast_shapes (s1 s2 : list nat) : option (list nat) :=
  match broadcast_rev (rev s1) (rev s2) with
  | Some r => Some (rev r)
  | None => None
  end.

(** the index into an operand of shape [s] for the result index [ix] *)
Definition broadcast_index (s ix : list nat) : list nat :=
  zip_with (fun d i => if Nat.eqb d 1 then 0%nat else i) s
           (skipn (length ix - length s) ix).

Definition binop (f : float -> float -> float) (t1 t2 : tensor float)
  : result (tensor float) :=
  match broadcast_shapes (shape t1) (shape t2) with
  | None => Raise (RuntimeError "The size of tensor a must match the size of tensor b")
  | Some s =>
      Ok (init s (fun ix => f (get t1 (broadcast_index (shape t1) ix))
                              (get t2 (broadcast_index (shape t2) ix))))
  end.

Definition tensor_mul : tensor float -> tensor float -> result (tensor float) :=
  binop fmul.
Definition tensor_add : tensor float -> tensor float -> result (tensor float) :=
  binop fadd.

(** *** [Tensor.view] *)

(** [t.view(dims...)]: at most one dimension may be -1 and is then inferred.
    The data is shared, in row-major order.  (All tensors of the model are
    contiguous; the code calls [view] only on fresh results.) *)
Definition view (t : tensor float) (dims : list Z) : result (tensor float) :=
  if negb (forallb (fun d => Z.leb (-1) d) dims) then
    Raise (RuntimeError "invalid shape dimension")
  else
    let known := map Z.to_nat (List.filter (fun d => negb (Z.eqb d (-1))) dims) in
    let p := numel_of known in
    match (length dims - length known)%nat with
    | O =>
        if Nat.eqb p (numel t) then Ok (Tensor known (data t))
        else Raise (RuntimeError "shape is invalid for input size")
    | S O =>
        if Nat.eqb p 0 then
          Raise (RuntimeError "cannot infer the unspecified dimension")
        else if negb (Nat.eqb (numel t mod p) 0) then
          Raise (RuntimeError "shape is invalid for input size")
        else
          Ok (Tensor (map (fun d => if Z.eqb d (-1) then (numel t / p)%nat
                                    else Z.to_nat d) dims)
                     (data t))
    | _ => Raise (RuntimeError "only one dimension can be inferred")
    end.

(** *** [Tensor.permute] *)

Fixpoint index_of (j : nat) (l : list nat) : nat :=
  match l with
  | [] => 0
  | x :: l' => if Nat.eqb x j then 0 else S (index_of j l')
  end.

Definition is_permutation (perm : list nat) (rank : nat) : bool :=
  Nat.eqb (length perm) rank
  && forallb (fun j => existsb (Nat.eqb j) perm) (seq 0 rank).

(** [t.permute(perm...)]: dimension i of the result is dimension [perm[i]]
    of [t]. *)
Definition permute (t : tensor float) (perm : list nat) : result (tensor float) :=
  let rank := length (shape t) in
  if is_permutation perm rank then
    Ok (init (map (fun p => nth p (shape t) 0%nat) perm)
             (fun ix => get t (map (fun j => nth (index_of j perm) ix 0%nat)
                                   (seq 0 rank))))
  else Raise (RuntimeError "permute: dims do not match the tensor's rank").

(** *** [torch.bmm] *)

Definition bmm (a b : tensor float) : result (tensor float) :=
  match shape a, shape b with
  | [ba; n; m], [bb; m'; p] =>
      if Nat.eqb ba bb && Nat.eqb m m' then
        Ok (init [ba; n; p]
              (fun ix =>
                 match ix with
                 | [i; j; k] =>
                     fsum (map (fun l => fmul (get a [i; j; l]) (get b [i; l; k]))
                               (seq 0 m))
                 | _ => Fin 0
                 end))
      else Raise (RuntimeError "bmm: batch or inner dimensions differ")
  | _, _ => Raise (RuntimeError "bmm: batch1 and batch2 must be 3D tensors")
  end.

(** *** [nn.Softmax(dim=-1)] *)

Section Softmax.
(** the exponential function on the reals *)
Variable exp : Q -> Q.

Definition fexp (x : float) : float :=
  match x with
  | Fin q => fl (exp q)
  | Inf false => Inf false
  | Inf true => Fin 0
  | NaN => NaN
  end.

(** Along the last dimension: the largest element of the row is subtracted
    before the exponential, as PyTorch does, so that no exponential of a
    finite row overflows; a row that holds NaN, or [inf], or nothing but
    [-inf], comes out as NaN. *)
Definition softmax (t : tensor float) : tensor float :=
  let m := List.last (shape t) 1%nat in
  init (shape t)
    (fun ix =>
       let row := map (fun k => get t (removelast ix ++ [k])) (seq 0 m) in
       let top := fold_right fmax (Inf true) row in
       fdiv (fexp (fsub (get t ix) top))
            (fsum (map (fun x => fexp (fsub x top)) row))).
End Softmax.

(* ===================================================================== *)
(** ** layers.py: layers *)
(* ===================================================================== *)

(** [nn.Conv2d] with [kernel_size=1, stride=1, padding=0, dilation=1,
    bias=True]: [weight] has shape [out; in; 1; 1], [bias] shape [out]. *)
Record Conv2d : Type := {
  in_channels : nat;
  out_channels : nat;
  weight : tensor float;
  bias : tensor float
}.

(** [conv1x1(in_channels, out_channels)]; the freshly drawn initial weights
    are the arguments [w] and [b]. *)
Definition conv1x1 (in_ch out_ch : nat) (w b : list float) : Conv2d :=
  {| in_channels := in_ch;
     out_channels := out_ch;
     weight := Tensor [out_ch; in_ch; 1; 1]%nat w;
     bias := Tensor [out_ch] b |}.

(** Calling the module on a batched feature map.  A module can be built
    without output channels ([conv1x1(4, 4 // 8)]), but calling it raises. *)
Definition Conv2d_forward (m : Conv2d) (x : tensor float) : result (tensor float) :=
  match shape x with
  | [b; c; w; h] =>
      if Nat.eqb (out_channels m) 0 then
        Raise (RuntimeError "conv2d: the weight has no output channel")
      else if Nat.eqb c (in_channels m) then
        Ok (init [b; out_channels m; w; h]
              (fun ix =>
                 match ix with
                 | [n; o; i; j] =>
                     fadd (get (bias m) [o])
                          (fsum (map (fun ci => fmul (get (weight m) [o; ci; 0; 0]%nat)
                                                     (get x [n; ci; i; j]))
                                     (seq 0 c)))
                 | _ => Fin 0
                 end))
      else Raise (RuntimeError "conv2d: input channels do not match the weight")
  | _ => Raise (RuntimeError "conv2d: expected a 4D input")
  end.

(* ===================================================================== *)
(** ** layers.py: self attention *)
(* ===================================================================== *)

Module SelfAttn.
Record t : Type := {
  f : Conv2d;
  g : Conv2d;
  h : Conv2d;
  v : Conv2d;
  gamma : tensor float
}.

(** the initial weights of the four convolutions, as drawn by PyTorch *)
Record init_weights : Type := {
  f_w : list float; f_b : list float;
  g_w : list float; g_b : list float;
  h_w : list float; h_b : list float;
  v_w : list float; v_b : list float
}.

(** [SelfAttn.__init__(channels)] *)
Definition __init__ (channels : nat) (ws : init_weights) : t :=
  let k := (channels / 8)%nat in
  {| f := conv1x1 channels k (f_w ws) (f_b ws);
     g := conv1x1 channels k (g_w ws) (g_b ws);
     h := conv1x1 channels (channels / 2) (h_w ws) (h_b ws);
     v := conv1x1 (channels / 2) channels (v_w ws) (v_b ws);
     gamma := zeros 1 |}.

(** the module after training has moved its gate *)
Definition with_gamma (m : t) (gm : float) : t :=
  {| f := f m; g := g m; h := h m; v := v m; gamma := Tensor [1%nat] [gm] |}.

Section Forward.
Variable exp : Q -> Q.

(** [SelfAttn.forward(x)] up to its last line (layers.py 73-94): the
    attended feature map, [out = self.v(out)] *)
Definition attention (self : t) (x : tensor float) : result (tensor float) :=
  match shape x with
  | [b; c; width; height] =>
      let N := (width * height)%nat in
      let* fx := Conv2d_forward (f self) x in
      let* fv := view fx [Z.of_nat b; (-1)%Z; Z.of_nat N] in
      let* f_ := permute fv [0; 2; 1]%nat in
      let* gx := Conv2d_forward (g self) x in
      let* g_ := view gx [Z.of_nat b; (-1)%Z; Z.of_nat N] in
      let* hx := Conv2d_forward (h self) x in
      let* h_ := view hx [Z.of_nat b; (-1)%Z; Z.of_nat N] in
      let* transpose := bmm f_ g_ in
      let* beta := permute (softmax exp transpose) [0; 2; 1]%nat in
      let* out := bmm h_ beta in
      let* out4 := view out [Z.of_nat b; Z.of_nat (c / 2);
                             Z.of_nat width; Z.of_nat height] in
      Conv2d_forward (v self) out4
  | _ => Raise (ValueError "not enough values to unpack")
  end.

(** [SelfAttn.forward(x)]: [out = self.gamma * out + x] (layers.py 95) *)
Definition forward (self : t) (x : tensor float) : result (tensor float) :=
  let* out := attention self x in
  let* gout := tensor_mul (gamma self) out in
  tensor_add gout x.
End Forward.
End SelfAttn.

(* ===================================================================== *)
(** ** layers.py: loss functions and utilities *)
(* ===================================================================== *)

(** The loss functions are studied on finite scores: their argument is a
    tensor of exact rationals. *)

Definition relu (x : Q) : Q := Qmax 0 x.

(** [torch.mean]: the sum of all elements over their number.  For an empty
    tensor PyTorch answers NaN (0/0), which is not a number: [None]. *)
Definition mean (t : tensor Q) : option Q :=
  match data t with
  | [] => None
  | _ => Some (Qsum (data t) / inject_Z (Z.of_nat (length (data t))))%Q
  end.

Definition loss_hinge_dis_real (d_real : tensor Q) : option Q :=
  mean (map_tensor relu (map_tensor (fun x => 1 - x)%Q d_real)).

Definition loss_hinge_dis_fake (d_fake : tensor Q) : option Q :=
  mean (map_tensor relu (map_tensor (fun x => 1 + x)%Q d_fake)).

Definition loss_hinge_gen (d_fake : tensor Q) : option Q :=
  option_map Qopp (mean d_fake).

(** [Tensor.clamp_(lo, hi)] on one element; NaN is left as it is *)
Definition clamp (lo hi : Q) (x : float) : float :=
  match x with
  | Fin q => Fin (Qmin (Qmax q lo) hi)
  | Inf true => Fin lo
  | Inf false => Fin hi
  | NaN => NaN
  end.

(** [out = (x + 1) / 2; return out.clamp_(0, 1)] *)
Definition denorm (x : tensor float) : tensor float :=
  let out := map_tensor (fun v => fdiv (fadd v (Fin 1)) (Fin 2)) x in
  map_tensor (clamp 0 1) out.

(* ===================================================================== *)
(** ** sagan.py: the training session and its checkpoints *)
(* ===================================================================== *)

(** *** Networks and optimizers

    [generator.py] and [discriminator.py] are not part of the sources at
    hand; a network is represented by its [state_dict()], a map from
    parameter names to tensors. *)

(** [nn.Module.load_state_dict] (strict): the names and the shapes of the
    loaded tensors must be those of the module. *)
Definition Module_load_state_dict
    (module sd : gmap string (tensor float)) : result (gmap string (tensor float)) :=
  if decide (shape <$> module = shape <$> sd) then Ok sd
  else Raise (RuntimeError "Error(s) in loading state_dict").

(** the per-parameter state of [optim.Adam] *)
Record adam_param_state : Type := {
  adam_step : Z;
  exp_avg : tensor float;
  exp_avg_sq : tensor float
}.

(** [optim.Adam] over [n_params] parameters, one parameter group *)
Record Adam : Type := {
  lr : Q;
  betas : Q * Q;
  n_params : nat;
  adam_state : gmap nat adam_param_state
}.

(** [Optimizer.load_state_dict]: the group must have the size of the
    optimizer's own; hyper-parameters and state are then taken from the
    loaded dictionary. *)
Definition Adam_load_state_dict (opt sd : Adam) : result Adam :=
  if Nat.eqb (n_params opt) (n_params sd) then Ok sd
  else Raise (ValueError "loaded state dict contains a parameter group that doesn't match the size of optimizer's group").

(** *** The session object *)

Record configs : Type := {
  total_steps : Z;
  d_iters : Z;
  g_iters : Z;
  inst_noise_sigma : Q;
  inst_noise_sigma_iters : Z;
  log_step : Z;
  save_epoch : Z;
  model_path : string;
  sample_path : string;
  (** [None] is Python's [None]; an epoch number otherwise *)
  pretrained_model : option Z;
  (** [len(self.dataloader)] *)
  dataloader_len : nat
}.

Record networks : Type := {
  G : gmap string (tensor float);
  D : gmap string (tensor float);
  g_optimizer : Adam;
  d_optimizer : Adam
}.

(** the archive of all losses: eight lists, one entry per epoch *)
Record histories : Type := {
  ave_d_losses : list Q;
  ave_d_losses_real : list Q;
  ave_d_losses_fake : list Q;
  ave_d_gamma1 : list Q;
  ave_d_gamma2 : list Q;
  ave_g_losses : list Q;
  ave_g_gamma1 : list Q;
  ave_g_gamma2 : list Q
}.

Record SAGAN : Type := {
  cfg : configs;
  nets : networks;
  hist : histories
}.

(** *** Checkpoint files *)

(** the values stored in the dictionary handed to [torch.save] *)
Inductive pyobj : Type :=
| PyStateDict (sd : gmap string (tensor float))
| PyOptimizer (o : Adam)
| PyList (l : list Q).

(** [os.path.join(a, b)] *)
Definition ends_with_slash (a : string) : bool :=
  match String.get (String.length a - 1) a with
  | Some c => Ascii.eqb c "/"%char
  | None => false
  end.

Definition os_path_join (a b : string) : string :=
  if String.prefix "/" b then b
  else if String.eqb a "" || ends_with_slash a then a +:+ b
  else a +:+ "/" +:+ b.

(** ["{}_sagan.pth".format(n)] *)
Definition sagan_pth (n : Z) : string := pretty n +:+ "_sagan.pth".

Definition checkpoint_path (model_path : string) (n : Z) : string :=
  os_path_join model_path (sagan_pth n).

(** the dictionary built at sagan.py 288-300 *)
Definition checkpoint_dict (s : SAGAN) : gmap string pyobj :=
  <["gen_state_dict" := PyStateDict (G (nets s))]>
  (<["disc_state_dict" := PyStateDict (D (nets s))]>
  (<["gen_optimizer" := PyOptimizer (g_optimizer (nets s))]>
  (<["disc_optimizer" := PyOptimizer (d_optimizer (nets s))]>
  (<["ave_d_losses" := PyList (ave_d_losses (hist s))]>
  (<["ave_d_losses_real" := PyList (ave_d_losses_real (hist s))]>
  (<["ave_d_losses_fake" := PyList (ave_d_losses_fake (hist s))]>
  (<["ave_d_gamma1" := PyList (ave_d_gamma1 (hist s))]>
  (<["ave_d_gamma2" := PyList (ave_d_gamma2 (hist s))]>
  (<["ave_g_losses" := PyList (ave_g_losses (hist s))]>
  (<["ave_g_gamma1" := PyList (ave_g_gamma1 (hist s))]>
  (<["ave_g_gamma2" := PyList (ave_g_gamma2 (hist s))]> ∅))))))))))).

(** What the session writes: checkpoints, through [torch.save], and sample
    images, through [save_image].  (The event files of the tensorboard
    writer go to its own log directory and are not represented.) *)
Inductive file : Type :=
| CheckpointFile (obj : gmap string pyobj)
| ImageFile (images : tensor float).

(** the file system: the file stored under each path *)
Definition torch_save (obj : gmap string pyobj) (path : string)
    (fs : gmap string file) : gmap string file :=
  <[path := CheckpointFile obj]> fs.

Definition torch_load (path : string)
    (fs : gmap string file) : result (gmap string pyobj) :=
  match fs !! path with
  | Some (CheckpointFile obj) => Ok obj
  | Some (ImageFile _) => Raise UnpicklingError
  | None => Raise (FileNotFoundError path)
  end.

(** [save_image(images, path)] of torchvision *)
Definition save_image (images : tensor float) (path : string)
    (fs : gmap string file) : gmap string file :=
  <[path := ImageFile images]> fs.

(** ["Epoch {}.png".format(n)] *)
Definition epoch_png (n : Z) : string := "Epoch " +:+ pretty n +:+ ".png".

Definition sample_image_path (sample_path : string) (n : Z) : string :=
  os_path_join sample_path (epoch_png n).

(** the body of [if (epoch+1) % self.save_epoch == 0], sagan.py 288-301 *)
Definition save_checkpoint (s : SAGAN) (epoch : Z)
    (fs : gmap string file) : gmap string file :=
  torch_save (checkpoint_dict s)
             (checkpoint_path (model_path (cfg s)) (epoch + 1)) fs.

(** [checkpoint[key]], used as a state dict, an optimizer state or a list *)
Definition item (checkpoint : gmap string pyobj) (key : string) : result pyobj :=
  match checkpoint !! key with
  | Some o => Ok o
  | None => Raise (KeyError key)
  end.

Definition as_state_dict (o : pyobj) : result (gmap string (tensor float)) :=
  match o with PyStateDict sd => Ok sd | _ => Raise TypeError end.

Definition as_optimizer (o : pyobj) : result Adam :=
  match o with PyOptimizer a => Ok a | _ => Raise TypeError end.

(** The code assigns the entry as it is.  An entry that is not a list,
    which the [torch.save] of sagan.py never writes, would fail later, at
    its first use as a list; the histories of the model are lists, and such
    an entry is refused here. *)
Definition as_list (o : pyobj) : result (list Q) :=
  match o with PyList l => Ok l | _ => Raise TypeError end.

(** ["{}_sagan.pth".format(self.pretrained_model)] *)
Definition pretrained_file (o : option Z) : string :=
  match o with
  | Some n => sagan_pth n
  | None => "None_sagan.pth"
  end.

(** [SAGAN.load_pretrained] *)
Definition load_pretrained (s : SAGAN)
    (fs : gmap string file) : result SAGAN :=
  let* checkpoint :=
    torch_load (os_path_join (model_path (cfg s))
                  (pretrained_file (pretrained_model (cfg s)))) fs in
  (* load models *)
  let* o := item checkpoint "gen_state_dict" in
  let* sd := as_state_dict o in
  let* G' := Module_load_state_dict (G (nets s)) sd in
  let* o := item checkpoint "disc_state_dict" in
  let* sd := as_state_dict o in
  let* D' := Module_load_state_dict (D (nets s)) sd in
  (* load optimizers *)
  let* o := item checkpoint "gen_optimizer" in
  let* sd := as_optimizer o in
  let* g_opt' := Adam_load_state_dict (g_optimizer (nets s)) sd in
  let* o := item checkpoint "disc_optimizer" in
  let* sd := as_optimizer o in
  let* d_opt' := Adam_load_state_dict (d_optimizer (nets s)) sd in
  (* load losses *)
  let* o := item checkpoint "ave_d_losses" in
  let* l1 := as_list o in
  let* o := item checkpoint "ave_d_losses_real" in
  let* l2 := as_list o in
  let* o := item checkpoint "ave_d_losses_fake" in
  let* l3 := as_list o in
  let* o := item checkpoint "ave_d_gamma1" in
  let* l4 := as_list o in
  let* o := item checkpoint "ave_d_gamma2" in
  let* l5 := as_list o in
  let* o := item checkpoint "ave_g_losses" in
  let* l6 := as_list o in
  let* o := item checkpoint "ave_g_gamma1" in
  let* l7 := as_list o in
  let* o := item checkpoint "ave_g_gamma2" in
  let* l8 := as_list o in
  Ok {| cfg := cfg s;
        nets := {| G := G'; D := D';
                   g_optimizer := g_opt'; d_optimizer := d_opt' |};
        hist := {| ave_d_losses := l1; ave_d_losses_real := l2;
                   ave_d_losses_fake := l3; ave_d_gamma1 := l4;
                   ave_d_gamma2 := l5; ave_g_losses := l6;
                   ave_g_gamma1 := l7; ave_g_gamma2 := l8 |} |}.

(** Python's truth value of [self.pretrained_model] *)
Definition truthy (o : option Z) : bool :=
  match o with
  | Some n => negb (Z.eqb n 0)
  | None => false
  end.

Definition empty_histories : histories :=
  {| ave_d_losses := []; ave_d_losses_real := []; ave_d_losses_fake := [];
     ave_d_gamma1 := []; ave_d_gamma2 := [];
     ave_g_losses := []; ave_g_gamma1 := []; ave_g_gamma2 := [] |}.

(** [SAGAN.__init__]: [fresh] are the networks and optimizers that
    [build_model] has constructed. *)
Definition SAGAN_init (c : configs) (fresh : networks)
    (fs : gmap string file) : result SAGAN :=
  let s := {| cfg := c; nets := fresh; hist := empty_histories |} in
  if truthy (pretrained_model c) then load_pretrained s fs else Ok s.

(* ===================================================================== *)
(** ** sagan.py: the training loop ([SAGAN.train]) *)
(* ===================================================================== *)

(** the eight scalars logged at a step, and averaged over an epoch *)
Record step_log : Type := {
  d_loss : Q;
  d_loss_real : Q;
  d_loss_fake : Q;
  d_gamma1 : Q;
  d_gamma2 : Q;
  g_loss : Q;
  g_gamma1 : Q;
  g_gamma2 : Q
}.

(** what a run does, in order *)
Inductive event : Type :=
| EvEpoch (epoch : Z)
| EvStep (epoch step : Z) (inst_noise_sigma_curr : Q)
| EvScalars (epoch : Z) (logged : step_log)
| EvSample (epoch : Z)
| EvSave (epoch : Z).

(** the session, the file system and the run's trace (oldest event first) *)
Record world : Type := {
  self : SAGAN;
  files : gmap string file;
  trace : list event
}.

(** state and exceptions: the world survives a [Raise] *)
Definition M (A : Type) : Type := world -> result A * world.

Definition ret {A} (a : A) : M A := fun w => (Ok a, w).

Definition mbind' {A B} (m : M A) (k : A -> M B) : M B :=
  fun w =>
    match m w with
    | (Ok a, w') => k a w'
    | (Raise e, w') => (Raise e, w')
    end.

Definition lift {A} (r : result A) : M A := fun w => (r, w).

Definition emit (ev : event) : M unit :=
  fun w => (Ok tt, {| self := self w; files := files w;
                      trace := trace w ++ [ev] |}).

Definition get_self : M SAGAN := fun w => (Ok (self w), w).

Definition set_self (s : SAGAN) : M unit :=
  fun w => (Ok tt, {| self := s; files := files w; trace := trace w |}).

Definition get_files : M (gmap string file) :=
  fun w => (Ok (files w), w).

Definition set_files (fs : gmap string file) : M unit :=
  fun w => (Ok tt, {| self := self w; files := fs; trace := trace w |}).

Declare Scope train_scope.
Delimit Scope train_scope with train.
Notation "'let!' x ':=' m 'in' k" := (mbind' m (fun x => k))
  (at level 10, x name, m at level 100, k at level 200) : train_scope.

(** [for x in l: body], threading the loop's local variables [acc] *)
Fixpoint for_each {A S} (l : list A) (acc : S) (body : A -> S -> M S) : M S :=
  match l with
  | [] => ret acc
  | x :: l' => mbind' (body x acc) (fun acc' => for_each l' acc' body)
  end.

(** [a % b] of Python on integers *)
Definition pymod (a b : Z) : result Z :=
  if Z.eqb b 0 then Raise ZeroDivisionError else Ok (a mod b)%Z.

(** [int(q)]: truncation towards zero *)
Definition int_of_Q (q : Q) : Z := Z.quot (Qnum q) (Zpos (Qden q)).

(** *** The double that Python gives for a quotient of integers

    [a / b] on integers is the real quotient rounded to the nearest double
    (binary64: 53 significant bits, exponents down to -1074), ties to the
    even neighbour; a quotient too large for a double raises
    [OverflowError]. *)

(** [2^e] *)
Definition Qpow2 (e : Z) : Q := (2 ^ e)%Q.

(** the integer nearest to [q], the even one of two *)
Definition Qrne (q : Q) : Z :=
  let f := Qfloor q in
  match (q - inject_Z f ?= 1 # 2)%Q with
  | Lt => f
  | Gt => (f + 1)%Z
  | Eq => if Z.even f then f else (f + 1)%Z
  end.

(** the exponent [e] of a positive number: [2^e <= q < 2^(e+1)] *)
Definition Qlog2 (q : Q) : Z :=
  let e := (Z.log2 (Qnum q) - Z.log2 (Zpos (Qden q)))%Z in
  if Qle_bool (Qpow2 e) q then e else (e - 1)%Z.

(** a positive number rounded to 53 significant bits *)
Definition round_pos (q : Q) : Q :=
  let u := Z.max (Qlog2 q - 52) (-1074) in
  (inject_Z (Qrne (q * Qpow2 (- u))) * Qpow2 u)%Q.

Definition binary64 (q : Q) : result Q :=
  let r := match (q ?= 0)%Q with
           | Eq => 0%Q
           | Gt => round_pos q
           | Lt => (- round_pos (- q))%Q
           end in
  if Qle_bool (Qpow2 1024) (Qabs r) then Raise OverflowError else Ok r.

(** [statistics.mean] *)
Definition statistics_mean (l : list Q) : result Q :=
  match l with
  | [] => Raise StatisticsError
  | _ => Ok (Qsum l / inject_Z (Z.of_nat (length l)))%Q
  end.

(** [l[i]] of a Python list *)
Definition list_item (l : list Q) (i : Z) : result Q :=
  let n := Z.of_nat (length l) in
  if (0 <=? i)%Z && (i <? n)%Z then Ok (nth (Z.to_nat i) l 0%Q)
  else if (- n <=? i)%Z && (i <? 0)%Z then Ok (nth (Z.to_nat (n + i)) l 0%Q)
  else Raise IndexError.

(** the means of the eight local lists (kept as one list of records) *)
Definition epoch_means (logs : list step_log) : result step_log :=
  let* m1 := statistics_mean (map d_loss logs) in
  let* m2 := statistics_mean (map d_loss_real logs) in
  let* m3 := statistics_mean (map d_loss_fake logs) in
  let* m4 := statistics_mean (map d_gamma1 logs) in
  let* m5 := statistics_mean (map d_gamma2 logs) in
  let* m6 := statistics_mean (map g_loss logs) in
  let* m7 := statistics_mean (map g_gamma1 logs) in
  let* m8 := statistics_mean (map g_gamma2 logs) in
  Ok {| d_loss := m1; d_loss_real := m2; d_loss_fake := m3;
        d_gamma1 := m4; d_gamma2 := m5;
        g_loss := m6; g_gamma1 := m7; g_gamma2 := m8 |}.

Definition append_means (h : histories) (m : step_log) : histories :=
  {| ave_d_losses := ave_d_losses h ++ [d_loss m];
     ave_d_losses_real := ave_d_losses_real h ++ [d_loss_real m];
     ave_d_losses_fake := ave_d_losses_fake h ++ [d_loss_fake m];
     ave_d_gamma1 := ave_d_gamma1 h ++ [d_gamma1 m];
     ave_d_gamma2 := ave_d_gamma2 h ++ [d_gamma2 m];
     ave_g_losses := ave_g_losses h ++ [g_loss m];
     ave_g_gamma1 := ave_g_gamma1 h ++ [g_gamma1 m];
     ave_g_gamma2 := ave_g_gamma2 h ++ [g_gamma2 m] |}.

(** the reads [self.ave_...[epoch]] of the tensorboard lines, in their order *)
Definition scalars_at (h : histories) (epoch : Z) : result step_log :=
  let* m1 := list_item (ave_d_losses h) epoch in
  let* m2 := list_item (ave_d_losses_real h) epoch in
  let* m3 := list_item (ave_d_losses_fake h) epoch in
  let* m6 := list_item (ave_g_losses h) epoch in
  let* m7 := list_item (ave_g_gamma1 h) epoch in
  let* m8 := list_item (ave_g_gamma2 h) epoch in
  let* m4 := list_item (ave_d_gamma1 h) epoch in
  let* m5 := list_item (ave_d_gamma2 h) epoch in
  Ok {| d_loss := m1; d_loss_real := m2; d_loss_fake := m3;
        d_gamma1 := m4; d_gamma2 := m5;
        g_loss := m6; g_gamma1 := m7; g_gamma2 := m8 |}.

Section Train.
Local Open Scope train_scope.

(** One training step, sagan.py 173-226: the discriminator phase, the
    generator phase, and the eight scalars a logging step would record.
    The networks, the batches and the random draws are abstract. *)
Variable train_step :
  configs -> Z -> Z -> Q -> networks -> result (networks * step_log).

(** [self.G(fixed_z)], the images that the generator makes of the fixed
    latent batch ([generator.py] is not at hand) *)
Variable sample_images : networks -> tensor float.

(** The body of [for step in range(step_per_epoch)].  A logging step reads
    [d_loss], [d_loss_real] and [d_loss_fake], which only the discriminator
    loop binds, and then [g_loss], which only the generator loop binds. *)
Definition step_body (epoch step : Z) (logs : list step_log) : M (list step_log) :=
  let! s := get_self in
  let! sigma := lift (inst_noise_sigma_curr (inst_noise_sigma (cfg s))
                   (inst_noise_sigma_iters (cfg s)) step) in
  let! _ := emit (EvStep epoch step sigma) in
  let! r := lift (train_step (cfg s) epoch step sigma (nets s)) in
  let! _ := set_self {| cfg := cfg s; nets := fst r; hist := hist s |} in
  let! m := lift (pymod (step + 1) (log_step (cfg s))) in
  if Z.eqb m 0 then
    if (d_iters (cfg s) <=? 0)%Z then lift (Raise (UnboundLocalError "d_loss"))
    else if (g_iters (cfg s) <=? 0)%Z then lift (Raise (UnboundLocalError "g_loss"))
    else ret (logs ++ [snd r])
  else ret logs.

(** the body of [for epoch in range(start_epoch, epochs)] *)
Definition epoch_body (step_per_epoch : Z) (epoch : Z) (_ : unit) : M unit :=
  let! _ := emit (EvEpoch epoch) in
  let! logs := for_each (range 0 step_per_epoch) [] (step_body epoch) in
  (* logging average losses over epoch *)
  let! means := lift (epoch_means logs) in
  let! s := get_self in
  let! _ := set_self {| cfg := cfg s; nets := nets s;
              hist := append_means (hist s) means |} in
  (* adding tensorboard logs *)
  let! s := get_self in
  let! sc := lift (scalars_at (hist s) epoch) in
  let! _ := emit (EvScalars epoch sc) in
  (* sample images every epoch *)
  let! _ := emit (EvSample epoch) in
  let! fs := get_files in
  let! _ := set_files (save_image (denorm (sample_images (nets s)))
                         (sample_image_path (sample_path (cfg s)) (epoch + 1))
                         fs) in
  (* save model *)
  let! m := lift (pymod (epoch + 1) (save_epoch (cfg s))) in
  if Z.eqb m 0 then
    let! fs := get_files in
    let! _ := set_files (save_checkpoint s epoch fs) in
    emit (EvSave epoch)
  else ret tt.

Definition start_epoch (c : configs) : Z :=
  if truthy (pretrained_model c) then
    match pretrained_model c with Some n => n | None => 0%Z end
  else 0%Z.

(** [epochs = int(self.total_steps / step_per_epoch)] *)
Definition epochs_of (c : configs) : result Z :=
  let* q := truediv (total_steps c) (Z.of_nat (dataloader_len c)) in
  let* r := binary64 q in
  Ok (int_of_Q r).

(** [SAGAN.train] *)
Definition train : M unit :=
  let! s := get_self in
  let step_per_epoch := Z.of_nat (dataloader_len (cfg s)) in
  let! epochs := lift (epochs_of (cfg s)) in
  for_each (range (start_epoch (cfg s)) epochs) tt (epoch_body step_per_epoch).
End Train.

(* ===================================================================== *)
(** ** Gradient buffers over a whole training step
       ([SAGAN.train], sagan.py 175-226) *)
(* ===================================================================== *)

(** The generator phase, and the step made of the two phases.  [g_loss] is
    computed through [self.D], whose parameters are not frozen, so its
    [backward()] accumulates in the buffers of both networks. *)
Section TrainingStepGradients.
Context {Grad : Type}.
Variable gzero : Grad.
Variable gadd : Grad -> Grad -> Grad.
Variable d_loss_real_grad : nat -> Grad.
Variable d_loss_fake_grad_D : nat -> Grad.
Variable d_loss_fake_grad_G : nat -> Grad.
(** gradient of [g_loss] of sub-iteration k in the generator and in the
    discriminator *)
Variable g_loss_grad_G : nat -> Grad.
Variable g_loss_grad_D : nat -> Grad.

(** the buffers and the optimizer log of the discriminator, with the log
    of the gradients each call of [self.g_optimizer.step()] has read *)
Record step_grad_state : Type := StepGradState {
  buffers : grad_state (Grad := Grad);
  g_steps : list Grad
}.

Definition g_loss_backward (k : nat) (s : grad_state) : grad_state :=
  {| D_grad := gadd (D_grad s) (g_loss_grad_D k);
     G_grad := gadd (G_grad s) (g_loss_grad_G k);
     d_steps := d_steps s |}.

(** one pass of the body of [for _ in range(self.g_iters)] *)
Definition g_iteration (s : grad_state) (k : nat) : grad_state :=
  g_loss_backward k (reset_grad gzero s).

(** the loop, then [self.g_optimizer.step()] after it *)
Definition generator_phase (g_iters : Z) (s : step_grad_state) : step_grad_state :=
  let b := fold_left g_iteration (seq 0 (Z.to_nat g_iters)) (buffers s) in
  {| buffers := b; g_steps := g_steps s ++ [G_grad b] |}.

(** the discriminator phase followed by the generator phase *)
Definition training_step (d_iters g_iters : Z) (s : step_grad_state)
  : step_grad_state :=
  generator_phase g_iters
    {| buffers := discriminator_phase gzero gadd d_loss_real_grad
                    d_loss_fake_grad_D d_loss_fake_grad_G d_iters (buffers s);
       g_steps := g_steps s |}.
End TrainingStepGradients.

Arguments StepGradState {Grad} _ _.

(* ===================================================================== *)
(** ** layers.py: parameter counts *)
(* ===================================================================== *)

(** [parameters(network)]: [ps] is what [network.parameters()] yields *)
Definition parameters (ps : list (tensor float)) : nat :=
  fold_right Nat.add 0 (map numel ps).

(** the parameters of a self-attention module: its gate, then the weight
    and bias of its four convolutions *)
Definition SelfAttn_parameters (m : SelfAttn.t) : list (tensor float) :=
  [ SelfAttn.gamma m;
    weight (SelfAttn.f m); bias (SelfAttn.f m);
    weight (SelfAttn.g m); bias (SelfAttn.g m);
    weight (SelfAttn.h m); bias (SelfAttn.h m);
    weight (SelfAttn.v m); bias (SelfAttn.v m) ].

(* ===================================================================== *)
(** ** Comparing results *)
(* ===================================================================== *)

(** two losses are the same number, or both are not a number *)
Definition same_loss (a b : option Q) : Prop :=
  match a, b with
  | Some x, Some y => (x == y)%Q
  | None, None => True
  | _, _ => False
  end.

(** the exception is a [RuntimeError], whatever its message *)
Definition is_RuntimeError (e : exn) : Prop := exists msg, e = RuntimeError msg.

(** the twelve keys of a checkpoint dictionary, in the order
    [load_pretrained] reads them *)
Definition checkpoint_keys : list string :=
  [ "gen_state_dict"; "disc_state_dict"; "gen_optimizer"; "disc_optimizer";
    "ave_d_losses"; "ave_d_losses_real"; "ave_d_losses_fake";
    "ave_d_gamma1"; "ave_d_gamma2";
    "ave_g_losses"; "ave_g_gamma1"; "ave_g_gamma2" ].

(** the training steps a run has done, as (epoch, step), in order *)
Fixpoint steps_run (tr : list event) : list (Z * Z) :=
  match tr with
  | [] => []
  | EvStep e s _ :: tr' => (e, s) :: steps_run tr'
  | _ :: tr' => steps_run tr'
  end.

(** the epochs after which a run has written a checkpoint, in order *)
Fixpoint saves_run (tr : list event) : list Z :=
  match tr with
  | [] => []
  | EvSave e :: tr' => e :: saves_run tr'
  | _ :: tr' => saves_run tr'
  end.

(* ===================================================================== *)
(** ** Observations on the trace of a run *)
(* ===================================================================== *)

(** the epochs a run has entered, in order *)
Fixpoint epochs_run (tr : list event) : list Z :=
  match tr with
  | [] => []
  | EvEpoch e :: tr' => e :: epochs_run tr'
  | _ :: tr' => epochs_run tr'
  end.

(** [ev] is the training step [step] of epoch [epoch], done with the noise
    standard deviation that the annealing formula gives for [step] *)
Definition step_event (c : configs) (epoch step : Z) (ev : event) : Prop :=
  exists sigma,
    ev = EvStep epoch step sigma
    /\ inst_noise_sigma_curr (inst_noise_sigma c) (inst_noise_sigma_iters c) step
       = Ok sigma.

(** every training step of the trace used the annealing formula at its
    own step index within the epoch *)
Definition annealed (c : configs) (tr : list event) : Prop :=
  forall epoch step sigma,
    In (EvStep epoch step sigma) tr ->
    inst_noise_sigma_curr (inst_noise_sigma c) (inst_noise_sigma_iters c) step
    = Ok sigma.

(** the lengths of the eight history lists *)
Definition hist_lengths (h : histories) : list nat :=
  [ length (ave_d_losses h); length (ave_d_losses_real h);
    length (ave_d_losses_fake h); length (ave_d_gamma1 h);
    length (ave_d_gamma2 h); length (ave_g_losses h);
    length (ave_g_gamma1 h); length (ave_g_gamma2 h) ].

(** a configuration and a session on which no line of [train] raises:
    batches to draw, at least one pass of the discriminator loop and of the
    generator loop in every step, a decay horizon that can be divided by, a
    logging cadence that logs at least once per epoch, a saving cadence, and
    histories that reach the epoch to resume from *)
Record runnable (s : SAGAN) : Prop := {
  run_batches : 0 < dataloader_len (cfg s);
  run_d_iters : (1 <= d_iters (cfg s))%Z;
  run_g_iters : (1 <= g_iters (cfg s))%Z;
  run_horizon : inst_noise_sigma_iters (cfg s) <> 0%Z;
  run_log_step :
    (0 < log_step (cfg s) <= Z.of_nat (dataloader_len (cfg s)))%Z;
  run_save_epoch : save_epoch (cfg s) <> 0%Z;
  run_start :
    match pretrained_model (cfg s) with
    | Some n => (0 <= n)%Z
    | None => True
    end;
  run_histories :
    Forall (fun n => (match pretrained_model (cfg s) with
                      | Some p => p | None => 0 end <= Z.of_nat n)%Z)
           (hist_lengths (hist s))
}.

(** every history of [h'] is the history of [h] followed by one entry for
    each element of [added], in order *)
Definition extends_histories (h h' : histories) (added : list step_log) : Prop :=
  ave_d_losses h' = ave_d_losses h ++ map d_loss added
  /\ ave_d_losses_real h' = ave_d_losses_real h ++ map d_loss_real added
  /\ ave_d_losses_fake h' = ave_d_losses_fake h ++ map d_loss_fake added
  /\ ave_d_gamma1 h' = ave_d_gamma1 h ++ map d_gamma1 added
  /\ ave_d_gamma2 h' = ave_d_gamma2 h ++ map d_gamma2 added
  /\ ave_g_losses h' = ave_g_losses h ++ map g_loss added
  /\ ave_g_gamma1 h' = ave_g_gamma1 h ++ map g_gamma1 added
  /\ ave_g_gamma2 h' = ave_g_gamma2 h ++ map g_gamma2 added.

(** the steps of the epochs [l], each with [spe] batches, in order *)
Definition steps_of_epochs (spe : Z) (l : list Z) : list (Z * Z) :=
  flat_map (fun e => map (pair e) (range 0 spe)) l.

(** [(epoch+1) % save_epoch == 0] *)
Definition saving_epoch (c : configs) (e : Z) : bool :=
  Z.eqb ((e + 1) mod save_epoch c) 0.

(** the file under a path is a checkpoint, or a sample image *)
Definition checkpoint_at (fs : gmap string file) (p : string) : Prop :=
  exists obj, fs !! p = Some (CheckpointFile obj).

Definition image_at (fs : gmap string file) (p : string) : Prop :=
  exists images, fs !! p = Some (ImageFile images).

(** what epoch [e] may have written when it is left: nothing, its sample
    image, or its sample image and then its checkpoint *)
Definition epoch_writes (c : configs) (e : Z) (fs fs' : gmap string file) : Prop :=
  fs' = fs
  \/ (exists img,
        fs' = save_image img (sample_image_path (sample_path c) (e + 1)) fs)
  \/ (saving_epoch c e = true
      /\ exists img obj,
           fs' = torch_save obj (checkpoint_path (model_path c) (e + 1))
                   (save_image img (sample_image_path (sample_path c) (e + 1))
                      fs)).

(** the last character of a string *)
Fixpoint string_last (s : string) : option ascii :=
  match s with
  | EmptyString => None
  | String c EmptyString => Some c
  | String _ s' => string_last s'
  end.

(* ===================================================================== *)
(** ** Concrete data for the examples *)
(* ===================================================================== *)

(** gradients of the k-th sub-iteration of a discriminator phase: real
    pass, fake pass in the discriminator, fake pass in the generator *)
Definition ex_gR (k : nat) : Z := (1 + Z.of_nat k)%Z.
Definition ex_gFD (k : nat) : Z := (10 * (1 + Z.of_nat k))%Z.
Definition ex_gFG (k : nat) : Z := (100 * (1 + Z.of_nat k))%Z.

(** a feature map [1; 8; 2; 1], the weights of a self-attention module for
    8 channels, and a stand-in for the exponential *)
Definition ex_x : tensor float :=
  Tensor [1; 8; 2; 1] (map (fun n => Fin (inject_Z (Z.of_nat n))) (seq 1 16)).

Definition ex_ws : SelfAttn.init_weights :=
  {| SelfAttn.f_w := map Fin [1; 2; 3; 4; 5; 6; 7; 8]%Q;
     SelfAttn.f_b := [Fin 1];
     SelfAttn.g_w := map Fin [1; 0; 1; 0; 1; 0; 1; 0]%Q;
     SelfAttn.g_b := [Fin 0];
     SelfAttn.h_w := repeat (Fin 1) 32; SelfAttn.h_b := repeat (Fin 0) 4;
     SelfAttn.v_w := repeat (Fin (1 # 2)) 32; SelfAttn.v_b := repeat (Fin 1) 8 |}.

(** a feature map [1; 8; 1; 1] of large finite floats, 2^100 each: the
    products of its two convolutions are beyond the range of float32 *)
Definition ex_x_large : tensor float :=
  Tensor [1; 8; 1; 1] (repeat (Fin (inject_Z (2 ^ 100))) 8).

Definition ex_exp (q : Q) : Q := (1 + q * q)%Q.

Definition ex_scores_low : tensor Q := Tensor [2] [1; 2]%Q.
Definition ex_scores_high : tensor Q := Tensor [3] [2; 2; 3]%Q.

(** a session after two epochs, and a freshly built one that is to resume
    from the checkpoint of epoch 2 *)
Definition ex_adam (rate : Q) (steps : Z) : Adam :=
  {| lr := rate; betas := (0, 9 # 10)%Q; n_params := 1;
     adam_state :=
       if Z.eqb steps 0 then ∅
       else {[ 0%nat := {| adam_step := steps;
                           exp_avg := Tensor [1] [Fin (1 # 7)];
                           exp_avg_sq := Tensor [1] [Fin (1 # 49)] |} ]} |}.

Definition ex_configs (resume : option Z) : configs :=
  {| total_steps := 7; d_iters := 1; g_iters := 1;
     inst_noise_sigma := 1 # 10; inst_noise_sigma_iters := 2;
     log_step := 2; save_epoch := 2;
     model_path := "models"; sample_path := "samples";
     pretrained_model := resume; dataloader_len := 3 |}.

Definition ex_trained : SAGAN :=
  {| cfg := ex_configs None;
     nets := {| G := {[ "l1.weight" := Tensor [2] [Fin (3 # 4); Fin 5] ]};
                D := {[ "l1.weight" := Tensor [1] [Fin (- (2 # 3))] ]};
                g_optimizer := ex_adam (1 # 10000) 6;
                d_optimizer := ex_adam (4 # 10000) 6 |};
     hist := {| ave_d_losses := [2; 1]%Q; ave_d_losses_real := [1; 1 # 2]%Q;
                ave_d_losses_fake := [1; 1 # 2]%Q;
                ave_d_gamma1 := [0; 1 # 100]%Q; ave_d_gamma2 := [0; 0]%Q;
                ave_g_losses := [1 # 3; 1 # 4]%Q;
                ave_g_gamma1 := [0; 0]%Q; ave_g_gamma2 := [0; 1 # 50]%Q |} |}.

Definition ex_fresh_networks : networks :=
  {| G := {[ "l1.weight" := Tensor [2] [Fin 0; Fin 0] ]};
     D := {[ "l1.weight" := Tensor [1] [Fin 0] ]};
     g_optimizer := ex_adam (1 # 10000) 0;
     d_optimizer := ex_adam (4 # 10000) 0 |}.

Definition ex_resuming : SAGAN :=
  {| cfg := ex_configs (Some 2%Z);
     nets := ex_fresh_networks;
     hist := empty_histories |}.

(** a training step that leaves the networks alone and logs the epoch, the
    step and the noise level it was given *)
Definition ex_train_step (c : configs) (epoch step : Z) (sigma : Q)
    (n : networks) : result (networks * step_log) :=
  Ok (n, {| d_loss := inject_Z epoch; d_loss_real := inject_Z step;
            d_loss_fake := sigma; d_gamma1 := 0; d_gamma2 := 0;
            g_loss := 1; g_gamma1 := 0; g_gamma2 := 0 |}).

(** a fresh run, and a run resumed from the checkpoint of epoch 1; both
    with 7 total steps and 3 batches per epoch *)
Definition ex_world : world :=
  {| self := {| cfg := ex_configs None; nets := ex_fresh_networks;
                hist := empty_histories |};
     files := ∅; trace := [] |}.

Definition ex_world_resumed : world :=
  {| self := {| cfg := ex_configs (Some 1%Z); nets := ex_fresh_networks;
                hist := {| ave_d_losses := [2]%Q; ave_d_losses_real := [1]%Q;
                           ave_d_losses_fake := [1]%Q;
                           ave_d_gamma1 := [0]%Q; ave_d_gamma2 := [0]%Q;
                           ave_g_losses := [1 # 3]%Q;
                           ave_g_gamma1 := [0]%Q; ave_g_gamma2 := [0]%Q |} |};
     files := ∅; trace := [] |}.

(** examples for the losses, the utilities and the annealing *)
Definition ex_scores_fake : tensor Q := Tensor [3] [- (1); - (2); 0]%Q.
Definition ex_image : tensor float :=
  Tensor [4] [Fin (- (1)); Fin (- (1 # 2)); Fin 0; Inf true].
Definition ex_image_brighter : tensor float :=
  Tensor [4] [Fin 0; Fin (- (1 # 2)); Fin 3; Inf false].

(** an image with an element that is not a number *)
Definition ex_image_nan : tensor float := Tensor [2] [Fin (1 # 2); NaN].

(** the images a generator makes, whatever its parameters *)
Definition ex_sample_images (n : networks) : tensor float :=
  Tensor [1; 1; 1; 2] [Fin (- (1)); Fin 3].

(** gradients of the generator loss of the k-th sub-iteration of a
    generator phase, in the generator and in the discriminator *)
Definition ex_gG (k : nat) : Z := (1000 * (1 + Z.of_nat k))%Z.
Definition ex_gD (k : nat) : Z := (10000 * (1 + Z.of_nat k))%Z.

(** a session built with another generator (a second parameter) *)
Definition ex_resuming_other : SAGAN :=
  {| cfg := ex_configs (Some 2%Z);
     nets := {| G := {[ "l1.weight" := Tensor [2] [Fin 0; Fin 0];
                        "l1.bias" := Tensor [1] [Fin 0] ]};
                D := {[ "l1.weight" := Tensor [1] [Fin 0] ]};
                g_optimizer := ex_adam (1 # 10000) 0;
                d_optimizer := ex_adam (4 # 10000) 0 |};
     hist := empty_histories |}.

(** worlds that differ from [ex_world] in one setting: resumed at the last
    epoch, a decay horizon of 0, no pass through the discriminator loop, a
    logging cadence of 5 for 3 batches *)
Definition ex_world_done : world :=
  {| self := {| cfg := ex_configs (Some 2%Z); nets := ex_fresh_networks;
                hist := empty_histories |};
     files := ∅; trace := [] |}.

Definition ex_world_zero_horizon : world :=
  {| self := {| cfg := {| total_steps := 7; d_iters := 1; g_iters := 1;
                          inst_noise_sigma := 1 # 10;
                          inst_noise_sigma_iters := 0;
                          log_step := 2; save_epoch := 2;
                          model_path := "models"; sample_path := "samples";
                          pretrained_model := None; dataloader_len := 3 |};
                nets := ex_fresh_networks; hist := empty_histories |};
     files := ∅; trace := [] |}.

Definition ex_world_no_d_iters : world :=
  {| self := {| cfg := {| total_steps := 7; d_iters := 0; g_iters := 1;
                          inst_noise_sigma := 1 # 10;
                          inst_noise_sigma_iters := 2;
                          log_step := 2; save_epoch := 2;
                          model_path := "models"; sample_path := "samples";
                          pretrained_model := None; dataloader_len := 3 |};
                nets := ex_fresh_networks; hist := empty_histories |};
     files := ∅; trace := [] |}.

(** a configuration whose number of steps needs 54 bits *)
Definition ex_configs_long : configs :=
  {| total_steps := 2 ^ 53 + 1; d_iters := 1; g_iters := 1;
     inst_noise_sigma := 1 # 10; inst_noise_sigma_iters := 2;
     log_step := 1; save_epoch := 2;
     model_path := "models"; sample_path := "samples";
     pretrained_model := None; dataloader_len := 1 |}.

Definition ex_world_log_step_5 : world :=
  {| self := {| cfg := {| total_steps := 7; d_iters := 1; g_iters := 1;
                          inst_noise_sigma := 1 # 10;
                          inst_noise_sigma_iters := 2;
                          log_step := 5; save_epoch := 2;
                          model_path := "models"; sample_path := "samples";
                          pretrained_model := None; dataloader_len := 3 |};
                nets := ex_fresh_networks; hist := empty_histories |};
     files := ∅; trace := [] |}.

(* ===================================================================== *)
(** * Properties *)
(* ===================================================================== *)

(** ** Instance-noise annealing *)

Lemma truediv_pos (a b : Z) :
  (0 < b)%Z -> truediv a b = Ok (inject_Z a / inject_Z b)%Q.
Proof.
  intros Hb. unfold truediv.
  destruct (Z.eqb_spec b 0) as [E|_]; [lia | reflexivity].
Qed.

(** the value of the annealing formula inside its horizon *)
Lemma inst_noise_sigma_curr_inside (sigma : Q) (iters step : Z) :
  (0 < iters)%Z -> (step <= iters)%Z ->
  inst_noise_sigma_curr sigma iters step
  = Ok ((1 - inject_Z step / inject_Z iters) * sigma)%Q.
Proof.
  intros Hi Hs. unfold inst_noise_sigma_curr.
  destruct (Z.ltb_spec iters step) as [L|_]; [lia|].
  rewrite truediv_pos by assumption. reflexivity.
Qed.

Lemma inst_noise_sigma_curr_beyond (sigma : Q) (iters step : Z) :
  (iters < step)%Z -> inst_noise_sigma_curr sigma iters step = Ok 0%Q.
Proof.
  intros Hs. unfold inst_noise_sigma_curr.
  destruct (Z.ltb_spec iters step) as [_|L]; [reflexivity | lia].
Qed.

Lemma Qdiv_inject_le (a b c : Z) :
  (0 < c)%Z -> (a <= b)%Z -> (inject_Z a / inject_Z c <= inject_Z b / inject_Z c)%Q.
Proof.
  intros Hc Hab. unfold Qdiv.
  apply Qmult_le_compat_r.
  - rewrite <- Zle_Qle. exact Hab.
  - apply Qlt_le_weak, Qinv_lt_0_compat.
    change 0%Q with (inject_Z 0). rewrite <- Zlt_Qlt. exact Hc.
Qed.

Lemma Qdiv_inject_self (c : Z) :
  (0 < c)%Z -> (inject_Z c / inject_Z c == 1)%Q.
Proof.
  intros Hc. apply Qmult_inv_r.
  intros E. change 0%Q with (inject_Z 0) in E.
  apply (proj1 (inject_Z_injective _ _)) in E. lia.
Qed.

(** inside the horizon the factor [1 - step/iters] is not negative *)
Lemma anneal_factor_nonneg (iters step : Z) :
  (0 < iters)%Z -> (step <= iters)%Z ->
  (0 <= 1 - inject_Z step / inject_Z iters)%Q.
Proof.
  intros Hi Hs.
  pose proof (Qdiv_inject_le step iters iters Hi Hs) as H.
  rewrite (Qdiv_inject_self iters Hi) in H. lra.
Qed.

(** [inst_noise_sigma_curr] as a total function, for a positive horizon *)
Lemma inst_noise_sigma_curr_total (sigma : Q) (iters step : Z) :
  (0 < iters)%Z -> exists q, inst_noise_sigma_curr sigma iters step = Ok q.
Proof.
  intros Hi. destruct (Z_lt_le_dec iters step) as [L|L].
  - eexists. apply inst_noise_sigma_curr_beyond; assumption.
  - eexists. apply inst_noise_sigma_curr_inside; assumption.
Qed.

Lemma inst_noise_sigma_curr_nonneg (sigma : Q) (iters step : Z) (q : Q) :
  (0 < iters)%Z -> (0 <= sigma)%Q ->
  inst_noise_sigma_curr sigma iters step = Ok q -> (0 <= q)%Q.
Proof.
  intros Hi Hs E. destruct (Z_lt_le_dec iters step) as [L|L].
  - rewrite inst_noise_sigma_curr_beyond in E by assumption.
    injection E as <-. lra.
  - rewrite inst_noise_sigma_curr_inside in E by assumption.
    injection E as <-.
    apply Qmult_le_0_compat; [apply anneal_factor_nonneg|]; assumption.
Qed.

(** C1.  With a positive decay horizon [iters], the annealed instance-noise
    standard deviation is defined at every step index; it is the configured
    [sigma] at step 0; up to the horizon it is the linear ramp
    [sigma - step * (sigma / iters)]; it is 0 at the horizon and at every
    later step; and, [sigma] being a standard deviation ([sigma >= 0]), it
    does not increase with the step index. *)
Theorem inst_noise_sigma_curr_anneals (sigma : Q) (iters : Z) :
  (0 < iters)%Z ->
  (exists q0, inst_noise_sigma_curr sigma iters 0 = Ok q0 /\ (q0 == sigma)%Q)
  /\ (forall step, (step <= iters)%Z ->
        exists q,
          inst_noise_sigma_curr sigma iters step = Ok q
          /\ (q == sigma - inject_Z step * (sigma / inject_Z iters))%Q)
  /\ (forall step, (iters <= step)%Z ->
        exists q,
          inst_noise_sigma_curr sigma iters step = Ok q /\ (q == 0)%Q)
  /\ ((0 <= sigma)%Q ->
      forall s1 s2, (s1 <= s2)%Z ->
        exists q1 q2,
          inst_noise_sigma_curr sigma iters s1 = Ok q1
          /\ inst_noise_sigma_curr sigma iters s2 = Ok q2
          /\ (q2 <= q1)%Q).
Proof.
  intros Hi.
  assert (Hne : ~ (inject_Z iters == 0)%Q).
  { intros E. change 0%Q with (inject_Z 0) in E.
    apply (proj1 (inject_Z_injective _ _)) in E. lia. }
  split; [|split; [|split]].
  - eexists. split.
    + apply inst_noise_sigma_curr_inside; lia.
    + change (inject_Z 0) with 0%Q. field. exact Hne.
  - intros step Hstep. eexists. split.
    + apply inst_noise_sigma_curr_inside; assumption.
    + field. exact Hne.
  - intros step Hstep.
    destruct (Z.eq_dec step iters) as [->|Hn].
    + eexists. split.
      * apply inst_noise_sigma_curr_inside; lia.
      * rewrite (Qdiv_inject_self iters Hi). ring.
    + exists 0%Q. split; [|reflexivity].
      apply inst_noise_sigma_curr_beyond. lia.
  - intros Hs s1 s2 H12.
    destruct (inst_noise_sigma_curr_total sigma iters s1 Hi) as [q1 E1].
    destruct (Z_lt_le_dec iters s2) as [L2|L2].
    + exists q1, 0%Q. split; [assumption|]. split.
      * apply inst_noise_sigma_curr_beyond; assumption.
      * eapply inst_noise_sigma_curr_nonneg; eassumption.
    + rewrite inst_noise_sigma_curr_inside in E1 by lia.
      injection E1 as <-.
      eexists. eexists. split; [|split].
      * apply inst_noise_sigma_curr_inside; lia.
      * apply inst_noise_sigma_curr_inside; lia.
      * apply Qmult_le_compat_r; [|assumption].
        pose proof (Qdiv_inject_le s1 s2 iters Hi H12). lra.
Qed.

Lemma inst_noise_sigma_curr_anneals_witness :
  (0 < 4)%Z
  /\ (exists q0, inst_noise_sigma_curr (1 # 10) 4 0 = Ok q0 /\ (q0 == 1 # 10)%Q)
  /\ (exists q1 q2,
        inst_noise_sigma_curr (1 # 10) 4 1 = Ok q1
        /\ inst_noise_sigma_curr (1 # 10) 4 3 = Ok q2
        /\ (q2 <= q1)%Q).
Proof.
  split; [lia|].
  destruct (inst_noise_sigma_curr_anneals (1 # 10) 4 ltac:(lia))
    as (H0 & _ & _ & Hmono).
  split; [exact H0|].
  apply Hmono; [lra | lia].
Defined.

(** a decay horizon of 0 cannot be divided by: the first step raises *)
Lemma inst_noise_sigma_curr_horizon_0 (sigma : Q) :
  inst_noise_sigma_curr sigma 0 0 = Raise ZeroDivisionError.
Proof. reflexivity. Qed.

(** ** The discriminator phase *)

Section DiscriminatorPhaseFacts.
Context {Grad : Type}.
Variable gzero : Grad.
Variable gadd : Grad -> Grad -> Grad.
Variables gR gFD gFG : nat -> Grad.

Lemma d_iteration_d_steps (s : grad_state) (k : nat) :
  d_steps (d_iteration gzero gadd gR gFD gFG s k) = d_steps s.
Proof. reflexivity. Qed.

Lemma d_loop_d_steps (ks : list nat) (s : grad_state) :
  d_steps (fold_left (d_iteration gzero gadd gR gFD gFG) ks s) = d_steps s.
Proof.
  revert s. induction ks as [|k ks IH]; intros s; simpl.
  - reflexivity.
  - rewrite IH. apply d_iteration_d_steps.
Qed.

(** every sub-iteration starts from zeroed buffers, so after the loop the
    buffers hold the gradients of the last sub-iteration only *)
Lemma d_loop_last (n : nat) (s : grad_state) :
  let s' := fold_left (d_iteration gzero gadd gR gFD gFG) (seq 0 (S n)) s in
  D_grad s' = gadd (gadd gzero (gR n)) (gFD n)
  /\ G_grad s' = gadd gzero (gFG n).
Proof.
  rewrite seq_S, fold_left_app. simpl. split; reflexivity.
Qed.
End DiscriminatorPhaseFacts.

(** C2 (as amended).  For every [d_iters >= 1] the discriminator phase takes
    exactly one optimizer step, and that step reads the sum of the real-pass
    and the fake-pass gradients of the last sub-iteration only: the buffers
    of both networks are zeroed at the start of every sub-iteration, whatever
    they held before. *)
Theorem discriminator_phase_steps_on_last_iteration
    {Grad : Type} (gzero : Grad) (gadd : Grad -> Grad -> Grad)
    (gR gFD gFG : nat -> Grad) (d_iters : Z) (s : grad_state) :
  (forall g, gadd gzero g = g) ->
  (1 <= d_iters)%Z ->
  let last := (Z.to_nat d_iters - 1)%nat in
  let s' := discriminator_phase gzero gadd gR gFD gFG d_iters s in
  d_steps s' = d_steps s ++ [gadd (gR last) (gFD last)]
  /\ D_grad s' = gadd (gR last) (gFD last)
  /\ G_grad s' = gFG last.
Proof.
  intros Hz Hd last s'. subst s'. unfold discriminator_phase, d_optimizer_step.
  cbn [D_grad G_grad d_steps].
  assert (En : Z.to_nat d_iters = S last) by (subst last; lia).
  rewrite En.
  destruct (d_loop_last gzero gadd gR gFD gFG last s) as [HD HG].
  cbv zeta in HD, HG. rewrite HD, HG, d_loop_d_steps, !Hz.
  repeat split; reflexivity.
Qed.

Lemma discriminator_phase_steps_on_last_iteration_witness :
  ((forall g, (0 + g)%Z = g) /\ (1 <= 3)%Z)
  /\ d_steps (discriminator_phase 0%Z Z.add ex_gR ex_gFD ex_gFG 3
               (GradState 7%Z 7%Z []))
     = [33%Z].
Proof.
  split.
  - split; [intros g; lia | lia].
  - apply (discriminator_phase_steps_on_last_iteration
             0%Z Z.add ex_gR ex_gFD ex_gFG 3 (GradState 7%Z 7%Z []));
      [intros g; lia | lia].
Defined.

(** C2, as the specification words it, fails on the code.  With two
    sub-iterations whose real gradients are 1 and 2 and whose fake gradients
    are 10 and 20, the optimizer step of the code reads 22; gradients zeroed
    once and accumulated over the window would make it read 33. *)
Lemma discriminator_phase_not_accumulated_over_window :
  d_steps (discriminator_phase 0%Z Z.add ex_gR ex_gFD ex_gFG 2
             (GradState 0%Z 0%Z []))
  = [22%Z]
  /\ d_steps (spec_discriminator_phase 0%Z Z.add ex_gR ex_gFD ex_gFG 2
                (GradState 0%Z 0%Z []))
     = [33%Z]
  /\ d_steps (discriminator_phase 0%Z Z.add ex_gR ex_gFD ex_gFG 2
                (GradState 0%Z 0%Z []))
     <> d_steps (spec_discriminator_phase 0%Z Z.add ex_gR ex_gFD ex_gFG 2
                   (GradState 0%Z 0%Z [])).
Proof.
  split; [reflexivity|]. split; [reflexivity|]. discriminate.
Qed.

(** with a single sub-iteration the two readings agree *)
Lemma discriminator_phase_one_iteration
    {Grad : Type} (gzero : Grad) (gadd : Grad -> Grad -> Grad)
    (gR gFD gFG : nat -> Grad) (s : grad_state) :
  discriminator_phase gzero gadd gR gFD gFG 1 s
  = spec_discriminator_phase gzero gadd gR gFD gFG 1 s.
Proof. reflexivity. Qed.

(** ** Floats *)

Lemma float_max_nonneg : (0 <= float_max)%Q.
Proof. discriminate. Qed.

(** within the range of the format the float of a real result is finite *)
Lemma fl_in_range (q : Q) : (Qabs q <= float_max)%Q -> fl q = Fin q.
Proof. intros H. unfold fl. apply Qle_bool_iff in H. now rewrite H. Qed.

Lemma fl_zero (q : Q) : (q == 0)%Q -> fl q = Fin q.
Proof.
  intros H. apply fl_in_range. rewrite H. exact float_max_nonneg.
Qed.

(** zero times a finite number is zero; zero times anything else is NaN *)
Lemma fmul_0_Fin (q : Q) : fmul (Fin 0) (Fin q) = Fin (0 * q).
Proof. unfold fmul. apply fl_zero. ring. Qed.

(** adding zero changes no float *)
Lemma fadd_zero_l (z : Q) (x : float) :
  (z == 0)%Q -> representable x -> feq (fadd (Fin z) x) x.
Proof.
  intros Hz Hx. destruct x as [a|s|]; cbn [fadd feq]; [|reflexivity|exact I].
  rewrite fl_in_range.
  - cbn [feq]. rewrite Hz. ring.
  - cbn [representable] in Hx. now rewrite Hz, Qplus_0_l.
Qed.

Lemma float_max_ge_2 : (2 <= float_max)%Q.
Proof. discriminate. Qed.

(** the float of a real result: the number itself within the range of the
    format, and beyond it the infinity of its sign *)
Lemma fl_cases (y : Q) :
  (fl y = Fin y /\ (Qabs y <= float_max)%Q)
  \/ (fl y = Inf false /\ (float_max < y)%Q)
  \/ (fl y = Inf true /\ (y < - float_max)%Q).
Proof.
  unfold fl, Qneg.
  destruct (Qle_bool (Qabs y) float_max) eqn:E.
  - left. split; [reflexivity|]. now apply Qle_bool_iff.
  - assert (Hgt : (float_max < Qabs y)%Q).
    { apply Qnot_le_lt. intros H. apply Qle_bool_iff in H. congruence. }
    right. destruct (Qle_bool 0 y) eqn:E0; cbn [negb].
    + left. split; [reflexivity|].
      apply Qle_bool_iff in E0. now rewrite Qabs_pos in Hgt.
    + right. split; [reflexivity|].
      assert (Hneg : (y < 0)%Q).
      { apply Qnot_le_lt. intros H. apply Qle_bool_iff in H. congruence. }
      rewrite Qabs_neg in Hgt by lra. lra.
Qed.

(** ** Tensors: indexing *)

Lemma length_unravel (s : list nat) (idx : nat) :
  length (unravel s idx) = length s.
Proof. induction s as [|d s IH]; simpl; [reflexivity | now rewrite IH]. Qed.

(** [ravel] undoes [unravel] *)
Lemma ravel_unravel_mod (s : list nat) (idx : nat) :
  ravel s (unravel s idx) = idx mod numel_of s.
Proof.
  induction s as [|d s IH]; simpl.
  - reflexivity.
  - rewrite IH.
    rewrite (Nat.mul_comm d (numel_of s)), Nat.Div0.mod_mul_r. lia.
Qed.

Lemma ravel_unravel (s : list nat) (idx : nat) :
  idx < numel_of s -> ravel s (unravel s idx) = idx.
Proof.
  intros H. rewrite ravel_unravel_mod. apply Nat.mod_small. exact H.
Qed.

Lemma nth_map_seq (F : nat -> float) (n idx : nat) :
  idx < n -> nth idx (map F (seq 0 n)) (Fin 0) = F idx.
Proof.
  intros H.
  rewrite (nth_indep _ (Fin 0) (F 0%nat)) by (rewrite length_map, length_seq; exact H).
  rewrite (map_nth F (seq 0 n) 0%nat idx), seq_nth by exact H. reflexivity.
Qed.

Lemma shape_init (s : list nat) (F : list nat -> float) : shape (init s F) = s.
Proof. reflexivity. Qed.

Lemma wf_init (s : list nat) (F : list nat -> float) : wf_tensor (init s F).
Proof. unfold wf_tensor, numel, init. simpl. now rewrite length_map, length_seq. Qed.

Lemma get_init (s : list nat) (F : list nat -> float) (idx : nat) :
  idx < numel_of s -> get (init s F) (unravel s idx) = F (unravel s idx).
Proof.
  intros H. unfold get, init. simpl.
  rewrite ravel_unravel by exact H. apply nth_map_seq. exact H.
Qed.

Lemma zip_with_unravel (s : list nat) (idx : nat) :
  zip_with (fun d i => if Nat.eqb d 1 then 0%nat else i) s (unravel s idx)
  = unravel s idx.
Proof.
  induction s as [|d s IH]; simpl.
  - reflexivity.
  - rewrite IH. destruct (Nat.eqb_spec d 1) as [->|_]; [|reflexivity].
    now rewrite Nat.mod_1_r.
Qed.

(** an operand of the result's own shape is read at the result's index *)
Lemma broadcast_index_unravel (s : list nat) (idx : nat) :
  broadcast_index s (unravel s idx) = unravel s idx.
Proof.
  unfold broadcast_index. rewrite length_unravel, Nat.sub_diag.
  apply zip_with_unravel.
Qed.

(** two lists are related when their elements are, index by index *)
Lemma Forall2_map_seq {A} (R : A -> A -> Prop) (d : A) (l : list A)
    (F : nat -> A) (k : nat) :
  (forall i, i < length l -> R (F (k + i)%nat) (nth i l d)) ->
  Forall2 R (map F (seq k (length l))) l.
Proof.
  revert k. induction l as [|x l IH]; intros k H; simpl.
  - constructor.
  - constructor.
    + specialize (H 0%nat). simpl in H. rewrite Nat.add_0_r in H.
      apply H. lia.
    + apply IH. intros i Hi. specialize (H (S i)). simpl in H.
      replace (S k + i)%nat with (k + S i)%nat by lia. apply H. lia.
Qed.

(** ** Tensors: shapes of the operations *)

Lemma bind_Ok_inv {A B} (r : result A) (k : A -> result B) (y : B) :
  bind r k = Ok y -> exists a, r = Ok a /\ k a = Ok y.
Proof. destruct r as [a|e]; simpl; [eauto | discriminate]. Qed.

Lemma broadcast_rev_refl (r : list nat) : broadcast_rev r r = Some r.
Proof.
  induction r as [|d r IH]; simpl; [reflexivity|].
  now rewrite IH, Nat.eqb_refl.
Qed.

Lemma broadcast_shapes_refl (s : list nat) : broadcast_shapes s s = Some s.
Proof.
  unfold broadcast_shapes. now rewrite broadcast_rev_refl, rev_involutive.
Qed.

(** a one-element tensor broadcasts against any tensor of rank at least 1 *)
Lemma broadcast_shapes_one (s : list nat) :
  s <> [] -> broadcast_shapes [1] s = Some s.
Proof.
  intros Hs. unfold broadcast_shapes.
  rewrite <- (rev_involutive s) at 2.
  change (rev [1]) with [1].
  destruct (rev s) as [|d r] eqn:E.
  - apply (f_equal (@rev nat)) in E. rewrite rev_involutive in E.
    contradiction.
  - cbn [broadcast_rev].
    destruct (Nat.eqb_spec 1 d) as [<-|_]; [reflexivity|].
    reflexivity.
Qed.

Lemma binop_inv (f : float -> float -> float) (t1 t2 y : tensor float) :
  binop f t1 t2 = Ok y ->
  exists s,
    broadcast_shapes (shape t1) (shape t2) = Some s
    /\ y = init s (fun ix => f (get t1 (broadcast_index (shape t1) ix))
                               (get t2 (broadcast_index (shape t2) ix))).
Proof.
  unfold binop. destruct (broadcast_shapes _ _) as [s|]; [|discriminate].
  intros E. injection E as <-. eauto.
Qed.

Lemma binop_ok (f : float -> float -> float) (t1 t2 : tensor float) (s : list nat) :
  broadcast_shapes (shape t1) (shape t2) = Some s ->
  exists y, binop f t1 t2 = Ok y /\ shape y = s.
Proof. intros E. unfold binop. rewrite E. eauto. Qed.

Lemma Conv2d_forward_inv (m : Conv2d) (x y : tensor float) :
  Conv2d_forward m x = Ok y ->
  exists b w h,
    out_channels m <> 0
    /\ shape x = [b; in_channels m; w; h]
    /\ shape y = [b; out_channels m; w; h].
Proof.
  unfold Conv2d_forward.
  destruct (shape x) as [|b [|c [|w [|h [|? ?]]]]]; try discriminate.
  destruct (Nat.eqb_spec (out_channels m) 0) as [|Ho]; [discriminate|].
  destruct (Nat.eqb_spec c (in_channels m)) as [->|_]; [|discriminate].
  intros E. injection E as <-. eauto 10.
Qed.

Lemma Conv2d_forward_ok (m : Conv2d) (x : tensor float) (b w h : nat) :
  out_channels m <> 0 ->
  shape x = [b; in_channels m; w; h] ->
  exists y, Conv2d_forward m x = Ok y /\ shape y = [b; out_channels m; w; h].
Proof.
  intros Ho E. unfold Conv2d_forward. rewrite E, Nat.eqb_refl.
  destruct (Nat.eqb_spec (out_channels m) 0) as [|_]; [contradiction|]. eauto.
Qed.

Lemma Z_of_nat_not_m1 (n : nat) : Z.eqb (Z.of_nat n) (-1) = false.
Proof. apply Z.eqb_neq. lia. Qed.

Lemma Z_m1_le_of_nat (n : nat) : Z.leb (-1) (Z.of_nat n) = true.
Proof. apply Z.leb_le. lia. Qed.

(** [t.view(b, -1, n)] *)
Lemma view_infer (t : tensor float) (b n : nat) :
  view t [Z.of_nat b; (-1)%Z; Z.of_nat n]
  = if Nat.eqb (numel_of [b; n]) 0 then
      Raise (RuntimeError "cannot infer the unspecified dimension")
    else if negb (Nat.eqb (numel t mod numel_of [b; n]) 0) then
      Raise (RuntimeError "shape is invalid for input size")
    else Ok (Tensor [b; (numel t / numel_of [b; n])%nat; n] (data t)).
Proof.
  unfold view. cbn [forallb List.filter map length].
  rewrite !Z_m1_le_of_nat, !Z_of_nat_not_m1.
  cbn [Z.leb Z.compare andb negb Z.eqb Pos.eqb List.filter map length Nat.sub].
  rewrite !Nat2Z.id. reflexivity.
Qed.

(** [t.view(a, b, c, d)] *)
Lemma view_explicit (t : tensor float) (a b c d : nat) :
  view t [Z.of_nat a; Z.of_nat b; Z.of_nat c; Z.of_nat d]
  = if Nat.eqb (numel_of [a; b; c; d]) (numel t) then
      Ok (Tensor [a; b; c; d] (data t))
    else Raise (RuntimeError "shape is invalid for input size").
Proof.
  unfold view. cbn [forallb List.filter map length].
  rewrite !Z_m1_le_of_nat, !Z_of_nat_not_m1.
  cbn [andb negb List.filter map length Nat.sub].
  rewrite !Nat2Z.id. reflexivity.
Qed.

Lemma view_infer_ok (t : tensor float) (b k n : nat) :
  numel t = numel_of [b; k; n] -> 0 < b -> 0 < n ->
  exists y, view t [Z.of_nat b; (-1)%Z; Z.of_nat n] = Ok y
            /\ shape y = [b; k; n].
Proof.
  intros Hn Hb Hnn. rewrite view_infer, Hn.
  assert (Hp : numel_of [b; n] <> 0) by (simpl; nia).
  assert (Hk : numel_of [b; k; n] = k * numel_of [b; n]) by (simpl; nia).
  rewrite Hk, Nat.Div0.mod_mul, Nat.div_mul by exact Hp.
  destruct (Nat.eqb_spec (numel_of [b; n]) 0) as [E|_]; [contradiction|].
  simpl. eauto.
Qed.

Lemma view_explicit_inv (t y : tensor float) (a b c d : nat) :
  view t [Z.of_nat a; Z.of_nat b; Z.of_nat c; Z.of_nat d] = Ok y ->
  shape y = [a; b; c; d].
Proof.
  rewrite view_explicit.
  destruct (Nat.eqb _ _); [|discriminate]. intros E. now injection E as <-.
Qed.

Lemma view_explicit_ok (t : tensor float) (a b c d : nat) :
  numel t = numel_of [a; b; c; d] ->
  exists y, view t [Z.of_nat a; Z.of_nat b; Z.of_nat c; Z.of_nat d] = Ok y
            /\ shape y = [a; b; c; d].
Proof.
  intros E. rewrite view_explicit, E, Nat.eqb_refl. eauto.
Qed.

Lemma permute_021_ok (t : tensor float) (a b c : nat) :
  shape t = [a; b; c] ->
  exists y, permute t [0; 2; 1] = Ok y /\ shape y = [a; c; b].
Proof.
  intros E. unfold permute. rewrite E. simpl. eauto.
Qed.

Lemma bmm_ok (a b : tensor float) (ba n m p : nat) :
  shape a = [ba; n; m] -> shape b = [ba; m; p] ->
  exists y, bmm a b = Ok y /\ shape y = [ba; n; p].
Proof.
  intros Ea Eb. unfold bmm. rewrite Ea, Eb, !Nat.eqb_refl. simpl. eauto.
Qed.

Lemma shape_softmax (exp : Q -> Q) (t : tensor float) :
  shape (softmax exp t) = shape t.
Proof. reflexivity. Qed.

(** ** Self attention *)

Ltac bind_inv H a Ha :=
  apply bind_Ok_inv in H; destruct H as [a [Ha H]].

(** where the attention returns, the module has at least 8 channels, the
    input is a non-empty feature map with the module's number of channels,
    and the attended map has the shape of the input *)
Lemma attention_inv (exp : Q -> Q) (channels : nat) (ws : SelfAttn.init_weights)
    (x o : tensor float) :
  SelfAttn.attention exp (SelfAttn.__init__ channels ws) x = Ok o ->
  8 <= channels
  /\ exists b w h,
       shape x = [b; channels; w; h] /\ 0 < b /\ 0 < w /\ 0 < h
       /\ shape o = [b; channels; w; h].
Proof.
  unfold SelfAttn.attention.
  destruct (shape x) as [|b [|c [|w [|h [|? ?]]]]] eqn:Sx; try discriminate.
  intros H.
  bind_inv H fx Efx. bind_inv H fv Efv. bind_inv H f_ Ef_.
  bind_inv H gx Egx. bind_inv H g_ Eg_.
  bind_inv H hx Ehx. bind_inv H h_ Eh_.
  bind_inv H tr Etr. bind_inv H beta Ebeta. bind_inv H o1 Eo1.
  bind_inv H o4 Eo4.
  cbn [SelfAttn.f SelfAttn.g SelfAttn.h SelfAttn.v SelfAttn.__init__] in *.
  (* the input has the module's number of channels *)
  apply Conv2d_forward_inv in Efx as (b0 & w0 & h0 & Hk & Sx0 & _).
  rewrite Sx in Sx0. cbn [in_channels out_channels conv1x1] in Sx0, Hk.
  injection Sx0 as _ Hc _ _. subst c.
  (* no dimension is empty *)
  rewrite view_infer in Efv.
  destruct (Nat.eqb_spec (numel_of [b; (w * h)%nat]) 0) as [E0|N0];
    [discriminate|].
  (* the output of [v] *)
  apply view_explicit_inv in Eo4.
  apply Conv2d_forward_inv in H as (b1 & w1 & h1 & _ & S4 & So).
  rewrite Eo4 in S4. injection S4 as <- <- <-.
  cbn [out_channels conv1x1] in So.
  split.
  - destruct (Nat.le_gt_cases 8 channels) as [L|L]; [exact L|].
    exfalso. apply Hk. apply Nat.div_small. exact L.
  - exists b, w, h. split; [reflexivity|].
    cbn in N0. repeat split; try exact So; destruct b, w, h; cbn in N0; lia.
Qed.

(** the attention returns on every non-empty feature map that has the
    module's number of channels, when the module has at least 8 *)
Lemma attention_ok (exp : Q -> Q) (channels : nat) (ws : SelfAttn.init_weights)
    (x : tensor float) (b w h : nat) :
  8 <= channels ->
  shape x = [b; channels; w; h] -> 0 < b -> 0 < w -> 0 < h ->
  exists o,
    SelfAttn.attention exp (SelfAttn.__init__ channels ws) x = Ok o
    /\ shape o = [b; channels; w; h].
Proof.
  intros Hch Sx Hb Hw Hh.
  assert (HN : 0 < w * h) by nia.
  assert (H8 : channels / 8 <> 0).
  { intros E. apply Nat.div_small_iff in E; lia. }
  assert (H2 : channels / 2 <> 0).
  { intros E. apply Nat.div_small_iff in E; lia. }
  assert (H0 : channels <> 0) by lia.
  unfold SelfAttn.attention. rewrite Sx.
  cbn [SelfAttn.f SelfAttn.g SelfAttn.h SelfAttn.v SelfAttn.__init__].
  (* f *)
  destruct (Conv2d_forward_ok
              (conv1x1 channels (channels / 8) (SelfAttn.f_w ws) (SelfAttn.f_b ws))
              x b w h H8 Sx) as (fx & -> & Sfx).
  cbn [bind out_channels conv1x1] in *.
  destruct (view_infer_ok fx b (channels / 8) (w * h)) as (fv & -> & Sfv);
    [unfold numel; rewrite Sfx; simpl; nia | assumption | assumption |].
  cbn [bind].
  destruct (permute_021_ok fv _ _ _ Sfv) as (f_ & -> & Sf_).
  cbn [bind].
  (* g *)
  destruct (Conv2d_forward_ok
              (conv1x1 channels (channels / 8) (SelfAttn.g_w ws) (SelfAttn.g_b ws))
              x b w h H8 Sx) as (gx & -> & Sgx).
  cbn [bind out_channels conv1x1] in *.
  destruct (view_infer_ok gx b (channels / 8) (w * h)) as (g_ & -> & Sg_);
    [unfold numel; rewrite Sgx; simpl; nia | assumption | assumption |].
  cbn [bind].
  (* h *)
  destruct (Conv2d_forward_ok
              (conv1x1 channels (channels / 2) (SelfAttn.h_w ws) (SelfAttn.h_b ws))
              x b w h H2 Sx) as (hx & -> & Shx).
  cbn [bind out_channels conv1x1] in *.
  destruct (view_infer_ok hx b (channels / 2) (w * h)) as (h_ & -> & Sh_);
    [unfold numel; rewrite Shx; simpl; nia | assumption | assumption |].
  cbn [bind].
  (* attention *)
  destruct (bmm_ok f_ g_ _ _ _ _ Sf_ Sg_) as (tr & -> & Str).
  cbn [bind].
  destruct (permute_021_ok (softmax exp tr) _ _ _ Str) as (beta & -> & Sbeta).
  cbn [bind].
  destruct (bmm_ok h_ beta _ _ _ _ Sh_ Sbeta) as (o1 & -> & So1).
  cbn [bind].
  destruct (view_explicit_ok o1 b (channels / 2) w h) as (o4 & -> & So4);
    [unfold numel; rewrite So1; simpl; nia |].
  cbn [bind].
  destruct (Conv2d_forward_ok
              (conv1x1 (channels / 2) channels (SelfAttn.v_w ws) (SelfAttn.v_b ws))
              o4 b w h H0 So4) as (o & -> & So).
  cbn [out_channels conv1x1] in So. eauto.
Qed.

(** the gate plays no part in the attention *)
Lemma attention_with_gamma (exp : Q -> Q) (m : SelfAttn.t) (gm : float)
    (x : tensor float) :
  SelfAttn.attention exp (SelfAttn.with_gamma m gm) x = SelfAttn.attention exp m x.
Proof. reflexivity. Qed.

(** the last line of [forward]: whenever it returns, the result has the
    shape of [x] and is, element by element, [gamma*out + x] for the
    attended map [out] *)
Lemma forward_inv (exp : Q -> Q) (channels : nat) (ws : SelfAttn.init_weights)
    (gm : float) (x out : tensor float) :
  SelfAttn.forward exp (SelfAttn.with_gamma (SelfAttn.__init__ channels ws) gm) x
  = Ok out ->
  exists o,
    SelfAttn.attention exp (SelfAttn.__init__ channels ws) x = Ok o
    /\ shape o = shape x
    /\ shape out = shape x
    /\ wf_tensor out
    /\ forall idx, idx < numel x ->
         nth idx (data out) (Fin 0)
         = fadd (fmul gm (nth idx (data o) (Fin 0))) (nth idx (data x) (Fin 0)).
Proof.
  unfold SelfAttn.forward. intros H.
  bind_inv H o Eo. bind_inv H gout Egout.
  rewrite attention_with_gamma in Eo.
  destruct (attention_inv _ _ _ _ _ Eo) as (_ & b & w & h & Sx & _ & _ & _ & So).
  cbn [SelfAttn.gamma SelfAttn.with_gamma] in Egout.
  apply binop_inv in Egout as (s1 & B1 & ->).
  cbn [shape] in B1. rewrite So in B1.
  rewrite broadcast_shapes_one in B1 by discriminate. injection B1 as <-.
  apply binop_inv in H as (s2 & B2 & ->).
  rewrite shape_init, Sx, broadcast_shapes_refl in B2. injection B2 as <-.
  exists o. split; [exact Eo|]. split; [now rewrite So, Sx|].
  split; [now rewrite Sx|]. split; [apply wf_init|].
  intros idx Hidx. unfold numel in Hidx. rewrite Sx in Hidx.
  cbn [data init]. rewrite nth_map_seq by exact Hidx.
  rewrite shape_init, Sx, broadcast_index_unravel.
  rewrite get_init by exact Hidx.
  rewrite So, broadcast_index_unravel.
  unfold get at 2 3. rewrite So, Sx, !ravel_unravel by exact Hidx.
  reflexivity.
Qed.

(** [forward] returns on every non-empty feature map that has the module's
    number of channels, when the module has at least 8 *)
Lemma forward_ok (exp : Q -> Q) (channels : nat) (ws : SelfAttn.init_weights)
    (gm : float) (x : tensor float) (b w h : nat) :
  8 <= channels ->
  shape x = [b; channels; w; h] -> 0 < b -> 0 < w -> 0 < h ->
  exists out,
    SelfAttn.forward exp
      (SelfAttn.with_gamma (SelfAttn.__init__ channels ws) gm) x = Ok out.
Proof.
  intros Hch Sx Hb Hw Hh.
  destruct (attention_ok exp channels ws x b w h Hch Sx Hb Hw Hh) as (o & Eo & So).
  unfold SelfAttn.forward. rewrite attention_with_gamma, Eo.
  cbn [bind SelfAttn.gamma SelfAttn.with_gamma].
  destruct (binop_ok fmul (Tensor [1%nat] [gm]) o [b; channels; w; h])
    as (gout & Eg & Sgout).
  { cbn [shape]. rewrite So. apply broadcast_shapes_one. discriminate. }
  unfold tensor_mul. rewrite Eg. cbn [bind].
  destruct (binop_ok fadd gout x [b; channels; w; h]) as (out & Eout & _).
  { rewrite Sgout, Sx. apply broadcast_shapes_refl. }
  exists out. exact Eout.
Qed.

Lemma with_gamma_init (channels : nat) (ws : SelfAttn.init_weights) :
  SelfAttn.with_gamma (SelfAttn.__init__ channels ws) (Fin 0)
  = SelfAttn.__init__ channels ws.
Proof. reflexivity. Qed.

(** a list is the table of its elements *)
Lemma list_table {A} (d : A) (l : list A) :
  l = map (fun i => nth i l d) (seq 0 (length l)).
Proof.
  induction l as [|a l IH]; simpl; [reflexivity|].
  f_equal. rewrite <- seq_shift, map_map. exact IH.
Qed.

(** C3 (as amended).  With the gate [gamma] at 0, its value after [__init__], whenever
    [forward] returns on a tensor [x] of floats, its result has the shape of
    [x] and holds the element of [x] wherever the attended map [out] is
    finite, and NaN wherever [out] is infinite or NaN; so it gives [x] back
    whenever the attended map is finite.  A module of at least 8 channels
    does return on every non-empty feature map [b; channels; w; h]. *)
Theorem SelfAttn_forward_identity_at_init
    (exp : Q -> Q) (channels : nat) (ws : SelfAttn.init_weights)
    (x : tensor float) :
  wf_tensor x -> Forall representable (data x) ->
  (forall out,
     SelfAttn.forward exp (SelfAttn.__init__ channels ws) x = Ok out ->
     exists o,
       SelfAttn.attention exp (SelfAttn.__init__ channels ws) x = Ok o
       /\ shape out = shape x /\ wf_tensor out
       /\ (forall idx, idx < numel x ->
             if is_finite (nth idx (data o) (Fin 0))
             then feq (nth idx (data out) (Fin 0)) (nth idx (data x) (Fin 0))
             else nth idx (data out) (Fin 0) = NaN)
       /\ (forallb is_finite (data o) = true ->
           Forall2 feq (data out) (data x)))
  /\ (8 <= channels ->
      forall b w h,
        shape x = [b; channels; w; h] -> 0 < b -> 0 < w -> 0 < h ->
        exists out,
          SelfAttn.forward exp (SelfAttn.__init__ channels ws) x = Ok out).
Proof.
  intros Hwf Hrep. split.
  - intros out H. rewrite <- with_gamma_init in H.
    apply forward_inv in H as (o & Eo & So & Hs & Hwo & Hval).
    exists o. split; [exact Eo|]. split; [exact Hs|]. split; [exact Hwo|].
    assert (Hel : forall idx, idx < numel x ->
              if is_finite (nth idx (data o) (Fin 0))
              then feq (nth idx (data out) (Fin 0)) (nth idx (data x) (Fin 0))
              else nth idx (data out) (Fin 0) = NaN).
    { intros idx Hidx. rewrite (Hval idx Hidx).
      destruct (nth idx (data o) (Fin 0)) as [q|s|] eqn:Eq; cbn [is_finite].
      - rewrite fmul_0_Fin. apply fadd_zero_l; [ring|].
        rewrite Forall_forall in Hrep. apply Hrep, list_elem_of_In, nth_In.
        unfold wf_tensor in Hwf. now rewrite Hwf.
      - reflexivity.
      - reflexivity. }
    split; [exact Hel|].
    intros Hfin.
    assert (El : length (data out) = length (data x)).
    { unfold wf_tensor, numel in *. now rewrite Hwo, Hs, Hwf. }
    rewrite (list_table (Fin 0) (data out)), El.
    apply (Forall2_map_seq feq (Fin 0)). intros i Hi. cbn [Nat.add].
    assert (Hi' : i < numel x) by (unfold wf_tensor in Hwf; now rewrite <- Hwf).
    specialize (Hel i Hi').
    assert (Hf : is_finite (nth i (data o) (Fin 0)) = true).
    { destruct (Nat.lt_ge_cases i (length (data o))) as [L|L].
      - rewrite forallb_forall in Hfin. apply Hfin, nth_In. exact L.
      - now rewrite nth_overflow. }
    now rewrite Hf in Hel.
  - intros Hch b w h Sx Hb Hw Hh. rewrite <- with_gamma_init.
    eapply forward_ok; eassumption.
Qed.

Lemma SelfAttn_forward_identity_at_init_witness :
  wf_tensor ex_x
  /\ Forall representable (data ex_x)
  /\ exists out,
       SelfAttn.forward ex_exp (SelfAttn.__init__ 8 ex_ws) ex_x = Ok out
       /\ shape out = shape ex_x /\ Forall2 feq (data out) (data ex_x).
Proof.
  assert (Hrep : Forall representable (data ex_x)).
  { apply Forall_forall. intros v Hv. apply list_elem_of_In in Hv.
    cbn in Hv. repeat (destruct Hv as [<-|Hv]; [vm_compute; discriminate|]).
    destruct Hv. }
  split; [reflexivity|]. split; [exact Hrep|].
  destruct (SelfAttn_forward_identity_at_init ex_exp 8 ex_ws ex_x eq_refl Hrep)
    as [Hid Hret].
  destruct (Hret ltac:(lia) 1 2 1 eq_refl ltac:(lia) ltac:(lia) ltac:(lia))
    as [out E].
  exists out. split; [exact E|].
  destruct (Hid out E) as (o & Eo & Hs & _ & _ & Hall).
  split; [exact Hs|]. apply Hall.
  vm_compute in Eo. injection Eo as <-. reflexivity.
Defined.

(** C3, as the specification words it, fails on the code.  On a feature
    map of large finite floats the products inside the attention overflow:
    the attended map is NaN, and with the gate at 0 the result is NaN at
    every element, not the input. *)
Lemma SelfAttn_forward_not_identity_on_overflow :
  wf_tensor ex_x_large
  /\ Forall representable (data ex_x_large)
  /\ forallb is_finite (data ex_x_large) = true
  /\ forall exp,
       SelfAttn.forward exp (SelfAttn.__init__ 8 ex_ws) ex_x_large
       = Ok (Tensor [1; 8; 1; 1] (repeat NaN 8))
       /\ ~ Forall2 feq (repeat NaN 8) (data ex_x_large).
Proof.
  split; [reflexivity|]. split.
  { apply Forall_forall. intros v Hv. apply list_elem_of_In in Hv.
    cbn in Hv. repeat (destruct Hv as [<-|Hv]; [vm_compute; discriminate|]).
    destruct Hv. }
  split; [reflexivity|].
  intros exp. split; [vm_compute; reflexivity|].
  intros H. inversion H as [|? ? ? ? Habs]. exact Habs.
Qed.

(** on an empty batch [view(b, -1, N)] cannot infer its dimension, and
    [forward] raises *)
Lemma SelfAttn_forward_empty_batch :
  SelfAttn.forward ex_exp (SelfAttn.__init__ 8 ex_ws) (Tensor [0; 8; 2; 1] [])
  = Raise (RuntimeError "cannot infer the unspecified dimension").
Proof. reflexivity. Qed.

(** C4.  Whatever the gate and the weights of the module, whenever
    [forward] returns, its output is a tensor of the shape of its input,
    with as many elements; and on every feature map of shape [B; C; W; H]
    with C divisible by 8 (and no empty dimension) it does return, with an
    output of shape [B; C; W; H] and its B*C*W*H elements. *)
Theorem SelfAttn_forward_shape
    (exp : Q -> Q) (C : nat) (ws : SelfAttn.init_weights) (gm : float)
    (x : tensor float) :
  (forall out,
     SelfAttn.forward exp (SelfAttn.with_gamma (SelfAttn.__init__ C ws) gm) x
     = Ok out ->
     shape out = shape x /\ length (data out) = numel_of (shape x))
  /\ (forall B W H,
        shape x = [B; C; W; H] -> (8 | C) ->
        0 < B -> 0 < C -> 0 < W -> 0 < H ->
        exists out,
          SelfAttn.forward exp
            (SelfAttn.with_gamma (SelfAttn.__init__ C ws) gm) x = Ok out
          /\ shape out = [B; C; W; H]
          /\ length (data out) = B * C * W * H).
Proof.
  assert (Hinv : forall out,
            SelfAttn.forward exp
              (SelfAttn.with_gamma (SelfAttn.__init__ C ws) gm) x = Ok out ->
            shape out = shape x /\ length (data out) = numel_of (shape x)).
  { intros out E. apply forward_inv in E as (o & _ & _ & Hs & Hwo & _).
    split; [exact Hs|]. unfold wf_tensor, numel in Hwo. now rewrite Hwo, Hs. }
  split; [exact Hinv|].
  intros B W H Sx [k Hk] HB HC HW HH.
  assert (H8 : 8 <= C) by lia.
  destruct (forward_ok exp C ws gm x B W H H8 Sx HB HW HH) as [out E].
  exists out. split; [exact E|].
  destruct (Hinv out E) as [Hs Hl]. rewrite Hs, Hl, Sx.
  split; [reflexivity|]. cbn [numel_of]. lia.
Qed.

Lemma SelfAttn_forward_shape_witness :
  exists out,
    SelfAttn.forward ex_exp
      (SelfAttn.with_gamma (SelfAttn.__init__ 8 ex_ws) (Fin (1 # 3))) ex_x = Ok out
    /\ shape out = [1; 8; 2; 1]
    /\ length (data out) = 1 * 8 * 2 * 1.
Proof.
  apply (proj2 (SelfAttn_forward_shape ex_exp 8 ex_ws (Fin (1 # 3)) ex_x) 1 2 1);
    [reflexivity | exists 1; reflexivity | lia | lia | lia | lia].
Defined.

(** ** Loss functions *)

Lemma Qsum_nonneg (l : list Q) :
  Forall (fun q => 0 <= q)%Q l -> (0 <= Qsum l)%Q.
Proof.
  induction 1 as [|q l Hq _ IH]; simpl; [lra|]. lra.
Qed.

Lemma Qsum_zero (l : list Q) :
  Forall (fun q => q == 0)%Q l -> (Qsum l == 0)%Q.
Proof.
  induction 1 as [|q l Hq _ IH]; simpl; [reflexivity|]. rewrite Hq, IH. ring.
Qed.

Lemma Qlength_pos {A} (l : list A) :
  l <> [] -> (0 < inject_Z (Z.of_nat (length l)))%Q.
Proof.
  intros H. change 0%Q with (inject_Z 0). rewrite <- Zlt_Qlt.
  destruct l; [contradiction | simpl; lia].
Qed.

(** [torch.mean] is a number exactly on the non-empty tensors *)
Lemma mean_nonempty (t : tensor Q) :
  data t <> [] ->
  mean t = Some (Qsum (data t) / inject_Z (Z.of_nat (length (data t))))%Q.
Proof. unfold mean. destruct (data t); [contradiction | reflexivity]. Qed.

Lemma mean_Some_inv (t : tensor Q) (m : Q) :
  mean t = Some m ->
  data t <> []
  /\ m = (Qsum (data t) / inject_Z (Z.of_nat (length (data t))))%Q.
Proof.
  unfold mean. destruct (data t) as [|q l]; [discriminate|].
  intros E. injection E as <-. split; [discriminate | reflexivity].
Qed.

Lemma relu_nonneg (x : Q) : (0 <= relu x)%Q.
Proof. apply Q.le_max_l. Qed.

Lemma relu_nonpos (x : Q) : (x <= 0)%Q -> (relu x == 0)%Q.
Proof. apply Q.max_l. Qed.



(** the mean of no element is not a number *)
Lemma loss_hinge_dis_real_empty :
  loss_hinge_dis_real (Tensor [0] []) = None.
Proof. reflexivity. Qed.

(** C7.  [loss_hinge_gen] is the opposite of the mean of [d_fake] (and not
    a number where the mean is not), hence strictly decreasing in that mean:
    if [mean(a) < mean(b)] then [loss_hinge_gen(a) > loss_hinge_gen(b)]. *)
Theorem loss_hinge_gen_spec :
  (forall d_fake,
     match mean d_fake with
     | Some m => loss_hinge_gen d_fake = Some (- m)%Q
     | None => loss_hinge_gen d_fake = None
     end)
  /\ (forall d_fake, data d_fake <> [] ->
        loss_hinge_gen d_fake
        = Some (- (Qsum (data d_fake)
                   / inject_Z (Z.of_nat (length (data d_fake)))))%Q)
  /\ (forall a b ma mb,
        mean a = Some ma -> mean b = Some mb -> (ma < mb)%Q ->
        exists la lb,
          loss_hinge_gen a = Some la /\ loss_hinge_gen b = Some lb
          /\ (lb < la)%Q).
Proof.
  split; [|split].
  - intros d. unfold loss_hinge_gen. destruct (mean d); reflexivity.
  - intros d Hne. unfold loss_hinge_gen. now rewrite mean_nonempty.
  - intros a b ma mb Ha Hb Hlt. unfold loss_hinge_gen. rewrite Ha, Hb.
    exists (- ma)%Q, (- mb)%Q. repeat split. lra.
Qed.

Lemma loss_hinge_gen_spec_witness :
  exists la lb,
    loss_hinge_gen ex_scores_low = Some la
    /\ loss_hinge_gen ex_scores_high = Some lb
    /\ (lb < la)%Q.
Proof.
  apply (proj2 (proj2 loss_hinge_gen_spec) ex_scores_low ex_scores_high
           (3 # 2)%Q (7 # 3)%Q); [reflexivity | reflexivity | lra].
Defined.

(** ** Utilities *)

(** [clamp_] of a real result: its float, clamped, is the clamped number *)
Lemma clamp_fl (lo hi y : Q) :
  (lo <= hi)%Q -> (- float_max <= lo)%Q -> (hi <= float_max)%Q ->
  exists r, clamp lo hi (fl y) = Fin r /\ (r == Qmin (Qmax y lo) hi)%Q.
Proof.
  intros Hlh Hlo Hhi.
  destruct (fl_cases y) as [[-> _]|[[-> Hy]|[-> Hy]]]; cbn [clamp].
  - eexists. split; reflexivity.
  - exists hi. split; [reflexivity|].
    rewrite Q.max_l by lra. rewrite Q.min_r by lra. reflexivity.
  - exists lo. split; [reflexivity|].
    rewrite Q.max_r by lra. rewrite Q.min_l by lra. reflexivity.
Qed.

(** One element of [denorm].  A number [q] comes out as the number
    [(q + 1) / 2] clamped to [0, 1], also where [q + 1] overflows; the
    infinities come out as 0 and 1, and NaN as NaN. *)
Lemma denorm_element (v : float) :
  match v with
  | Fin q =>
      exists r, clamp 0 1 (fdiv (fadd v (Fin 1)) (Fin 2)) = Fin r
                /\ (r == Qmin (Qmax ((q + 1) / 2) 0) 1)%Q
  | Inf true => clamp 0 1 (fdiv (fadd v (Fin 1)) (Fin 2)) = Fin 0
  | Inf false => clamp 0 1 (fdiv (fadd v (Fin 1)) (Fin 2)) = Fin 1
  | NaN => clamp 0 1 (fdiv (fadd v (Fin 1)) (Fin 2)) = NaN
  end.
Proof.
  pose proof float_max_ge_2 as Hmax.
  destruct v as [q|[|]|]; try reflexivity.
  cbn [fadd].
  destruct (fl_cases (q + 1)) as [[-> _]|[[-> Hy]|[-> Hy]]].
  - change (fdiv (Fin (q + 1)) (Fin 2)) with (fl ((q + 1) / 2)).
    apply clamp_fl; lra.
  - exists 1%Q. split; [reflexivity|].
    assert (1 <= (q + 1) / 2)%Q by (apply Qle_shift_div_l; lra).
    rewrite Q.max_l by lra. rewrite Q.min_r by lra. reflexivity.
  - exists 0%Q. split; [reflexivity|].
    assert ((q + 1) / 2 <= 0)%Q by (apply Qle_shift_div_r; lra).
    rewrite Q.max_r by lra. rewrite Q.min_l by lra. reflexivity.
Qed.

Lemma data_denorm (x : tensor float) :
  data (denorm x)
  = map (fun v => clamp 0 1 (fdiv (fadd v (Fin 1)) (Fin 2))) (data x).
Proof. unfold denorm, map_tensor. cbn [data]. now rewrite map_map. Qed.

(** C10 (as amended).  [denorm] keeps the shape and computes [(x + 1) / 2] clamped to
    [0, 1] element by element.  Every element of the input that is not NaN,
    the infinities and the numbers outside [-1, 1] included, comes out in
    [0, 1]; an element that is NaN comes out as NaN. *)
Theorem denorm_range (x : tensor float) :
  shape (denorm x) = shape x
  /\ data (denorm x)
     = map (fun v => clamp 0 1 (fdiv (fadd v (Fin 1)) (Fin 2))) (data x)
  /\ Forall2 (fun v o => if is_nan v then o = NaN
                         else in_unit_interval o = true)
             (data x) (data (denorm x)).
Proof.
  split; [reflexivity|]. split; [apply data_denorm|].
  rewrite data_denorm.
  induction (data x) as [|v l IH]; cbn [map]; constructor; [|exact IH].
  pose proof (denorm_element v) as H.
  destruct v as [q|[|]|]; cbn [is_nan]; try (rewrite H; reflexivity).
  destruct H as (r & -> & Hr).
  unfold in_unit_interval. cbn [fle].
  apply andb_true_intro. split; apply Qle_bool_iff; rewrite Hr.
  - apply Q.min_glb; [apply Q.le_max_r | lra].
  - apply Q.le_min_r.
Qed.

(** C10, as the specification words it, fails on the code: an element that
    is NaN stays NaN, which is not in [0, 1]. *)
Lemma denorm_nan_out_of_range :
  data (denorm ex_image_nan) = [Fin (3 # 4); NaN]
  /\ ~ Forall (fun o => in_unit_interval o = true) (data (denorm ex_image_nan)).
Proof.
  split; [reflexivity|].
  intros H. apply Forall_cons in H as [_ H]. apply Forall_cons in H as [H _].
  discriminate H.
Qed.

(** ** Checkpoints *)

Ltac checkpoint_item :=
  unfold item, checkpoint_dict;
  rewrite ?lookup_insert_ne by done;
  rewrite lookup_insert_eq; reflexivity.

Section CheckpointItems.
Variable s : SAGAN.

Lemma item_gen_state_dict :
  item (checkpoint_dict s) "gen_state_dict" = Ok (PyStateDict (G (nets s))).
Proof. checkpoint_item. Qed.

Lemma item_disc_state_dict :
  item (checkpoint_dict s) "disc_state_dict" = Ok (PyStateDict (D (nets s))).
Proof. checkpoint_item. Qed.

Lemma item_gen_optimizer :
  item (checkpoint_dict s) "gen_optimizer"
  = Ok (PyOptimizer (g_optimizer (nets s))).
Proof. checkpoint_item. Qed.

Lemma item_disc_optimizer :
  item (checkpoint_dict s) "disc_optimizer"
  = Ok (PyOptimizer (d_optimizer (nets s))).
Proof. checkpoint_item. Qed.

Lemma item_ave_d_losses :
  item (checkpoint_dict s) "ave_d_losses" = Ok (PyList (ave_d_losses (hist s))).
Proof. checkpoint_item. Qed.

Lemma item_ave_d_losses_real :
  item (checkpoint_dict s) "ave_d_losses_real"
  = Ok (PyList (ave_d_losses_real (hist s))).
Proof. checkpoint_item. Qed.

Lemma item_ave_d_losses_fake :
  item (checkpoint_dict s) "ave_d_losses_fake"
  = Ok (PyList (ave_d_losses_fake (hist s))).
Proof. checkpoint_item. Qed.

Lemma item_ave_d_gamma1 :
  item (checkpoint_dict s) "ave_d_gamma1" = Ok (PyList (ave_d_gamma1 (hist s))).
Proof. checkpoint_item. Qed.

Lemma item_ave_d_gamma2 :
  item (checkpoint_dict s) "ave_d_gamma2" = Ok (PyList (ave_d_gamma2 (hist s))).
Proof. checkpoint_item. Qed.

Lemma item_ave_g_losses :
  item (checkpoint_dict s) "ave_g_losses" = Ok (PyList (ave_g_losses (hist s))).
Proof. checkpoint_item. Qed.

Lemma item_ave_g_gamma1 :
  item (checkpoint_dict s) "ave_g_gamma1" = Ok (PyList (ave_g_gamma1 (hist s))).
Proof. checkpoint_item. Qed.

Lemma item_ave_g_gamma2 :
  item (checkpoint_dict s) "ave_g_gamma2" = Ok (PyList (ave_g_gamma2 (hist s))).
Proof. checkpoint_item. Qed.
End CheckpointItems.

(** what was saved for an epoch is what is found under that epoch's name *)
Lemma torch_load_save_checkpoint (s : SAGAN) (epoch : Z)
    (fs : gmap string file) :
  torch_load (checkpoint_path (model_path (cfg s)) (epoch + 1))
             (save_checkpoint s epoch fs)
  = Ok (checkpoint_dict s).
Proof.
  unfold torch_load, save_checkpoint, torch_save.
  now rewrite lookup_insert_eq.
Qed.

(** C5.  A checkpoint saved at the end of the loop's epoch [epoch] is stored
    as [<epoch+1>_sagan.pth]; a session built for the same architecture and
    the same [model_path], with [pretrained_model = epoch+1], loads it back
    and then holds the generator and discriminator parameters, the state of
    both optimizers and the eight history lists exactly as they were saved. *)
Theorem checkpoint_round_trip (saved fresh : SAGAN) (epoch : Z)
    (fs : gmap string file) :
  model_path (cfg fresh) = model_path (cfg saved) ->
  pretrained_model (cfg fresh) = Some (epoch + 1)%Z ->
  shape <$> G (nets fresh) = shape <$> G (nets saved) ->
  shape <$> D (nets fresh) = shape <$> D (nets saved) ->
  n_params (g_optimizer (nets fresh)) = n_params (g_optimizer (nets saved)) ->
  n_params (d_optimizer (nets fresh)) = n_params (d_optimizer (nets saved)) ->
  exists loaded,
    load_pretrained fresh (save_checkpoint saved epoch fs) = Ok loaded
    /\ G (nets loaded) = G (nets saved)
    /\ D (nets loaded) = D (nets saved)
    /\ g_optimizer (nets loaded) = g_optimizer (nets saved)
    /\ d_optimizer (nets loaded) = d_optimizer (nets saved)
    /\ hist loaded = hist saved
    /\ cfg loaded = cfg fresh.
Proof.
  intros Hpath Hpm HG HD Hg Hd.
  unfold load_pretrained. rewrite Hpm, Hpath. cbn [pretrained_file].
  fold (checkpoint_path (model_path (cfg saved)) (epoch + 1)).
  rewrite torch_load_save_checkpoint.
  cbn [bind].
  rewrite item_gen_state_dict. cbn [bind as_state_dict].
  unfold Module_load_state_dict at 1.
  rewrite decide_True by exact HG. cbn [bind].
  rewrite item_disc_state_dict. cbn [bind as_state_dict].
  unfold Module_load_state_dict at 1.
  rewrite decide_True by exact HD. cbn [bind].
  rewrite item_gen_optimizer. cbn [bind as_optimizer].
  unfold Adam_load_state_dict at 1. rewrite Hg, Nat.eqb_refl. cbn [bind].
  rewrite item_disc_optimizer. cbn [bind as_optimizer].
  unfold Adam_load_state_dict at 1. rewrite Hd, Nat.eqb_refl. cbn [bind].
  rewrite item_ave_d_losses, item_ave_d_losses_real, item_ave_d_losses_fake,
    item_ave_d_gamma1, item_ave_d_gamma2, item_ave_g_losses,
    item_ave_g_gamma1, item_ave_g_gamma2.
  cbn [bind as_list].
  eexists. split; [reflexivity|]. cbn [nets hist cfg G D g_optimizer d_optimizer].
  repeat split. destruct (hist saved); reflexivity.
Qed.

Lemma checkpoint_round_trip_witness :
  exists loaded,
    load_pretrained ex_resuming (save_checkpoint ex_trained 1 ∅) = Ok loaded
    /\ G (nets loaded) = G (nets ex_trained)
    /\ D (nets loaded) = D (nets ex_trained)
    /\ g_optimizer (nets loaded) = g_optimizer (nets ex_trained)
    /\ d_optimizer (nets loaded) = d_optimizer (nets ex_trained)
    /\ hist loaded = hist ex_trained
    /\ cfg loaded = cfg ex_resuming.
Proof.
  apply (checkpoint_round_trip ex_trained ex_resuming 1 ∅);
    first [reflexivity | vm_compute; reflexivity].
Defined.

(** ** The double of a quotient of integers *)

Lemma Qpow2_pos (e : Z) : (0 < Qpow2 e)%Q.
Proof. apply Qpower_0_lt. reflexivity. Qed.

Lemma Qpow2_add (a b : Z) : (Qpow2 (a + b) == Qpow2 a * Qpow2 b)%Q.
Proof. apply Qpower_plus. discriminate. Qed.

Lemma Qpow2_Z (k : Z) : (0 <= k)%Z -> (Qpow2 k == inject_Z (2 ^ k))%Q.
Proof. intros H. unfold Qpow2. now rewrite Zpower_Qpower. Qed.

Lemma Qpow2_le (a b : Z) : (a <= b)%Z -> (Qpow2 a <= Qpow2 b)%Q.
Proof. intros H. apply Qpower_le_compat_l; [exact H | discriminate]. Qed.

Lemma Qpow2_lt_inv (a b : Z) : (Qpow2 a < Qpow2 b)%Q -> (a < b)%Z.
Proof. intros H. eapply Qpower_lt_compat_l_inv; [exact H | reflexivity]. Qed.

Lemma Qpow2_succ (a : Z) : (Qpow2 (a + 1) == 2 * Qpow2 a)%Q.
Proof. rewrite Qpow2_add. change (Qpow2 1) with 2%Q. ring. Qed.

Lemma Qpow2_opp (a : Z) : (Qpow2 (- a) * Qpow2 a == 1)%Q.
Proof. rewrite <- Qpow2_add. now replace (- a + a)%Z with 0%Z by lia. Qed.

(** the exponent of a positive number *)
Lemma Qlog2_spec (q : Q) :
  (0 < q)%Q -> (Qpow2 (Qlog2 q) <= q < Qpow2 (Qlog2 q + 1))%Q.
Proof.
  intros Hq. unfold Qlog2.
  set (e := (Z.log2 (Qnum q) - Z.log2 (Zpos (Qden q)))%Z).
  assert (Hb : (Qpow2 (e - 1) <= q < Qpow2 (e + 1))%Q).
  { destruct q as [N D]. cbn [Qnum Qden] in e.
    assert (HN : (0 < N)%Z) by (unfold Qlt in Hq; cbn in Hq; lia).
    pose proof (Z.log2_spec N HN) as [HN1 HN2].
    pose proof (Z.log2_spec (Zpos D) ltac:(lia)) as [HD1 HD2].
    pose proof (Z.log2_nonneg N) as HlN.
    pose proof (Z.log2_nonneg (Zpos D)) as HlD.
    set (ln := Z.log2 N) in *. set (ld := Z.log2 (Zpos D)) in *.
    rewrite Z.pow_succ_r in HN2, HD2 by assumption.
    assert (EN : (Qpow2 ln == inject_Z (2 ^ ln))%Q) by now apply Qpow2_Z.
    assert (ED : (Qpow2 ld == inject_Z (2 ^ ld))%Q) by now apply Qpow2_Z.
    assert (Hq' : (N # D == inject_Z N / inject_Z (Zpos D))%Q)
      by (rewrite Qmake_Qdiv; reflexivity).
    assert (HDp : (0 < inject_Z (Zpos D))%Q) by reflexivity.
    assert (Hld : (0 < Qpow2 ld)%Q) by apply Qpow2_pos.
    (* q * 2^ld  against  2^ln *)
    assert (E1 : (Qpow2 (e - 1) * (2 * Qpow2 ld) == Qpow2 ln)%Q).
    { rewrite <- Qpow2_succ, <- Qpow2_add. subst e.
      now replace (ln - ld - 1 + (ld + 1))%Z with ln by lia. }
    assert (E2 : (Qpow2 (e + 1) * Qpow2 ld == 2 * Qpow2 ln)%Q).
    { rewrite <- Qpow2_succ, <- Qpow2_add. subst e.
      now replace (ln - ld + 1 + ld)%Z with (ln + 1)%Z by lia. }
    rewrite Hq'. split.
    - apply Qle_shift_div_l; [exact HDp|].
      apply Qmult_le_r with (z := (2 * Qpow2 ld)%Q); [lra|].
      setoid_replace (Qpow2 (e - 1) * inject_Z (Z.pos D) * (2 * Qpow2 ld))%Q
        with (Qpow2 (e - 1) * (2 * Qpow2 ld) * inject_Z (Z.pos D))%Q using relation Qeq by ring.
      rewrite E1, EN, ED. rewrite <- !inject_Z_mult.
      change 2%Q with (inject_Z 2). rewrite <- !inject_Z_mult.
      rewrite <- Zle_Qle. nia.
    - apply Qlt_shift_div_r; [exact HDp|].
      apply Qmult_lt_r with (z := Qpow2 ld); [exact Hld|].
      setoid_replace (Qpow2 (e + 1) * inject_Z (Z.pos D) * Qpow2 ld)%Q
        with (Qpow2 (e + 1) * Qpow2 ld * inject_Z (Z.pos D))%Q using relation Qeq by ring.
      rewrite E2, EN, ED.
      change 2%Q with (inject_Z 2). rewrite <- !inject_Z_mult.
      rewrite <- Zlt_Qlt. nia. }
  destruct (Qle_bool (Qpow2 e) q) eqn:E.
  - apply Qle_bool_iff in E. split; [exact E | apply Hb].
  - assert (Hlt : (q < Qpow2 e)%Q).
    { apply Qnot_le_lt. intros H. apply Qle_bool_iff in H. congruence. }
    replace (e - 1 + 1)%Z with e by lia. split; [apply Hb | exact Hlt].
Qed.

(** rounding to the nearest integer stays between integer bounds *)
Lemma Qrne_ge (y : Q) (L : Z) : (inject_Z L <= y)%Q -> (L <= Qrne y)%Z.
Proof.
  intros H. apply Qfloor_resp_le in H. rewrite Qfloor_Z in H.
  unfold Qrne. destruct (y - inject_Z (Qfloor y) ?= 1 # 2)%Q; [|lia|lia].
  destruct (Z.even _); lia.
Qed.

Lemma Qrne_lt_half (y : Q) (K : Z) :
  (y < inject_Z K - (1 # 2))%Q -> (Qrne y <= K - 1)%Z.
Proof.
  intros H. pose proof (Qfloor_le y) as Hf.
  assert (Hfk : (Qfloor y <= K - 1)%Z).
  { assert (Hlt : (inject_Z (Qfloor y) < inject_Z K)%Q) by lra.
    rewrite <- Zlt_Qlt in Hlt. lia. }
  unfold Qrne.
  destruct (Z.eq_dec (Qfloor y) (K - 1)%Z) as [E|N].
  - assert (Hc : (y - inject_Z (Qfloor y) ?= 1 # 2)%Q = Lt).
    { apply (proj1 (Qlt_alt _ _)). rewrite E. unfold Z.sub. rewrite inject_Z_plus.
      change (inject_Z (- (1))) with (- (1))%Q. lra. }
    rewrite Hc. lia.
  - destruct (y - inject_Z (Qfloor y) ?= 1 # 2)%Q; [|lia|lia].
    destruct (Z.even _); lia.
Qed.

Lemma Qfloor_unique (r : Q) (n : Z) :
  (inject_Z n <= r < inject_Z n + 1)%Q -> Qfloor r = n.
Proof.
  intros [H1 H2]. apply Z.le_antisymm.
  - pose proof (Qfloor_le r) as Hf.
    assert (Hlt : (inject_Z (Qfloor r) < inject_Z (n + 1))%Q).
    { rewrite inject_Z_plus. change (inject_Z 1) with 1%Q. lra. }
    rewrite <- Zlt_Qlt in Hlt. lia.
  - apply Qfloor_resp_le in H1. now rewrite Qfloor_Z in H1.
Qed.

Lemma int_of_Q_nonneg (q : Q) : (0 <= q)%Q -> int_of_Q q = Qfloor q.
Proof.
  intros H. destruct q as [n d]. unfold int_of_Q, Qfloor. cbn [Qnum Qden].
  apply Z.quot_div_nonneg; [|lia].
  unfold Qle in H. cbn in H. lia.
Qed.

(** Rounding a quotient [a / b] of positive integers, [a] below 2^53, to a
    double does not reach the next integer. *)
Lemma round_pos_quotient (q : Q) (a b : Z) :
  (0 < a < 2 ^ 53)%Z -> (0 < b)%Z ->
  (q * inject_Z b == inject_Z a)%Q ->
  (inject_Z (a / b) <= round_pos q < inject_Z (a / b) + 1)%Q.
Proof.
  intros [Ha0 Ha] Hb Hq.
  assert (Hbq : (0 < inject_Z b)%Q).
  { change 0%Q with (inject_Z 0). now rewrite <- Zlt_Qlt. }
  assert (Haq : (0 < inject_Z a)%Q).
  { change 0%Q with (inject_Z 0). now rewrite <- Zlt_Qlt. }
  assert (Hq0 : (0 < q)%Q).
  { destruct (Qlt_le_dec 0 q) as [L|L]; [exact L|].
    exfalso. assert (q * inject_Z b <= 0)%Q by nra. lra. }
  set (n := (a / b)%Z).
  assert (Hn0 : (0 <= n)%Z) by (apply Z.div_pos; lia).
  pose proof (Z.div_mod a b ltac:(lia)) as Hdm.
  pose proof (Z.mod_pos_bound a b Hb) as Hmod. fold n in Hdm.
  (* n <= q < n + 1 *)
  assert (Hnq : (inject_Z n * inject_Z b <= inject_Z a)%Q).
  { rewrite <- inject_Z_mult, <- Zle_Qle. nia. }
  assert (Hqn : (inject_Z a + 1 <= (inject_Z n + 1) * inject_Z b)%Q).
  { change 1%Q with (inject_Z 1).
    rewrite <- !inject_Z_plus, <- inject_Z_mult, <- Zle_Qle. nia. }
  assert (Hnle : (inject_Z n <= q)%Q) by nra.
  pose proof (Qlog2_spec q Hq0) as [He1 He2].
  set (e := Qlog2 q) in *.
  assert (Ha53 : (inject_Z a < Qpow2 53)%Q).
  { change (Qpow2 53) with (inject_Z (2 ^ 53)). now rewrite <- Zlt_Qlt. }
  (* e <= 52 *)
  assert (He : (e <= 52)%Z).
  { assert (Hqa : (q <= inject_Z a)%Q).
    { assert (1 <= inject_Z b)%Q.
      { change 1%Q with (inject_Z 1). rewrite <- Zle_Qle. lia. }
      nra. }
    assert (Hlt : (Qpow2 e < Qpow2 53)%Q) by lra.
    apply Qpow2_lt_inv in Hlt. lia. }
  unfold round_pos. fold e.
  set (u := Z.max (e - 52) (-1074)).
  assert (Hu : (u <= 0)%Z) by lia.
  set (k := (- u)%Z). assert (Hk : (0 <= k)%Z) by lia.
  set (P2 := (2 ^ k)%Z).
  assert (HS : (1 <= P2)%Z) by (subst P2; pose proof (Z.pow_pos_nonneg 2 k); lia).
  assert (ES : (Qpow2 k == inject_Z P2)%Q) by (apply Qpow2_Z; exact Hk).
  assert (HSq : (1 <= inject_Z P2)%Q).
  { change 1%Q with (inject_Z 1). now rewrite <- Zle_Qle. }
  assert (Eu : (Qpow2 u * inject_Z P2 == 1)%Q).
  { rewrite <- ES. subst k. rewrite Qmult_comm. apply Qpow2_opp. }
  pose proof (Qpow2_pos u) as Hpu.
  set (y := (q * Qpow2 k)%Q).
  assert (Ey : (y == q * inject_Z P2)%Q) by (subst y; now rewrite ES).
  (* lower bound *)
  assert (Hlo : (n * P2 <= Qrne y)%Z).
  { apply Qrne_ge. rewrite inject_Z_mult, Ey. nra. }
  (* upper bound: b < 2 P2 ((n+1) b - a) *)
  assert (Hkey : (inject_Z b < 2 * inject_Z P2 * ((inject_Z n + 1) * inject_Z b - inject_Z a))%Q).
  { destruct (Z.max_spec (e - 52)%Z (-1074)%Z) as [[Hc Hmax]|[Hc Hmax]];
      fold u in Hmax.
    - (* the subnormal range: q is below one half *)
      assert (Hq2 : (q < 1 # 2)%Q).
      { assert (Hle : (Qpow2 (e + 1) <= Qpow2 (-1))%Q) by (apply Qpow2_le; lia).
        change (Qpow2 (-1)) with (1 # 2)%Q in Hle. lra. }
      assert (Hn : n = 0%Z).
      { subst n. apply Z.div_small. split; [lia|].
        assert (Hlt : (inject_Z a < inject_Z b)%Q) by nra.
        now rewrite <- Zlt_Qlt in Hlt. }
      rewrite Hn. change (inject_Z 0) with 0%Q.
      assert (2 * inject_Z a < inject_Z b)%Q by nra.
      nra.
    - (* the normal range: b < 2^(53 - e) = 2 P2 *)
      assert (Hke : k = (52 - e)%Z) by lia.
      assert (Hb2 : (inject_Z b < 2 * inject_Z P2)%Q).
      { assert (E53 : (Qpow2 53 == 2 * inject_Z P2 * Qpow2 e)%Q).
        { rewrite <- ES, <- Qpow2_succ, <- Qpow2_add, Hke.
          now replace (52 - e + 1 + e)%Z with 53%Z by lia. }
        pose proof (Qpow2_pos e) as Hpe.
        assert (Hbe : (inject_Z b * Qpow2 e <= inject_Z a)%Q) by nra.
        assert (Hlt : (inject_Z b * Qpow2 e < 2 * inject_Z P2 * Qpow2 e)%Q) by lra.
        apply Qmult_lt_r in Hlt; assumption. }
      assert (1 <= (inject_Z n + 1) * inject_Z b - inject_Z a)%Q by lra.
      nra. }
  assert (Hhi : (Qrne y <= (n + 1) * P2 - 1)%Z).
  { apply Qrne_lt_half. rewrite inject_Z_mult, inject_Z_plus, Ey.
    change (inject_Z 1) with 1%Q.
    apply Qmult_lt_r with (z := (2 * inject_Z b)%Q); [lra|].
    setoid_replace (q * inject_Z P2 * (2 * inject_Z b))%Q
      with (2 * inject_Z P2 * (q * inject_Z b))%Q using relation Qeq by ring.
    rewrite Hq. nra. }
  fold k. fold y.
  (* m / P2 is in [n, n+1) *)
  set (m := Qrne y) in *.
  assert (Em : (inject_Z m * Qpow2 u * inject_Z P2 == inject_Z m)%Q).
  { rewrite <- Qmult_assoc, Eu. ring. }
  assert (Hm1 : (inject_Z n * inject_Z P2 <= inject_Z m)%Q).
  { rewrite <- inject_Z_mult, <- Zle_Qle. exact Hlo. }
  assert (Hm2 : (inject_Z m + 1 <= (inject_Z n + 1) * inject_Z P2)%Q).
  { change 1%Q with (inject_Z 1).
    rewrite <- !inject_Z_plus, <- inject_Z_mult, <- Zle_Qle. lia. }
  split.
  - apply Qmult_le_r with (z := inject_Z P2); [lra|]. rewrite Em. exact Hm1.
  - apply Qmult_lt_r with (z := inject_Z P2); [lra|]. rewrite Em. lra.
Qed.

Lemma int_of_Q_opp (q : Q) : int_of_Q (- q) = (- int_of_Q q)%Z.
Proof.
  destruct q as [n d]. unfold int_of_Q. cbn [Qopp Qnum Qden].
  apply Z.quot_opp_l. lia.
Qed.

(** [int(a / b)] for an integer [a] of less than 54 bits is the integer
    quotient truncated towards zero, as with exact division *)
Lemma int_binary64_quotient (a b : Z) :
  (Z.abs a < 2 ^ 53)%Z -> (0 < b)%Z ->
  exists r, binary64 (inject_Z a / inject_Z b) = Ok r
            /\ int_of_Q r = Z.quot a b.
Proof.
  intros Ha Hb.
  assert (Hbq : (0 < inject_Z b)%Q).
  { change 0%Q with (inject_Z 0). now rewrite <- Zlt_Qlt. }
  set (q := (inject_Z a / inject_Z b)%Q).
  assert (Hq : (q * inject_Z b == inject_Z a)%Q).
  { subst q. field. lra. }
  assert (Hbig : (Qpow2 53 <= Qpow2 1024)%Q) by (apply Qpow2_le; lia).
  change (Qpow2 53) with (inject_Z (2 ^ 53)) in Hbig.
  (* a rounded quotient below 2^53 is no overflow *)
  assert (Hno : forall (r : Q) (n : Z),
            (0 <= n < 2 ^ 53)%Z ->
            (inject_Z n <= r < inject_Z n + 1)%Q ->
            Qle_bool (Qpow2 1024) (Qabs r) = false /\ int_of_Q r = n).
  { intros r n [Hn0 Hn] [Hr1 Hr2].
    assert (Hr0 : (0 <= r)%Q).
    { assert (0 <= inject_Z n)%Q
        by (change 0%Q with (inject_Z 0); now rewrite <- Zle_Qle).
      lra. }
    split.
    - destruct (Qle_bool (Qpow2 1024) (Qabs r)) eqn:E; [|reflexivity].
      exfalso. apply Qle_bool_iff in E. rewrite Qabs_pos in E by exact Hr0.
      assert (inject_Z n + 1 <= inject_Z (2 ^ 53))%Q.
      { change 1%Q with (inject_Z 1).
        rewrite <- inject_Z_plus, <- Zle_Qle. lia. }
      lra.
    - rewrite int_of_Q_nonneg by exact Hr0. apply Qfloor_unique. split; assumption. }
  destruct (Z.lt_trichotomy a 0%Z) as [Hneg|[->|Hpos]].
  - (* a < 0 *)
    assert (Hq0 : (q < 0)%Q).
    { assert (inject_Z a < 0)%Q
        by (change 0%Q with (inject_Z 0); now rewrite <- Zlt_Qlt).
      destruct (Qlt_le_dec q 0) as [L|L]; [exact L|].
      exfalso. assert (0 <= q * inject_Z b)%Q by nra. lra. }
    assert (Hq' : (- q * inject_Z b == inject_Z (- a))%Q).
    { rewrite inject_Z_opp, <- Hq. ring. }
    pose proof (round_pos_quotient (- q) (- a)%Z b ltac:(lia) Hb Hq') as Hr.
    destruct (Hno (round_pos (- q)) (- a / b)%Z) as [Hov Hint].
    { split; [apply Z.div_pos; lia|].
      apply Z.le_lt_trans with (m := (- a)%Z); [|lia].
      apply Z.div_le_upper_bound; nia. }
    { exact Hr. }
    assert (Hov' : Qle_bool (Qpow2 1024) (Qabs (- round_pos (- q))) = false)
      by (rewrite Qabs_opp; exact Hov).
    unfold binary64. apply (proj1 (Qlt_alt _ _)) in Hq0. rewrite Hq0.
    cbv zeta. rewrite Hov'.
    eexists. split; [reflexivity|].
    rewrite int_of_Q_opp, Hint.
    rewrite <- Z.quot_div_nonneg by lia.
    rewrite Z.quot_opp_l by lia. lia.
  - (* a = 0 *)
    exists 0%Q. split; [|now rewrite Z.quot_0_l by lia].
    unfold binary64.
    assert (E0 : (q == 0)%Q) by (subst q; unfold Qdiv; ring).
    apply (proj1 (Qeq_alt _ _)) in E0. rewrite E0. reflexivity.
  - (* 0 < a *)
    assert (Hq0 : (0 < q)%Q).
    { assert (0 < inject_Z a)%Q
        by (change 0%Q with (inject_Z 0); now rewrite <- Zlt_Qlt).
      destruct (Qlt_le_dec 0 q) as [L|L]; [exact L|].
      exfalso. assert (q * inject_Z b <= 0)%Q by nra. lra. }
    pose proof (round_pos_quotient q a b ltac:(lia) Hb Hq) as Hr.
    destruct (Hno (round_pos q) (a / b)%Z) as [Hov Hint].
    { split; [apply Z.div_pos; lia|].
      apply Z.le_lt_trans with (m := a); [|lia].
      apply Z.div_le_upper_bound; nia. }
    { exact Hr. }
    unfold binary64. apply (proj1 (Qgt_alt _ _)) in Hq0. rewrite Hq0.
    cbv zeta. rewrite Hov.
    eexists. split; [reflexivity|].
    rewrite Hint. symmetry. apply Z.quot_div_nonneg; lia.
Qed.

(** [epochs] exists only when there are batches; with a number of total
    steps of less than 54 bits it is their integer quotient by the batches
    per epoch, as with exact division *)
Lemma epochs_of_inv (c : configs) (epochs : Z) :
  epochs_of c = Ok epochs ->
  0 < dataloader_len c
  /\ ((Z.abs (total_steps c) < 2 ^ 53)%Z ->
      epochs = Z.quot (total_steps c) (Z.of_nat (dataloader_len c))).
Proof.
  unfold epochs_of, truediv.
  destruct (Z.eqb_spec (Z.of_nat (dataloader_len c)) 0) as [E|N];
    [discriminate|].
  cbn [bind]. intros E. split; [lia|]. intros Hsmall.
  destruct (int_binary64_quotient (total_steps c) (Z.of_nat (dataloader_len c))
              Hsmall ltac:(lia)) as (r & Er & Hr).
  rewrite Er in E. cbn [bind] in E. injection E as <-. exact Hr.
Qed.

Lemma epochs_of_ok (c : configs) :
  0 < dataloader_len c -> (Z.abs (total_steps c) < 2 ^ 53)%Z ->
  epochs_of c
  = Ok (Z.quot (total_steps c) (Z.of_nat (dataloader_len c))).
Proof.
  intros H Hsmall. unfold epochs_of, truediv.
  destruct (Z.eqb_spec (Z.of_nat (dataloader_len c)) 0) as [E|N]; [lia|].
  cbn [bind].
  destruct (int_binary64_quotient (total_steps c) (Z.of_nat (dataloader_len c))
              Hsmall ltac:(lia)) as (r & -> & Hr).
  cbn [bind]. now rewrite Hr.
Qed.

(** The number of epochs of a run, [int(total_steps / step_per_epoch)]:
    a [ZeroDivisionError] on an empty data loader; otherwise, for a number
    of steps of less than 54 bits, the integer quotient of the two, rounded
    towards zero. *)
Theorem epochs_of_quotient (c : configs) :
  (dataloader_len c = 0 -> epochs_of c = Raise ZeroDivisionError)
  /\ (0 < dataloader_len c -> (Z.abs (total_steps c) < 2 ^ 53)%Z ->
      epochs_of c
      = Ok (Z.quot (total_steps c) (Z.of_nat (dataloader_len c)))).
Proof.
  split.
  - intros E. unfold epochs_of, truediv. now rewrite E.
  - apply epochs_of_ok.
Qed.

Lemma epochs_of_quotient_witness :
  epochs_of (cfg (self ex_world)) = Ok (Z.quot 7 3).
Proof.
  apply (proj2 (epochs_of_quotient (cfg (self ex_world)))).
  - change (0 < 3). lia.
  - change (Z.abs 7 < 2 ^ 53)%Z. lia.
Defined.

(** with 54 bits the division of doubles loses the last one: 2^53 + 1
    steps in epochs of one batch give 2^53 epochs *)
Lemma epochs_of_beyond_53_bits :
  epochs_of ex_configs_long = Ok (2 ^ 53)%Z
  /\ Z.quot (total_steps ex_configs_long)
       (Z.of_nat (dataloader_len ex_configs_long)) = (2 ^ 53 + 1)%Z.
Proof. split; vm_compute; reflexivity. Qed.

(** ** The training loop *)

Lemma epochs_run_app (tr1 tr2 : list event) :
  epochs_run (tr1 ++ tr2) = epochs_run tr1 ++ epochs_run tr2.
Proof.
  induction tr1 as [|ev tr1 IH]; simpl; [reflexivity|].
  destruct ev; simpl; now rewrite IH.
Qed.

Lemma annealed_nil (c : configs) : annealed c [].
Proof. intros e s sg []. Qed.

Lemma annealed_app (c : configs) (tr1 tr2 : list event) :
  annealed c tr1 -> annealed c tr2 -> annealed c (tr1 ++ tr2).
Proof.
  intros H1 H2 e s sg Hin. apply in_app_or in Hin as [Hin|Hin]; eauto.
Qed.

Lemma annealed_step_event (c : configs) (e s : Z) (ev : event) :
  step_event c e s ev -> annealed c [ev].
Proof.
  intros (sg & -> & Hsg) e' s' sg' [Hin|[]]. now injection Hin as <- <- <-.
Qed.

Lemma annealed_other (c : configs) (ev : event) :
  (forall e s sg, ev <> EvStep e s sg) -> annealed c [ev].
Proof. intros H e s sg [Hin|[]]. now apply H in Hin. Qed.

Section TrainFacts.
Variable train_step :
  configs -> Z -> Z -> Q -> networks -> result (networks * step_log).
Variable sample_images : networks -> tensor float.

(** one pass of the step loop: it touches neither the configuration, the
    histories nor the files; it adds at most its own step event *)
Lemma step_body_spec (e s : Z) (logs : list step_log) (w w' : world)
    (r : result (list step_log)) :
  step_body train_step e s logs w = (r, w') ->
  cfg (self w') = cfg (self w)
  /\ hist (self w') = hist (self w)
  /\ files w' = files w
  /\ match r with
     | Ok logs' =>
         (exists ev, step_event (cfg (self w)) e s ev
                     /\ trace w' = trace w ++ [ev])
         /\ (exists extra, logs' = logs ++ extra)
         /\ (((s + 1) mod log_step (cfg (self w)))%Z = 0%Z -> logs' <> [])
     | Raise _ =>
         trace w' = trace w
         \/ exists ev, step_event (cfg (self w)) e s ev
                       /\ trace w' = trace w ++ [ev]
     end.
Proof.
  unfold step_body, mbind', get_self, lift, emit, set_self, ret.
  destruct (inst_noise_sigma_curr _ _ s) as [sg|ex] eqn:Esg.
  2:{ intros E. injection E as <- <-. auto. }
  assert (Hev : step_event (cfg (self w)) e s (EvStep e s sg))
    by (exists sg; auto).
  cbn [self files trace].
  destruct (train_step _ e s sg _) as [[n' lg]|ex] eqn:Ets.
  2:{ intros E. injection E as <- <-. cbn. eauto 10. }
  cbn [self files trace cfg nets hist fst snd].
  unfold pymod.
  destruct (Z.eqb_spec (log_step (cfg (self w))) 0) as [E0|N0].
  { intros E. injection E as <- <-. cbn. eauto 10. }
  destruct (Z.eqb_spec ((s + 1) mod log_step (cfg (self w))) 0) as [Em|Nm].
  - destruct (d_iters (cfg (self w)) <=? 0)%Z.
    { intros E. injection E as <- <-. cbn. eauto 10. }
    destruct (g_iters (cfg (self w)) <=? 0)%Z.
    { intros E. injection E as <- <-. cbn. eauto 10. }
    intros E. injection E as <- <-. cbn. repeat split; eauto.
    intros _ Habs. now apply app_eq_nil in Habs as [_ Habs].
  - intros E. injection E as <- <-. cbn. repeat split; eauto.
    exists []. now rewrite app_nil_r.
Qed.

Lemma step_event_epochs_run (c : configs) (e s : Z) (ev : event) :
  step_event c e s ev -> epochs_run [ev] = [].
Proof. intros (sg & -> & _). reflexivity. Qed.

(** the step loop of an epoch *)
Lemma steps_loop_spec (e : Z) (l : list Z) :
  forall (logs : list step_log) (w w' : world) (r : result (list step_log)),
  for_each l logs (step_body train_step e) w = (r, w') ->
  cfg (self w') = cfg (self w)
  /\ hist (self w') = hist (self w)
  /\ files w' = files w
  /\ exists ext,
       trace w' = trace w ++ ext
       /\ epochs_run ext = []
       /\ annealed (cfg (self w)) ext
       /\ match r with
          | Ok logs' =>
              Forall2 (step_event (cfg (self w)) e) l ext
              /\ (exists extra, logs' = logs ++ extra)
              /\ ((exists s, In s l
                             /\ ((s + 1) mod log_step (cfg (self w)))%Z = 0%Z)
                  -> logs' <> [])
          | Raise _ => True
          end.
Proof.
  induction l as [|s l IH]; intros logs w w' r; cbn [for_each].
  - unfold ret. intros E. injection E as <- <-.
    repeat split. exists []. rewrite app_nil_r. repeat split.
    + apply annealed_nil.
    + constructor.
    + exists []. now rewrite app_nil_r.
    + intros (s & [] & _).
  - unfold mbind'.
    destruct (step_body train_step e s logs w) as [[logs1|ex] w1] eqn:E1;
      apply step_body_spec in E1 as (Hc1 & Hh1 & Hf1 & H1).
    + destruct H1 as ((ev & Hev & Htr1) & (extra1 & ->) & Hne1).
      intros E. apply IH in E as (Hc & Hh & Hf & ext & Htr & Her & Han & Hr).
      rewrite Hc1 in *. rewrite Hc, Hh, Hf, Hh1, Hf1.
      repeat split.
      exists (ev :: ext). rewrite Htr, Htr1, <- app_assoc.
      split; [reflexivity|]. split.
      { change (ev :: ext) with ([ev] ++ ext).
        rewrite epochs_run_app, Her, (step_event_epochs_run _ _ _ _ Hev).
        reflexivity. }
      split.
      { change (ev :: ext) with ([ev] ++ ext).
        apply annealed_app; [eapply annealed_step_event; eauto | exact Han]. }
      destruct r as [logs'|ex]; [|exact I].
      destruct Hr as (HF & (extra & ->) & Hne).
      split; [constructor; assumption|]. split.
      { exists (extra1 ++ extra). now rewrite app_assoc. }
      intros (s0 & [<-|Hin] & Hm).
      * specialize (Hne1 Hm). intros Habs.
        apply app_eq_nil in Habs as [Habs _]. contradiction.
      * apply Hne. eauto.
    + intros E. injection E as <- <-. repeat split; try assumption.
      destruct H1 as [Htr1|(ev & Hev & Htr1)].
      * exists []. rewrite app_nil_r. repeat split; [assumption|].
        apply annealed_nil.
      * exists [ev]. repeat split; [assumption | |].
        -- eapply step_event_epochs_run; eauto.
        -- eapply annealed_step_event; eauto.
Qed.

Lemma Forall2_In_left {A B} (R : A -> B -> Prop) (l : list A) (l' : list B) (a : A) :
  Forall2 R l l' -> In a l -> exists b, In b l' /\ R a b.
Proof.
  induction 1 as [|x y l l' Hxy _ IH]; intros Hin; [destruct Hin|].
  destruct Hin as [<-|Hin].
  - exists y. split; [now left | assumption].
  - destruct (IH Hin) as (b & Hb & HR). exists b. split; [now right | assumption].
Qed.

Lemma hist_lengths_append_means (h : histories) (m : step_log) :
  hist_lengths (append_means h m) = map S (hist_lengths h).
Proof.
  unfold hist_lengths, append_means. cbn.
  rewrite !length_app. cbn. repeat f_equal; lia.
Qed.

(** one pass of the epoch loop: it enters epoch [e], runs the steps of the
    epoch and, when nothing raises, each step of [range(step_per_epoch)]
    once, and adds one entry to every history *)
Lemma epoch_body_spec (spe e : Z) (w w' : world) (r : result unit) :
  epoch_body train_step sample_images spe e tt w = (r, w') ->
  cfg (self w') = cfg (self w)
  /\ exists ext,
       trace w' = trace w ++ EvEpoch e :: ext
       /\ epochs_run ext = []
       /\ annealed (cfg (self w)) ext
       /\ match r with
          | Ok _ =>
              (forall s, In s (range 0 spe) ->
                 exists ev, In ev ext /\ step_event (cfg (self w)) e s ev)
              /\ hist_lengths (hist (self w'))
                 = map S (hist_lengths (hist (self w)))
          | Raise _ => True
          end.
Proof.
  unfold epoch_body.
  unfold mbind' at 1. unfold emit at 1. cbn [fst snd].
  set (w0 := {| self := self w; files := files w;
                trace := trace w ++ [EvEpoch e] |}).
  unfold mbind' at 1.
  destruct (for_each (range 0 spe) [] (step_body train_step e) w0)
    as [[logs|ex] w1] eqn:E1;
    apply steps_loop_spec in E1
      as (Hc1 & Hh1 & Hf1 & ext1 & Htr1 & Her1 & Han1 & Hr1);
    subst w0; cbn [self files trace] in *.
  2:{ intros E. injection E as <- <-. split; [assumption|].
      exists ext1. rewrite Htr1, <- app_assoc.
      split; [reflexivity | repeat split; assumption]. }
  destruct Hr1 as (HF & _ & _).
  unfold mbind', lift, get_self, set_self, get_files, set_files, emit, ret.
  destruct (epoch_means logs) as [means|ex].
  2:{ intros E. injection E as <- <-. split; [assumption|].
      exists ext1. rewrite Htr1, <- app_assoc.
      split; [reflexivity | repeat split; assumption]. }
  cbn [self files trace cfg nets hist].
  destruct (scalars_at _ e) as [sc|ex].
  2:{ intros E. injection E as <- <-. cbn. split; [assumption|].
      exists ext1. rewrite Htr1, <- app_assoc.
      split; [reflexivity | repeat split; assumption]. }
  cbn [self files trace cfg nets hist].
  assert (Hother : forall tail,
            (forall ev, In ev tail ->
               (forall e0 s0 sg0, ev <> EvStep e0 s0 sg0)
               /\ (forall e0, ev <> EvEpoch e0)) ->
            epochs_run (ext1 ++ tail) = []
            /\ annealed (cfg (self w)) (ext1 ++ tail)).
  { intros tail Ht. split.
    - rewrite epochs_run_app, Her1. simpl.
      induction tail as [|ev tail IHt]; [reflexivity|].
      destruct (Ht ev (or_introl eq_refl)) as [_ Hne].
      destruct ev; try (apply IHt; intros; apply Ht; now right).
      now contradiction (Hne epoch).
    - apply annealed_app; [assumption|].
      intros e0 s0 sg0 Hin. apply Ht in Hin as [Hns _].
      now contradiction (Hns e0 s0 sg0). }
  assert (Hsteps : forall tail s, In s (range 0 spe) ->
            exists ev, In ev (ext1 ++ tail) /\ step_event (cfg (self w)) e s ev).
  { intros tail s Hs.
    destruct (Forall2_In_left _ _ _ _ HF Hs) as (ev & Hin & Hev).
    exists ev. split; [apply in_or_app; now left | assumption]. }
  unfold pymod. rewrite Hc1.
  destruct (Z.eqb (save_epoch (cfg (self w))) 0).
  { intros E. injection E as <- <-. cbn. split; [first [assumption | reflexivity]|].
    exists (ext1 ++ [EvScalars e sc; EvSample e]).
    rewrite Htr1, <- !app_assoc. split; [reflexivity|].
    destruct (Hother [EvScalars e sc; EvSample e]) as [H1 H2].
    { intros ev [<-|[<-|[]]]; split; intros; discriminate. }
    repeat split; assumption. }
  destruct (Z.eqb _ 0); intros E; injection E as <- <-; cbn.
  - split; [first [assumption | reflexivity]|].
    exists (ext1 ++ [EvScalars e sc; EvSample e; EvSave e]).
    rewrite Htr1, <- !app_assoc. split; [reflexivity|].
    destruct (Hother [EvScalars e sc; EvSample e; EvSave e]) as [H1 H2].
    { intros ev [<-|[<-|[<-|[]]]]; split; intros; discriminate. }
    repeat split; try assumption.
    + apply Hsteps.
    + rewrite hist_lengths_append_means, Hh1. reflexivity.
  - split; [first [assumption | reflexivity]|].
    exists (ext1 ++ [EvScalars e sc; EvSample e]).
    rewrite Htr1, <- !app_assoc. split; [reflexivity|].
    destruct (Hother [EvScalars e sc; EvSample e]) as [H1 H2].
    { intros ev [<-|[<-|[]]]; split; intros; discriminate. }
    repeat split; try assumption.
    + apply Hsteps.
    + rewrite hist_lengths_append_means, Hh1. reflexivity.
Qed.

Lemma annealed_cons_epoch (c : configs) (e : Z) (tr : list event) :
  annealed c tr -> annealed c (EvEpoch e :: tr).
Proof.
  intros H. change (EvEpoch e :: tr) with ([EvEpoch e] ++ tr).
  apply annealed_app; [|exact H].
  apply annealed_other. intros; discriminate.
Qed.

(** the epoch loop over any list of epochs: the epochs entered are an
    initial part of the list, and the whole list when nothing raises *)
Lemma epochs_loop_spec (spe : Z) (l : list Z) :
  forall (w w' : world) (r : result unit),
  for_each l tt (epoch_body train_step sample_images spe) w = (r, w') ->
  cfg (self w') = cfg (self w)
  /\ exists ext l1 l2,
       trace w' = trace w ++ ext
       /\ l = l1 ++ l2
       /\ epochs_run ext = l1
       /\ annealed (cfg (self w)) ext
       /\ match r with
          | Ok _ =>
              l2 = []
              /\ (forall e s, In e l -> In s (range 0 spe) ->
                    exists ev, In ev ext /\ step_event (cfg (self w)) e s ev)
              /\ hist_lengths (hist (self w'))
                 = map (Nat.add (length l)) (hist_lengths (hist (self w)))
          | Raise _ => True
          end.
Proof.
  induction l as [|e l IH]; intros w w' r; cbn [for_each].
  - unfold ret. intros E. injection E as <- <-. split; [reflexivity|].
    exists [], [], []. rewrite app_nil_r.
    split; [reflexivity|]. split; [reflexivity|]. split; [reflexivity|].
    split; [apply annealed_nil|]. split; [reflexivity|].
    split; [intros e s []|]. cbn [length]. symmetry. apply map_id.
  - unfold mbind'.
    destruct (epoch_body train_step sample_images spe e tt w) as [[u|ex] w1] eqn:E1;
      apply epoch_body_spec in E1 as (Hc1 & ext1 & Htr1 & Her1 & Han1 & Hr1).
    + destruct Hr1 as (Hst1 & Hlen1). destruct u.
      intros E.
      apply IH in E as (Hc & ext2 & l1 & l2 & Htr & Hl & Her & Han & Hr).
      rewrite Hc1 in *. split; [exact Hc|].
      exists (EvEpoch e :: ext1 ++ ext2), (e :: l1), l2.
      rewrite Htr, Htr1, <- app_assoc. split; [reflexivity|].
      split; [now rewrite Hl|]. split.
      { cbn [epochs_run]. now rewrite epochs_run_app, Her1, Her. }
      split.
      { apply annealed_cons_epoch, annealed_app; assumption. }
      destruct r as [u'|ex]; [|exact I].
      destruct Hr as (-> & Hst & Hlen). split; [reflexivity|]. split.
      * intros e0 s [<-|Hin] Hs.
        -- destruct (Hst1 s Hs) as (ev & Hev & Hse).
           exists ev. split; [|exact Hse].
           right. apply in_or_app. now left.
        -- destruct (Hst e0 s Hin Hs) as (ev & Hev & Hse).
           exists ev. split; [|exact Hse].
           right. apply in_or_app. now right.
      * rewrite Hlen, Hlen1, map_map. apply map_ext. intros n. cbn. lia.
    + intros E. injection E as <- <-. split; [exact Hc1|].
      exists (EvEpoch e :: ext1), [e], l.
      rewrite Htr1. split; [reflexivity|]. split; [reflexivity|]. split.
      { cbn [epochs_run]. now rewrite Her1. }
      split; [|exact I]. now apply annealed_cons_epoch.
Qed.

(** *** Runs on which nothing raises *)

Lemma inst_noise_sigma_curr_defined (sigma : Q) (iters step : Z) :
  iters <> 0%Z -> exists q, inst_noise_sigma_curr sigma iters step = Ok q.
Proof.
  intros Hi. unfold inst_noise_sigma_curr, truediv.
  destruct (Z.ltb iters step); [eauto|].
  destruct (Z.eqb_spec iters 0); [contradiction|]. cbn. eauto.
Qed.

(** a step returns when its noise level can be computed, the training step
    returns and, if it is a logging step, the losses it reads are bound *)
Lemma step_body_ok (e s : Z) (logs : list step_log) (w : world) :
  (((s + 1) mod log_step (cfg (self w)))%Z = 0%Z ->
   (1 <= d_iters (cfg (self w)))%Z /\ (1 <= g_iters (cfg (self w)))%Z) ->
  inst_noise_sigma_iters (cfg (self w)) <> 0%Z ->
  log_step (cfg (self w)) <> 0%Z ->
  (forall c e s sg n, exists r, train_step c e s sg n = Ok r) ->
  exists logs' w', step_body train_step e s logs w = (Ok logs', w').
Proof.
  intros Hdg Hi Hl Htot.
  unfold step_body, mbind', get_self, lift, emit, set_self, ret, pymod.
  destruct (inst_noise_sigma_curr_defined
              (inst_noise_sigma (cfg (self w))) _ s Hi) as [sg ->].
  cbn [self files trace].
  destruct (Htot (cfg (self w)) e s sg (nets (self w))) as [[n' lg] ->].
  cbn [self files trace cfg nets hist fst snd].
  destruct (Z.eqb_spec (log_step (cfg (self w))) 0); [contradiction|].
  destruct (Z.eqb_spec ((s + 1) mod log_step (cfg (self w))) 0) as [Em|_];
    [|eauto].
  destruct (Hdg Em) as [Hd Hg].
  destruct (Z.leb_spec (d_iters (cfg (self w))) 0); [lia|].
  destruct (Z.leb_spec (g_iters (cfg (self w))) 0); [lia|].
  eauto.
Qed.

Lemma steps_loop_ok (e : Z) (l : list Z) :
  forall (logs : list step_log) (w : world),
  (forall s, In s l -> ((s + 1) mod log_step (cfg (self w)))%Z = 0%Z ->
     (1 <= d_iters (cfg (self w)))%Z /\ (1 <= g_iters (cfg (self w)))%Z) ->
  inst_noise_sigma_iters (cfg (self w)) <> 0%Z ->
  log_step (cfg (self w)) <> 0%Z ->
  (forall c e s sg n, exists r, train_step c e s sg n = Ok r) ->
  exists logs' w',
    for_each l logs (step_body train_step e) w = (Ok logs', w').
Proof.
  induction l as [|s l IH]; intros logs w Hdg Hi Hl Htot; cbn [for_each].
  - unfold ret. eauto.
  - unfold mbind'.
    destruct (step_body_ok e s logs w (Hdg s (or_introl eq_refl)) Hi Hl Htot)
      as (logs1 & w1 & E1).
    rewrite E1. apply step_body_spec in E1 as (Hc1 & _).
    apply IH; try (now rewrite Hc1); [|exact Htot].
    intros s' Hs'. rewrite Hc1. apply Hdg. now right.
Qed.

Lemma epoch_means_ok (logs : list step_log) :
  logs <> [] -> exists m, epoch_means logs = Ok m.
Proof. destruct logs; [contradiction|]. intros _. cbn. eauto. Qed.

Lemma list_item_ok (l : list Q) (i : Z) :
  (0 <= i < Z.of_nat (length l))%Z -> exists q, list_item l i = Ok q.
Proof.
  intros [H0 H1]. unfold list_item.
  destruct (Z.leb_spec 0 i); [|lia].
  destruct (Z.ltb_spec i (Z.of_nat (length l))); [|lia].
  cbn. eauto.
Qed.

Lemma scalars_at_ok (h : histories) (e : Z) :
  (0 <= e)%Z ->
  Forall (fun n => (e < Z.of_nat n)%Z) (hist_lengths h) ->
  exists sc, scalars_at h e = Ok sc.
Proof.
  intros He H. unfold hist_lengths in H.
  rewrite !Forall_cons in H.
  destruct H as (H1 & H2 & H3 & H4 & H5 & H6 & H7 & H8 & _).
  unfold scalars_at.
  destruct (list_item_ok (ave_d_losses h) e) as [? ->]; [lia|].
  destruct (list_item_ok (ave_d_losses_real h) e) as [? ->]; [lia|].
  destruct (list_item_ok (ave_d_losses_fake h) e) as [? ->]; [lia|].
  destruct (list_item_ok (ave_g_losses h) e) as [? ->]; [lia|].
  destruct (list_item_ok (ave_g_gamma1 h) e) as [? ->]; [lia|].
  destruct (list_item_ok (ave_g_gamma2 h) e) as [? ->]; [lia|].
  destruct (list_item_ok (ave_d_gamma1 h) e) as [? ->]; [lia|].
  destruct (list_item_ok (ave_d_gamma2 h) e) as [? ->]; [lia|].
  cbn. eauto.
Qed.

Lemma in_range (a b x : Z) : In x (range a b) <-> (a <= x < b)%Z.
Proof.
  unfold range. rewrite in_map_iff. split.
  - intros (i & <- & Hi). apply in_seq in Hi. lia.
  - intros H. exists (Z.to_nat (x - a)). split; [lia|].
    apply in_seq. lia.
Qed.

Lemma epoch_body_ok (e : Z) (w : world) :
  (1 <= d_iters (cfg (self w)))%Z ->
  (1 <= g_iters (cfg (self w)))%Z ->
  inst_noise_sigma_iters (cfg (self w)) <> 0%Z ->
  (0 < log_step (cfg (self w)) <= Z.of_nat (dataloader_len (cfg (self w))))%Z ->
  save_epoch (cfg (self w)) <> 0%Z ->
  (forall c e s sg n, exists r, train_step c e s sg n = Ok r) ->
  (0 <= e)%Z ->
  Forall (fun n => (e <= Z.of_nat n)%Z) (hist_lengths (hist (self w))) ->
  exists w',
    epoch_body train_step sample_images (Z.of_nat (dataloader_len (cfg (self w)))) e tt w
    = (Ok tt, w').
Proof.
  intros Hd Hg Hi Hl Hs Htot He Hh.
  unfold epoch_body.
  unfold mbind' at 1. unfold emit at 1. cbn [fst snd].
  set (w0 := {| self := self w; files := files w;
                trace := trace w ++ [EvEpoch e] |}).
  unfold mbind' at 1.
  destruct (steps_loop_ok e (range 0 (Z.of_nat (dataloader_len (cfg (self w)))))
              [] w0) as (logs & w1 & E1);
    [intros; split; assumption | exact Hi | subst w0; cbn; lia | exact Htot |].
  rewrite E1.
  apply steps_loop_spec in E1
    as (Hc1 & Hh1 & Hf1 & ext1 & Htr1 & _ & _ & _ & _ & Hne).
  subst w0. cbn [self files trace] in *.
  assert (Hlogs : logs <> []).
  { apply Hne. exists (log_step (cfg (self w)) - 1)%Z. split.
    - apply in_range. lia.
    - replace (log_step (cfg (self w)) - 1 + 1)%Z
        with (log_step (cfg (self w))) by lia.
      apply Z.mod_same. lia. }
  unfold mbind', lift, get_self, set_self, get_files, set_files, emit, ret.
  destruct (epoch_means_ok logs Hlogs) as [means ->].
  cbn [self files trace cfg nets hist].
  destruct (scalars_at_ok (append_means (hist (self w1)) means) e He)
    as [sc ->].
  { rewrite hist_lengths_append_means, Hh1, Forall_map.
    eapply Forall_impl; [exact Hh|]. intros n Hn. cbn beta in Hn. lia. }
  cbn [self files trace cfg nets hist].
  unfold pymod. rewrite Hc1.
  destruct (Z.eqb_spec (save_epoch (cfg (self w))) 0); [contradiction|].
  destruct (Z.eqb _ 0); eauto.
Qed.

Lemma range_cons (a b : Z) : (a < b)%Z -> range a b = a :: range (a + 1) b.
Proof.
  intros H. unfold range.
  replace (Z.to_nat (b - a)) with (S (Z.to_nat (b - (a + 1)))) by lia.
  cbn [seq map]. f_equal; [lia|].
  rewrite <- seq_shift, map_map. apply map_ext. intros i. lia.
Qed.

Lemma range_nil (a b : Z) : (b <= a)%Z -> range a b = [].
Proof.
  intros H. unfold range. replace (Z.to_nat (b - a)) with 0%nat by lia.
  reflexivity.
Qed.

Lemma length_range (a b : Z) : length (range a b) = Z.to_nat (b - a).
Proof. unfold range. now rewrite length_map, length_seq. Qed.

Lemma epochs_loop_ok (b : Z) (n : nat) :
  forall (a : Z) (w : world),
  n = Z.to_nat (b - a) ->
  (1 <= d_iters (cfg (self w)))%Z ->
  (1 <= g_iters (cfg (self w)))%Z ->
  inst_noise_sigma_iters (cfg (self w)) <> 0%Z ->
  (0 < log_step (cfg (self w)) <= Z.of_nat (dataloader_len (cfg (self w))))%Z ->
  save_epoch (cfg (self w)) <> 0%Z ->
  (forall c e s sg n, exists r, train_step c e s sg n = Ok r) ->
  (0 <= a)%Z ->
  Forall (fun n => (a <= Z.of_nat n)%Z) (hist_lengths (hist (self w))) ->
  exists w',
    for_each (range a b) tt
      (epoch_body train_step sample_images (Z.of_nat (dataloader_len (cfg (self w))))) w
    = (Ok tt, w').
Proof.
  induction n as [|n IH]; intros a w Hn Hd Hg Hi Hl Hs Htot Ha Hh.
  - rewrite range_nil by lia. cbn. unfold ret. eauto.
  - rewrite range_cons by lia. cbn [for_each]. unfold mbind'.
    destruct (epoch_body_ok a w Hd Hg Hi Hl Hs Htot Ha Hh) as [w1 E1].
    rewrite E1.
    apply epoch_body_spec in E1 as (Hc1 & ext & _ & _ & _ & _ & Hlen).
    rewrite <- Hc1. apply IH; rewrite ?Hc1; try assumption; try lia.
    rewrite Hlen, Forall_map.
    eapply Forall_impl; [exact Hh|]. intros m Hm. cbn beta in Hm. lia.
Qed.

Lemma start_epoch_eq (c : configs) :
  start_epoch c = match pretrained_model c with Some p => p | None => 0%Z end.
Proof.
  unfold start_epoch, truthy. destruct (pretrained_model c) as [p|]; [|reflexivity].
  destruct (Z.eqb_spec p 0) as [->|_]; reflexivity.
Qed.

Lemma train_unfold (w : world) (epochs : Z) :
  epochs_of (cfg (self w)) = Ok epochs ->
  train train_step sample_images w
  = for_each (range (start_epoch (cfg (self w))) epochs) tt
      (epoch_body train_step sample_images (Z.of_nat (dataloader_len (cfg (self w))))) w.
Proof.
  intros E. unfold train, mbind', get_self, lift. now rewrite E.
Qed.
End TrainFacts.

(** C8 (as amended).  The loop visits the epoch indices from [start_epoch]
    (the epoch to resume from, 0 on a fresh run) up to
    [epochs = int(total_steps / step_per_epoch)], never any other: the
    epochs entered are always an initial part of that range, and the whole
    range whenever the run ends without an exception, whatever the training
    steps compute.  So a run that does not raise takes
    [max(0, epochs - start_epoch)] epochs, which is [epochs] on a fresh
    run; and on a runnable session (every step passes at least once through
    the discriminator and the generator loop) with total training steps
    nothing raises.  [epochs] is the integer quotient of [total_steps] by
    the batches per epoch as long as [total_steps] has less than 54 bits;
    beyond, the division is one of doubles. *)
Theorem train_runs_remaining_epochs
    (train_step : configs -> Z -> Z -> Q -> networks -> result (networks * step_log))
    (sample_images : networks -> tensor float)
    (w : world) (epochs : Z) :
  trace w = [] ->
  epochs_of (cfg (self w)) = Ok epochs ->
  let c := cfg (self w) in
  let r := train train_step sample_images w in
  ((Z.abs (total_steps c) < 2 ^ 53)%Z ->
   epochs = Z.quot (total_steps c) (Z.of_nat (dataloader_len c)))
  /\ (exists rest,
        range (start_epoch c) epochs = epochs_run (trace (snd r)) ++ rest)
  /\ (fst r = Ok tt ->
      epochs_run (trace (snd r)) = range (start_epoch c) epochs
      /\ length (epochs_run (trace (snd r)))
         = Z.to_nat (epochs - start_epoch c)
      /\ (pretrained_model c = None ->
          length (epochs_run (trace (snd r))) = Z.to_nat epochs))
  /\ (runnable (self w) ->
      (forall c e s sg n, exists x, train_step c e s sg n = Ok x) ->
      fst r = Ok tt).
Proof.
  intros Htr He c r. subst c r.
  destruct (epochs_of_inv _ _ He) as [Hlen Hq].
  split; [exact Hq|].
  rewrite (train_unfold train_step sample_images w epochs He).
  destruct (for_each _ tt _ w) as [res w'] eqn:E.
  pose proof E as E'.
  apply epochs_loop_spec in E' as (Hc & ext & l1 & l2 & Ht & Hl & Her & _ & Hr).
  cbn [fst snd]. rewrite Ht, Htr. cbn [app]. rewrite Her.
  split; [exists l2; exact Hl|]. split.
  - intros ->. destruct Hr as (-> & _). rewrite app_nil_r in Hl. subst l1.
    split; [reflexivity|]. split; [apply length_range|].
    intros Hpm. rewrite length_range, start_epoch_eq, Hpm. f_equal. lia.
  - intros Hrun Htot.
    destruct Hrun as [Hb Hdi Hgi Hi Hls Hs Hst Hh].
    destruct (epochs_loop_ok train_step sample_images epochs
                (Z.to_nat (epochs - start_epoch (cfg (self w))))
                (start_epoch (cfg (self w))) w eq_refl Hdi Hgi Hi Hls Hs Htot)
      as [w'' E''].
    + rewrite start_epoch_eq.
      destruct (pretrained_model (cfg (self w))); [exact Hst | lia].
    + rewrite start_epoch_eq. exact Hh.
    + rewrite E'' in E. now injection E as <- _.
Qed.

Lemma train_runs_remaining_epochs_witness :
  (trace ex_world = [] /\ epochs_of (cfg (self ex_world)) = Ok 2%Z)
  /\ fst (train ex_train_step ex_sample_images ex_world) = Ok tt
  /\ epochs_run (trace (snd (train ex_train_step ex_sample_images ex_world))) = [0; 1]%Z.
Proof.
  split; [split; reflexivity|].
  destruct (train_runs_remaining_epochs ex_train_step ex_sample_images ex_world 2
              eq_refl eq_refl) as (_ & _ & Hall & Hok).
  assert (Hfst : fst (train ex_train_step ex_sample_images ex_world) = Ok tt).
  { apply Hok.
    - constructor.
      + change (0 < 3). lia.
      + change (1 <= 1)%Z. lia.
      + change (1 <= 1)%Z. lia.
      + change (2%Z <> 0%Z). discriminate.
      + change (0 < 2 <= Z.of_nat 3)%Z. lia.
      + change (2%Z <> 0%Z). discriminate.
      + exact I.
      + change (Forall (fun n => (0 <= Z.of_nat n)%Z) (repeat 0%nat 8)).
        apply Forall_forall. intros n _. lia.
    - intros c e s sg n. eexists. reflexivity. }
  split; [exact Hfst|].
  destruct (Hall Hfst) as (Hrun & _). exact Hrun.
Defined.

(** C8, as the specification words it, fails on the code.  With 7 total
    steps and 3 batches per epoch, [total_steps / steps_per_epoch] gives 2
    epochs; a run resumed from the checkpoint of epoch 1 ends normally
    after one epoch, the epoch of index 1. *)
Lemma train_resumed_runs_fewer_epochs :
  epochs_of (cfg (self ex_world_resumed)) = Ok 2%Z
  /\ fst (train ex_train_step ex_sample_images ex_world_resumed) = Ok tt
  /\ epochs_run (trace (snd (train ex_train_step ex_sample_images ex_world_resumed))) = [1%Z]
  /\ length (epochs_run (trace (snd (train ex_train_step ex_sample_images ex_world_resumed))))
     <> Z.to_nat 2.
Proof.
  split; [reflexivity|]. split; [vm_compute; reflexivity|].
  assert (E : epochs_run (trace (snd (train ex_train_step ex_sample_images ex_world_resumed)))
              = [1%Z]) by (vm_compute; reflexivity).
  split; [exact E|]. rewrite E. cbn. lia.
Qed.



(** ** A run, its checkpoint, and the session resumed from it *)

(** The example run saves after its second epoch; a session built with
    [pretrained_model = 2] starts from the histories of that run. *)
Lemma train_then_resume :
  exists resumed,
    SAGAN_init (ex_configs (Some 2%Z)) ex_fresh_networks
      (files (snd (train ex_train_step ex_sample_images ex_world))) = Ok resumed
    /\ hist resumed = hist (self (snd (train ex_train_step ex_sample_images ex_world)))
    /\ start_epoch (cfg resumed) = 2%Z.
Proof.
  eexists. split; [vm_compute; reflexivity|]. split; vm_compute; reflexivity.
Qed.

(* ===================================================================== *)
(** * Further properties of the code *)
(* ===================================================================== *)

(** ** Annealing: where it raises, and the range of its values *)

(** The annealing formula raises exactly when the decay horizon is 0 and the
    step index is not positive, and then it is [ZeroDivisionError]; beyond a
    horizon that is not positive, that is at every later step, the noise is
    off. *)
Theorem inst_noise_sigma_curr_raises_iff (sigma : Q) (iters step : Z) :
  (forall e, inst_noise_sigma_curr sigma iters step = Raise e ->
     e = ZeroDivisionError /\ iters = 0%Z /\ (step <= 0)%Z)
  /\ (iters = 0%Z -> (step <= 0)%Z ->
      inst_noise_sigma_curr sigma iters step = Raise ZeroDivisionError)
  /\ ((iters <= 0)%Z -> (0 < step)%Z ->
      inst_noise_sigma_curr sigma iters step = Ok 0%Q).
Proof.
  unfold inst_noise_sigma_curr, truediv. split; [|split].
  - intros e. destruct (Z.ltb_spec iters step) as [L|L]; [discriminate|].
    destruct (Z.eqb_spec iters 0) as [E|N]; cbn; [|discriminate].
    intros H. injection H as <-. repeat split; [exact E | lia].
  - intros -> Hs. destruct (Z.ltb_spec 0 step) as [L|L]; [lia|]. reflexivity.
  - intros Hi Hs. destruct (Z.ltb_spec iters step) as [L|L]; [reflexivity | lia].
Qed.

Lemma inst_noise_sigma_curr_raises_iff_witness :
  inst_noise_sigma_curr (1 # 10) 0 0 = Raise ZeroDivisionError
  /\ inst_noise_sigma_curr (1 # 10) 0 1 = Ok 0%Q
  /\ inst_noise_sigma_curr (1 # 10) (-3) 1 = Ok 0%Q.
Proof.
  destruct (inst_noise_sigma_curr_raises_iff (1 # 10) 0 0) as (_ & H0 & _).
  destruct (inst_noise_sigma_curr_raises_iff (1 # 10) 0 1) as (_ & _ & H1).
  destruct (inst_noise_sigma_curr_raises_iff (1 # 10) (-3) 1) as (_ & _ & H2).
  split; [apply H0; [reflexivity | lia]|].
  split; [apply H1; lia | apply H2; lia].
Defined.

(** With a positive horizon and [sigma >= 0], the annealed value at every
    step index of an epoch lies between 0 and [sigma]: it is always a
    standard deviation that [torch.normal] accepts, never above the
    configured one. *)
Theorem inst_noise_sigma_curr_range (sigma : Q) (iters step : Z) :
  (0 < iters)%Z -> (0 <= sigma)%Q -> (0 <= step)%Z ->
  exists q,
    inst_noise_sigma_curr sigma iters step = Ok q /\ (0 <= q <= sigma)%Q.
Proof.
  intros Hi Hs Hstep.
  destruct (inst_noise_sigma_curr_total sigma iters step Hi) as [q E].
  exists q. split; [exact E|]. split.
  - eapply inst_noise_sigma_curr_nonneg; eassumption.
  - destruct (Z_lt_le_dec iters step) as [L|L].
    + rewrite inst_noise_sigma_curr_beyond in E by assumption.
      injection E as <-. exact Hs.
    + rewrite inst_noise_sigma_curr_inside in E by assumption.
      injection E as <-.
      pose proof (anneal_factor_nonneg iters step Hi L) as H0.
      pose proof (Qdiv_inject_le 0 step iters Hi Hstep) as H1.
      assert (H2 : (inject_Z 0 / inject_Z iters == 0)%Q)
        by (change (inject_Z 0) with 0%Q; unfold Qdiv; ring).
      rewrite H2 in H1.
      assert (H3 : ((1 - inject_Z step / inject_Z iters) * sigma
                    <= 1 * sigma)%Q).
      { apply Qmult_le_compat_r; [lra | exact Hs]. }
      lra.
Qed.

Lemma inst_noise_sigma_curr_range_witness :
  exists q, inst_noise_sigma_curr (1 # 10) 4 3 = Ok q /\ (0 <= q <= 1 # 10)%Q.
Proof.
  apply (inst_noise_sigma_curr_range (1 # 10) 4 3); [lia | lra | lia].
Defined.

(** ** Loss functions, one against the other *)

Lemma Qsum_ext_in (F G : Q -> Q) (l : list Q) :
  (forall x, In x l -> F x == G x)%Q -> (Qsum (map F l) == Qsum (map G l))%Q.
Proof.
  intros H. induction l as [|x l IH]; simpl; [reflexivity|].
  rewrite (H x) by (now left).
  rewrite IH; [reflexivity|]. intros y Hy. apply H. now right.
Qed.

(** [loss_hinge_dis_fake] is the mean of [relu(1 + d_fake)]: on a non-empty
    tensor the number [sum(max(0, 1 + x)) / n]; whenever it is a number it
    is non-negative, and it is 0 when every element is at most -1. *)
Theorem loss_hinge_dis_fake_spec (d_fake : tensor Q) :
  (data d_fake <> [] ->
   loss_hinge_dis_fake d_fake
   = Some (Qsum (map (fun x => Qmax 0 (1 + x)) (data d_fake))
           / inject_Z (Z.of_nat (length (data d_fake))))%Q)
  /\ (data d_fake = [] -> loss_hinge_dis_fake d_fake = None)
  /\ (forall v, loss_hinge_dis_fake d_fake = Some v ->
        (0 <= v)%Q
        /\ (Forall (fun x => x <= - (1))%Q (data d_fake) -> (v == 0)%Q)).
Proof.
  assert (Hdef : loss_hinge_dis_fake d_fake
                 = mean (Tensor (shape d_fake)
                           (map (fun x => Qmax 0 (1 + x)) (data d_fake)))).
  { unfold loss_hinge_dis_fake, map_tensor. cbn [shape data].
    now rewrite map_map. }
  split; [|split].
  - intros Hne. rewrite Hdef, mean_nonempty; cbn [data].
    + now rewrite length_map.
    + destruct (data d_fake); [contradiction | discriminate].
  - intros E. rewrite Hdef. unfold mean. cbn [data]. now rewrite E.
  - intros v Hv. rewrite Hdef in Hv.
    apply mean_Some_inv in Hv as [Hne ->]. cbn [data] in *.
    pose proof (Qlength_pos _ Hne) as Hpos.
    split.
    + apply Qle_shift_div_l; [exact Hpos|]. rewrite Qmult_0_l.
      apply Qsum_nonneg, Forall_map, Forall_forall.
      intros x _. apply Q.le_max_l.
    + intros Hall.
      assert (Hz : (Qsum (map (fun x => Qmax 0 (1 + x)) (data d_fake)) == 0)%Q).
      { apply Qsum_zero, Forall_map.
        eapply Forall_impl; [exact Hall|].
        intros x Hx. cbn beta in *. apply Q.max_l. lra. }
      rewrite Hz. unfold Qdiv. ring.
Qed.

Lemma loss_hinge_dis_fake_spec_witness :
  exists v, loss_hinge_dis_fake ex_scores_fake = Some v /\ (0 <= v)%Q.
Proof.
  destruct (loss_hinge_dis_fake_spec ex_scores_fake) as (Hn & _ & Hv).
  eexists. split; [apply Hn; discriminate|].
  apply Hv. apply Hn. discriminate.
Defined.

(** means of elementwise equal tensors *)
Lemma mean_map_tensor_ext (F G : Q -> Q) (t : tensor Q) :
  (forall x, F x == G x)%Q ->
  same_loss (mean (map_tensor F t)) (mean (map_tensor G t)).
Proof.
  intros H. unfold mean, map_tensor. cbn [data].
  destruct (data t) as [|x l]; [exact I|].
  cbn [map]. unfold same_loss.
  apply Qdiv_comp.
  - apply (Qsum_ext_in F G (x :: l)). intros y _. apply H.
  - cbn [length]. now rewrite !length_map.
Qed.

(** The fake hinge loss of a tensor of scores is the real hinge loss of the
    negated scores (the same number, or not a number together). *)
Theorem loss_hinge_dis_fake_negated (d : tensor Q) :
  same_loss (loss_hinge_dis_fake d)
            (loss_hinge_dis_real (map_tensor Qopp d)).
Proof.
  unfold loss_hinge_dis_fake, loss_hinge_dis_real, map_tensor.
  cbn [shape data]. rewrite !map_map.
  apply (mean_map_tensor_ext (fun x => relu (1 + x))%Q
                             (fun x => relu (1 - - x))%Q d).
  intros x. unfold relu. apply Q.max_compat; [reflexivity | ring].
Qed.

(** ** [denorm] keeps the order *)

Lemma denorm_monotone_element (a b : float) :
  fle a b = true ->
  fle (clamp 0 1 (fdiv (fadd a (Fin 1)) (Fin 2)))
      (clamp 0 1 (fdiv (fadd b (Fin 1)) (Fin 2))) = true.
Proof.
  intros H.
  pose proof (denorm_element a) as Ha. pose proof (denorm_element b) as Hb.
  destruct a as [p|[|]|], b as [q|[|]|]; try discriminate H.
  - (* two numbers *)
    destruct Ha as (r1 & -> & E1). destruct Hb as (r2 & -> & E2).
    cbn [fle] in *. apply Qle_bool_iff in H. apply Qle_bool_iff.
    rewrite E1, E2.
    apply Q.min_le_compat_r, Q.max_le_compat_r.
    unfold Qdiv. apply Qmult_le_compat_r; [lra|].
    apply Qlt_le_weak, Qinv_lt_0_compat. lra.
  - (* a number and [inf] *)
    destruct Ha as (r1 & -> & E1). clear Hb.
    change (Qle_bool r1 1 = true). apply Qle_bool_iff.
    rewrite E1. apply Q.le_min_r.
  - (* [-inf] and a number *)
    destruct Hb as (r2 & -> & E2). clear Ha.
    change (Qle_bool 0 r2 = true). apply Qle_bool_iff.
    rewrite E2. apply Q.min_glb; [apply Q.le_max_r | lra].
  - reflexivity.
  - reflexivity.
  - reflexivity.
Qed.

(** [denorm] keeps the order of the elements: a brighter image, element by
    element, is not darker after [denorm]. *)
Theorem denorm_monotone (x y : tensor float) :
  Forall2 (fun a b => fle a b = true) (data x) (data y) ->
  Forall2 (fun a b => fle a b = true) (data (denorm x)) (data (denorm y)).
Proof.
  rewrite !data_denorm.
  induction 1 as [|v w l l' Hvw _ IH]; cbn [map]; constructor; [|exact IH].
  apply denorm_monotone_element. exact Hvw.
Qed.

Lemma denorm_monotone_witness :
  Forall2 (fun a b => fle a b = true)
          (data (denorm ex_image)) (data (denorm ex_image_brighter)).
Proof.
  apply (denorm_monotone ex_image ex_image_brighter).
  repeat constructor.
Defined.

(** ** Parameter counts *)

(** [parameters] of a self-attention module for [C] channels counts the
    gate, two convolutions C -> C//8, one C -> C//2 and one C//2 -> C with
    their biases, whatever the values of the weights and of the gate; for
    [C = 8*m] that is [80*m*m + 14*m + 1]. *)
Theorem SelfAttn_parameters_count (C : nat) (ws : SelfAttn.init_weights) (gm : float) :
  parameters (SelfAttn_parameters (SelfAttn.with_gamma (SelfAttn.__init__ C ws) gm))
  = 1 + 2 * (C / 8 * C + C / 8) + (C / 2 * C + C / 2) + (C * (C / 2) + C)
  /\ (forall m, C = 8 * m ->
        parameters (SelfAttn_parameters
                      (SelfAttn.with_gamma (SelfAttn.__init__ C ws) gm))
        = 80 * m * m + 14 * m + 1).
Proof.
  assert (E : parameters
                (SelfAttn_parameters
                   (SelfAttn.with_gamma (SelfAttn.__init__ C ws) gm))
              = 1 + 2 * (C / 8 * C + C / 8) + (C / 2 * C + C / 2)
                + (C * (C / 2) + C)).
  { unfold parameters, SelfAttn_parameters, numel. cbn. lia. }
  split; [exact E|].
  intros m ->. rewrite E.
  replace (8 * m / 8) with m by (rewrite Nat.mul_comm, Nat.div_mul; lia).
  replace (8 * m / 2) with (4 * m)
    by (replace (8 * m) with (4 * m * 2) by lia; rewrite Nat.div_mul; lia).
  lia.
Qed.

Lemma SelfAttn_parameters_count_witness :
  parameters (SelfAttn_parameters
                (SelfAttn.with_gamma (SelfAttn.__init__ 16 ex_ws) (Fin (1 # 3))))
  = 349.
Proof.
  apply (proj2 (SelfAttn_parameters_count 16 ex_ws (Fin (1 # 3))) 2). reflexivity.
Defined.

(** ** The gradients of a whole training step *)

Section TrainingStepFacts.
Context {Grad : Type}.
Variable gzero : Grad.
Variable gadd : Grad -> Grad -> Grad.
Variables gR gFD gFG gG gD : nat -> Grad.

Lemma g_loop_d_steps (ks : list nat) (s : grad_state) :
  d_steps (fold_left (g_iteration gzero gadd gG gD) ks s) = d_steps s.
Proof.
  revert s. induction ks as [|k ks IH]; intros s; simpl; [reflexivity|].
  now rewrite IH.
Qed.

(** every sub-iteration of the generator phase starts from zeroed buffers *)
Lemma g_loop_last (n : nat) (s : grad_state) :
  fold_left (g_iteration gzero gadd gG gD) (seq 0 (S n)) s
  = {| D_grad := gadd gzero (gD n);
       G_grad := gadd gzero (gG n);
       d_steps := d_steps s |}.
Proof.
  rewrite seq_S, fold_left_app. cbn [fold_left Nat.add].
  unfold g_iteration, g_loss_backward, reset_grad.
  cbn [D_grad G_grad d_steps]. now rewrite g_loop_d_steps.
Qed.

Lemma d_loop_last_state (n : nat) (s : grad_state) :
  fold_left (d_iteration gzero gadd gR gFD gFG) (seq 0 (S n)) s
  = {| D_grad := gadd (gadd gzero (gR n)) (gFD n);
       G_grad := gadd gzero (gFG n);
       d_steps := d_steps s |}.
Proof.
  destruct (d_loop_last gzero gadd gR gFD gFG n s) as [HD HG].
  cbv zeta in HD, HG.
  pose proof (d_loop_d_steps gzero gadd gR gFD gFG (seq 0 (S n)) s) as Hs.
  destruct (fold_left _ _ s) as [dg gg ds]. cbn in HD, HG, Hs.
  now subst.
Qed.

Lemma loop_none {S} (f : S -> nat -> S) (n : Z) (s : S) :
  (n <= 0)%Z -> fold_left f (seq 0 (Z.to_nat n)) s = s.
Proof. intros H. replace (Z.to_nat n) with 0 by lia. reflexivity. Qed.
End TrainingStepFacts.

(** For every [g_iters >= 1] the generator phase takes exactly one
    optimizer step, on the generator-loss gradient of the last
    sub-iteration only, whatever the buffers held before; it leaves in the
    discriminator's buffers the gradient of that same generator loss, and it
    takes no discriminator step. *)
Theorem generator_phase_steps_on_last_iteration
    {Grad : Type} (gzero : Grad) (gadd : Grad -> Grad -> Grad)
    (gG gD : nat -> Grad) (g_iters : Z) (s : step_grad_state) :
  (forall g, gadd gzero g = g) ->
  (1 <= g_iters)%Z ->
  let last := (Z.to_nat g_iters - 1)%nat in
  let s' := generator_phase gzero gadd gG gD g_iters s in
  g_steps s' = g_steps s ++ [gG last]
  /\ G_grad (buffers s') = gG last
  /\ D_grad (buffers s') = gD last
  /\ d_steps (buffers s') = d_steps (buffers s).
Proof.
  intros Hz Hg last s'. subst s'. unfold generator_phase.
  cbn [buffers g_steps].
  replace (Z.to_nat g_iters) with (S last) by (subst last; lia).
  rewrite g_loop_last. cbn [D_grad G_grad d_steps]. rewrite !Hz.
  repeat split; reflexivity.
Qed.

Lemma generator_phase_steps_on_last_iteration_witness :
  g_steps (generator_phase 0%Z Z.add ex_gG ex_gD 2
             (StepGradState (GradState 7%Z 7%Z []) []))
  = [2000%Z].
Proof.
  apply (generator_phase_steps_on_last_iteration 0%Z Z.add ex_gG ex_gD 2
           (StepGradState (GradState 7%Z 7%Z []) []));
    [intros g; lia | lia].
Defined.

(** In a training step with [d_iters >= 1] and [g_iters >= 1] each
    optimizer steps once and on its own loss only: the discriminator on the
    real and fake hinge gradients of its last sub-iteration, the generator
    on the generator-loss gradient of its last sub-iteration.  Neither step
    depends on what the buffers held when the training step began, and the
    gradients that the fake pass leaves in the generator and the generator
    loss leaves in the discriminator are never stepped on. *)
Theorem training_step_separates_losses
    {Grad : Type} (gzero : Grad) (gadd : Grad -> Grad -> Grad)
    (gR gFD gFG gG gD : nat -> Grad) (d_iters g_iters : Z)
    (s : step_grad_state) :
  (forall g, gadd gzero g = g) ->
  (1 <= d_iters)%Z -> (1 <= g_iters)%Z ->
  let ld := (Z.to_nat d_iters - 1)%nat in
  let lg := (Z.to_nat g_iters - 1)%nat in
  let s' := training_step gzero gadd gR gFD gFG gG gD d_iters g_iters s in
  d_steps (buffers s') = d_steps (buffers s) ++ [gadd (gR ld) (gFD ld)]
  /\ g_steps s' = g_steps s ++ [gG lg].
Proof.
  intros Hz Hd Hg ld lg s'. subst s'.
  unfold training_step, generator_phase, discriminator_phase, d_optimizer_step.
  cbn [buffers g_steps].
  replace (Z.to_nat g_iters) with (S lg) by (subst lg; lia).
  replace (Z.to_nat d_iters) with (S ld) by (subst ld; lia).
  rewrite g_loop_last, d_loop_last_state.
  cbn [D_grad G_grad d_steps]. rewrite !Hz. split; reflexivity.
Qed.

Lemma training_step_separates_losses_witness :
  d_steps (buffers (training_step 0%Z Z.add ex_gR ex_gFD ex_gFG ex_gG ex_gD 2 3
                      (StepGradState (GradState 7%Z 7%Z []) [])))
  = [22%Z]
  /\ g_steps (training_step 0%Z Z.add ex_gR ex_gFD ex_gFG ex_gG ex_gD 2 3
                (StepGradState (GradState 7%Z 7%Z []) []))
     = [3000%Z].
Proof.
  apply (training_step_separates_losses 0%Z Z.add ex_gR ex_gFD ex_gFG ex_gG
           ex_gD 2 3 (StepGradState (GradState 7%Z 7%Z []) []));
    [intros g; lia | lia | lia].
Defined.

(** With [d_iters <= 0] the discriminator loop does not run, yet
    [d_optimizer.step()] is still called: it reads whatever the buffers
    hold.  In the second of two consecutive training steps that is the
    gradient which the generator loss of the first step left in the
    discriminator. *)
Theorem training_step_without_discriminator_iterations
    {Grad : Type} (gzero : Grad) (gadd : Grad -> Grad -> Grad)
    (gR gFD gFG gG1 gD1 gG2 gD2 : nat -> Grad) (d_iters g_iters : Z)
    (s : step_grad_state) :
  (forall g, gadd gzero g = g) ->
  (d_iters <= 0)%Z -> (1 <= g_iters)%Z ->
  let lg := (Z.to_nat g_iters - 1)%nat in
  let s1 := training_step gzero gadd gR gFD gFG gG1 gD1 d_iters g_iters s in
  let s2 := training_step gzero gadd gR gFD gFG gG2 gD2 d_iters g_iters s1 in
  d_steps (buffers s1) = d_steps (buffers s) ++ [D_grad (buffers s)]
  /\ d_steps (buffers s2)
     = d_steps (buffers s) ++ [D_grad (buffers s); gD1 lg].
Proof.
  intros Hz Hd Hg lg s1 s2.
  assert (E1 : d_steps (buffers s1) = d_steps (buffers s) ++ [D_grad (buffers s)]
               /\ D_grad (buffers s1) = gD1 lg).
  { subst s1.
    unfold training_step, generator_phase, discriminator_phase, d_optimizer_step.
    cbn [buffers g_steps].
    replace (Z.to_nat g_iters) with (S lg) by (subst lg; lia).
    rewrite g_loop_last, loop_none by exact Hd.
    cbn [D_grad G_grad d_steps]. rewrite !Hz. split; reflexivity. }
  destruct E1 as [E1 E1'].
  split; [exact E1|].
  subst s2.
  unfold training_step at 1.
  unfold generator_phase, discriminator_phase, d_optimizer_step.
  cbn [buffers g_steps].
  replace (Z.to_nat g_iters) with (S lg) by (subst lg; lia).
  rewrite g_loop_last, loop_none by exact Hd.
  cbn [D_grad G_grad d_steps]. rewrite E1, E1', <- app_assoc. reflexivity.
Qed.

Lemma training_step_without_discriminator_iterations_witness :
  d_steps (buffers
             (training_step 0%Z Z.add ex_gR ex_gFD ex_gFG ex_gG ex_gD 0 1
                (training_step 0%Z Z.add ex_gR ex_gFD ex_gFG ex_gG ex_gD 0 1
                   (StepGradState (GradState 7%Z 7%Z []) []))))
  = [7%Z; 10000%Z].
Proof.
  apply (training_step_without_discriminator_iterations 0%Z Z.add
           ex_gR ex_gFD ex_gFG ex_gG ex_gD ex_gG ex_gD 0 1
           (StepGradState (GradState 7%Z 7%Z []) []));
    [intros g; lia | lia | lia].
Defined.

(** With [g_iters <= 0] and [d_iters >= 1] the generator loop does not
    run, yet [g_optimizer.step()] is still called: it reads the gradient
    that the fake pass of the last discriminator sub-iteration left in the
    generator, the gradient of the discriminator's loss. *)
Theorem training_step_without_generator_iterations
    {Grad : Type} (gzero : Grad) (gadd : Grad -> Grad -> Grad)
    (gR gFD gFG gG gD : nat -> Grad) (d_iters g_iters : Z)
    (s : step_grad_state) :
  (forall g, gadd gzero g = g) ->
  (1 <= d_iters)%Z -> (g_iters <= 0)%Z ->
  let ld := (Z.to_nat d_iters - 1)%nat in
  let s' := training_step gzero gadd gR gFD gFG gG gD d_iters g_iters s in
  g_steps s' = g_steps s ++ [gFG ld]
  /\ d_steps (buffers s') = d_steps (buffers s) ++ [gadd (gR ld) (gFD ld)].
Proof.
  intros Hz Hd Hg ld s'. subst s'.
  unfold training_step, generator_phase, discriminator_phase, d_optimizer_step.
  cbn [buffers g_steps].
  replace (Z.to_nat d_iters) with (S ld) by (subst ld; lia).
  rewrite loop_none by exact Hg.
  rewrite d_loop_last_state. cbn [D_grad G_grad d_steps]. rewrite !Hz.
  split; reflexivity.
Qed.

Lemma training_step_without_generator_iterations_witness :
  g_steps (training_step 0%Z Z.add ex_gR ex_gFD ex_gFG ex_gG ex_gD 2 0
             (StepGradState (GradState 7%Z 7%Z []) []))
  = [200%Z].
Proof.
  apply (training_step_without_generator_iterations 0%Z Z.add
           ex_gR ex_gFD ex_gFG ex_gG ex_gD 2 0
           (StepGradState (GradState 7%Z 7%Z []) []));
    [intros g; lia | lia | lia].
Defined.

(** ** Self attention: where [forward] returns, and how the gate enters *)

Lemma bind_Raise_inv {A B} (r : result A) (k : A -> result B) (e : exn) :
  bind r k = Raise e -> r = Raise e \/ exists a, r = Ok a /\ k a = Raise e.
Proof.
  destruct r as [a|e']; simpl; [eauto|].
  intros E. left. now injection E as ->.
Qed.

Lemma view_Raise (t : tensor float) (dims : list Z) (e : exn) :
  view t dims = Raise e -> is_RuntimeError e.
Proof.
  unfold view, is_RuntimeError.
  repeat match goal with
         | |- context [if ?c then _ else _] => destruct c
         | |- context [match ?n with O => _ | S _ => _ end] => destruct n
         end;
    intros E; try discriminate; injection E as <-; eauto.
Qed.

Lemma permute_Raise (t : tensor float) (perm : list nat) (e : exn) :
  permute t perm = Raise e -> is_RuntimeError e.
Proof.
  unfold permute, is_RuntimeError. destruct (is_permutation _ _);
    intros E; try discriminate; injection E as <-; eauto.
Qed.

Lemma bmm_Raise (a b : tensor float) (e : exn) :
  bmm a b = Raise e -> is_RuntimeError e.
Proof.
  unfold bmm, is_RuntimeError.
  destruct (shape a) as [|? [|? [|? [|? ?]]]];
    destruct (shape b) as [|? [|? [|? [|? ?]]]];
    try (intros E; injection E as <-; eauto; fail).
  destruct (_ && _); intros E; try discriminate; injection E as <-; eauto.
Qed.

Lemma Conv2d_forward_Raise (m : Conv2d) (x : tensor float) (e : exn) :
  Conv2d_forward m x = Raise e -> is_RuntimeError e.
Proof.
  unfold Conv2d_forward, is_RuntimeError.
  destruct (shape x) as [|? [|? [|? [|? [|? ?]]]]];
    try (intros E; injection E as <-; eauto; fail).
  destruct (Nat.eqb (out_channels m) 0);
    [intros E; injection E as <-; eauto|].
  destruct (Nat.eqb _ _); intros E; try discriminate; injection E as <-; eauto.
Qed.

Lemma binop_Raise (f : float -> float -> float) (t1 t2 : tensor float) (e : exn) :
  binop f t1 t2 = Raise e -> is_RuntimeError e.
Proof.
  unfold binop, is_RuntimeError. destruct (broadcast_shapes _ _);
    intros E; try discriminate; injection E as <-; eauto.
Qed.

(** where [forward] returns, the input is a non-empty feature map with the
    module's number of channels *)
Lemma forward_Ok_shape (exp : Q -> Q) (channels : nat)
    (ws : SelfAttn.init_weights) (gm : float) (x out : tensor float) :
  SelfAttn.forward exp (SelfAttn.with_gamma (SelfAttn.__init__ channels ws) gm) x
  = Ok out ->
  exists b w h, shape x = [b; channels; w; h] /\ 0 < b /\ 0 < w /\ 0 < h.
Proof.
  intros H. apply forward_inv in H as (o & Eo & _).
  apply attention_inv in Eo as (_ & b & w & h & Sx & Hb & Hw & Hh & _).
  exists b, w, h. auto.
Qed.

Ltac raise_inv H a Ha lem :=
  apply bind_Raise_inv in H;
  destruct H as [H | [a [Ha H]]]; [apply lem in H; exact H|].

(** A self-attention module built for [channels >= 8] channels returns
    exactly on the four-dimensional inputs [b; channels; w; h] without an
    empty dimension.  On an input that is not four-dimensional it raises
    [ValueError]; on every other input it rejects (another number of
    channels, an empty batch, an empty map) it raises [RuntimeError]. *)
Theorem SelfAttn_forward_returns_iff
    (exp : Q -> Q) (channels : nat) (ws : SelfAttn.init_weights) (gm : float)
    (x : tensor float) :
  8 <= channels ->
  let m := SelfAttn.with_gamma (SelfAttn.__init__ channels ws) gm in
  ((exists out, SelfAttn.forward exp m x = Ok out)
   <-> exists b w h, shape x = [b; channels; w; h] /\ 0 < b /\ 0 < w /\ 0 < h)
  /\ (length (shape x) <> 4 ->
      SelfAttn.forward exp m x = Raise (ValueError "not enough values to unpack"))
  /\ (length (shape x) = 4 ->
      forall e, SelfAttn.forward exp m x = Raise e -> is_RuntimeError e).
Proof.
  intros Hch m. subst m. split; [|split].
  - split.
    + intros [out H]. eapply forward_Ok_shape. exact H.
    + intros (b & w & h & Sx & Hb & Hw & Hh). eapply forward_ok; eassumption.
  - intros Hlen. unfold SelfAttn.forward, SelfAttn.attention.
    destruct (shape x) as [|b [|c [|w [|h [|? ?]]]]]; try reflexivity.
    now contradiction Hlen.
  - intros Hlen e. unfold SelfAttn.forward. intros H.
    apply bind_Raise_inv in H.
    destruct H as [H | [o [Eo H]]];
      [|raise_inv H gout Egout binop_Raise; apply binop_Raise in H; exact H].
    revert H. unfold SelfAttn.attention.
    destruct (shape x) as [|b [|c [|w [|h [|? ?]]]]]; try discriminate.
    intros H.
    raise_inv H fx Efx Conv2d_forward_Raise.
    raise_inv H fv Efv view_Raise.
    raise_inv H f_ Ef_ permute_Raise.
    raise_inv H gx Egx Conv2d_forward_Raise.
    raise_inv H g_ Eg_ view_Raise.
    raise_inv H hx Ehx Conv2d_forward_Raise.
    raise_inv H h_ Eh_ view_Raise.
    raise_inv H tr Etr bmm_Raise.
    raise_inv H beta Ebeta permute_Raise.
    raise_inv H o1 Eo1 bmm_Raise.
    raise_inv H o4 Eo4 view_Raise.
    apply Conv2d_forward_Raise in H. exact H.
Qed.

Lemma SelfAttn_forward_returns_iff_witness :
  (exists out,
     SelfAttn.forward ex_exp
       (SelfAttn.with_gamma (SelfAttn.__init__ 8 ex_ws) (Fin (1 # 3))) ex_x = Ok out)
  /\ is_RuntimeError
       (RuntimeError "conv2d: input channels do not match the weight").
Proof.
  destruct (SelfAttn_forward_returns_iff ex_exp 8 ex_ws (Fin (1 # 3)) ex_x
              ltac:(lia)) as (Hiff & _ & _).
  destruct (SelfAttn_forward_returns_iff ex_exp 8 ex_ws (Fin (1 # 3))
              (Tensor [1; 3; 2; 1] (repeat (Fin 1) 6)) ltac:(lia)) as (_ & _ & Hrt).
  split.
  - apply Hiff. exists 1, 2, 1. repeat split; lia.
  - apply Hrt; reflexivity.
Defined.

(** The output is affine in the gate: there is one attended tensor [o],
    the same for every value of the gate, such that [forward] with gate
    [gm] returns [gm*o + x] element by element.  In particular two gates
    give outputs of the same shape. *)
Theorem SelfAttn_forward_affine_in_gate
    (exp : Q -> Q) (channels : nat) (ws : SelfAttn.init_weights)
    (x : tensor float) (gm1 : float) (out1 : tensor float) :
  SelfAttn.forward exp
    (SelfAttn.with_gamma (SelfAttn.__init__ channels ws) gm1) x = Ok out1 ->
  exists o,
    forall gm,
    exists out,
      SelfAttn.forward exp
        (SelfAttn.with_gamma (SelfAttn.__init__ channels ws) gm) x = Ok out
      /\ shape out = shape x
      /\ forall idx, idx < numel x ->
           nth idx (data out) (Fin 0)
           = fadd (fmul gm (nth idx (data o) (Fin 0))) (nth idx (data x) (Fin 0)).
Proof.
  intros H1.
  destruct (forward_inv _ _ _ _ _ _ H1) as (o & Eo & _).
  destruct (attention_inv _ _ _ _ _ Eo)
    as (Hch & b & w & h & Sx & Hb & Hw & Hh & _).
  exists o. intros gm.
  destruct (forward_ok exp channels ws gm x b w h Hch Sx Hb Hw Hh) as [out E].
  exists out. split; [exact E|].
  apply forward_inv in E as (o' & Eo' & _ & Hs & _ & Hval).
  rewrite Eo in Eo'. injection Eo' as <-.
  split; [exact Hs | exact Hval].
Qed.

Lemma SelfAttn_forward_affine_in_gate_witness :
  exists o, forall gm, exists out,
    SelfAttn.forward ex_exp
      (SelfAttn.with_gamma (SelfAttn.__init__ 8 ex_ws) gm) ex_x = Ok out
    /\ shape out = shape ex_x
    /\ forall idx, idx < numel ex_x ->
         nth idx (data out) (Fin 0)
         = fadd (fmul gm (nth idx (data o) (Fin 0)))
                (nth idx (data ex_x) (Fin 0)).
Proof.
  destruct (forward_ok ex_exp 8 ex_ws (Fin 1) ex_x 1 2 1 ltac:(lia) eq_refl
              ltac:(lia) ltac:(lia) ltac:(lia)) as [out1 E1].
  exact (SelfAttn_forward_affine_in_gate ex_exp 8 ex_ws ex_x (Fin 1) out1 E1).
Defined.

(** ** Checkpoints: when loading fails, and which file is which *)

(** what [load_pretrained] does with what [save_checkpoint] has written
    under the name it looks for *)
Lemma load_pretrained_saved (saved fresh : SAGAN) (epoch : Z)
    (fs : gmap string file) :
  model_path (cfg fresh) = model_path (cfg saved) ->
  pretrained_model (cfg fresh) = Some (epoch + 1)%Z ->
  load_pretrained fresh (save_checkpoint saved epoch fs)
  = (let* G' := Module_load_state_dict (G (nets fresh)) (G (nets saved)) in
     let* D' := Module_load_state_dict (D (nets fresh)) (D (nets saved)) in
     let* g' := Adam_load_state_dict (g_optimizer (nets fresh))
                  (g_optimizer (nets saved)) in
     let* d' := Adam_load_state_dict (d_optimizer (nets fresh))
                  (d_optimizer (nets saved)) in
     Ok {| cfg := cfg fresh;
           nets := {| G := G'; D := D'; g_optimizer := g'; d_optimizer := d' |};
           hist := hist saved |}).
Proof.
  intros Hpath Hpm.
  unfold load_pretrained. rewrite Hpm, Hpath. cbn [pretrained_file].
  fold (checkpoint_path (model_path (cfg saved)) (epoch + 1)).
  rewrite torch_load_save_checkpoint.
  cbn [bind].
  rewrite item_gen_state_dict. cbn [bind as_state_dict].
  destruct (Module_load_state_dict (G (nets fresh)) _) as [G'|e];
    [|reflexivity]. cbn [bind].
  rewrite item_disc_state_dict. cbn [bind as_state_dict].
  destruct (Module_load_state_dict (D (nets fresh)) _) as [D'|e];
    [|reflexivity]. cbn [bind].
  rewrite item_gen_optimizer. cbn [bind as_optimizer].
  destruct (Adam_load_state_dict (g_optimizer (nets fresh)) _) as [g'|e];
    [|reflexivity]. cbn [bind].
  rewrite item_disc_optimizer. cbn [bind as_optimizer].
  destruct (Adam_load_state_dict (d_optimizer (nets fresh)) _) as [d'|e];
    [|reflexivity]. cbn [bind].
  rewrite item_ave_d_losses, item_ave_d_losses_real, item_ave_d_losses_fake,
    item_ave_d_gamma1, item_ave_d_gamma2, item_ave_g_losses,
    item_ave_g_gamma1, item_ave_g_gamma2.
  cbn [bind as_list]. destruct (hist saved); reflexivity.
Qed.

(** A saved checkpoint loads back exactly when the session that loads it
    has the architecture of the session that saved it: the same parameter
    names and shapes in both networks, the same number of parameters in
    both optimizers.  Another generator or discriminator makes
    [load_state_dict] raise [RuntimeError]; with the networks right, another
    optimizer size raises [ValueError]. *)
Theorem load_pretrained_saved_iff (saved fresh : SAGAN) (epoch : Z)
    (fs : gmap string file) :
  model_path (cfg fresh) = model_path (cfg saved) ->
  pretrained_model (cfg fresh) = Some (epoch + 1)%Z ->
  let same_networks :=
    shape <$> G (nets fresh) = shape <$> G (nets saved)
    /\ shape <$> D (nets fresh) = shape <$> D (nets saved) in
  let same_optimizers :=
    n_params (g_optimizer (nets fresh)) = n_params (g_optimizer (nets saved))
    /\ n_params (d_optimizer (nets fresh)) = n_params (d_optimizer (nets saved)) in
  let r := load_pretrained fresh (save_checkpoint saved epoch fs) in
  ((exists loaded, r = Ok loaded) <-> same_networks /\ same_optimizers)
  /\ (~ same_networks ->
      r = Raise (RuntimeError "Error(s) in loading state_dict"))
  /\ (same_networks -> ~ same_optimizers ->
      exists msg, r = Raise (ValueError msg)).
Proof.
  intros Hpath Hpm sn so r. subst sn so r.
  rewrite (load_pretrained_saved saved fresh epoch fs Hpath Hpm).
  unfold Module_load_state_dict, Adam_load_state_dict.
  destruct (decide (shape <$> G (nets fresh) = shape <$> G (nets saved)))
    as [HG|HG]; cbn [bind].
  2:{ split; [|split].
      - split; [intros [l E]; discriminate | intros [[? _] _]; contradiction].
      - reflexivity.
      - intros [? _]. contradiction. }
  destruct (decide (shape <$> D (nets fresh) = shape <$> D (nets saved)))
    as [HD|HD]; cbn [bind].
  2:{ split; [|split].
      - split; [intros [l E]; discriminate | intros [[_ ?] _]; contradiction].
      - reflexivity.
      - intros [_ ?]. contradiction. }
  destruct (Nat.eqb_spec (n_params (g_optimizer (nets fresh)))
              (n_params (g_optimizer (nets saved)))) as [Hg|Hg]; cbn [bind].
  2:{ split; [|split].
      - split; [intros [l E]; discriminate | intros [_ [? _]]; contradiction].
      - intros Hn. contradiction Hn. now split.
      - intros _ _. eauto. }
  destruct (Nat.eqb_spec (n_params (d_optimizer (nets fresh)))
              (n_params (d_optimizer (nets saved)))) as [Hd|Hd]; cbn [bind].
  2:{ split; [|split].
      - split; [intros [l E]; discriminate | intros [_ [_ ?]]; contradiction].
      - intros Hn. contradiction Hn. now split.
      - intros _ _. eauto. }
  split; [|split].
  - split; [intros _; repeat split; assumption | intros _; eauto].
  - intros Hn. contradiction Hn. now split.
  - intros _ Hn. contradiction Hn. now split.
Qed.

Lemma load_pretrained_saved_iff_witness :
  (exists loaded,
     load_pretrained ex_resuming (save_checkpoint ex_trained 1 ∅) = Ok loaded)
  /\ load_pretrained ex_resuming_other (save_checkpoint ex_trained 1 ∅)
     = Raise (RuntimeError "Error(s) in loading state_dict").
Proof.
  destruct (load_pretrained_saved_iff ex_trained ex_resuming 1 ∅
              eq_refl eq_refl) as (Hiff & _ & _).
  destruct (load_pretrained_saved_iff ex_trained ex_resuming_other 1 ∅
              eq_refl eq_refl) as (_ & Hrt & _).
  split.
  - apply Hiff. repeat split; vm_compute; reflexivity.
  - apply Hrt. intros [HG _]. vm_compute in HG. discriminate HG.
Defined.

Lemma item_delete_eq (d : gmap string pyobj) (k : string) :
  item (delete k d) k = Raise (KeyError k).
Proof. unfold item. now rewrite lookup_delete_eq. Qed.

Lemma item_delete_ne (d : gmap string pyobj) (k k' : string) :
  k <> k' -> item (delete k d) k' = item d k'.
Proof. intros H. unfold item. now rewrite lookup_delete_ne. Qed.

(** A checkpoint file that lacks any one of the twelve entries makes
    [load_pretrained] raise [KeyError] for that entry. *)
Theorem load_pretrained_missing_key (saved fresh : SAGAN) (n : Z)
    (fs : gmap string file) (key : string) :
  pretrained_model (cfg fresh) = Some n ->
  shape <$> G (nets fresh) = shape <$> G (nets saved) ->
  shape <$> D (nets fresh) = shape <$> D (nets saved) ->
  n_params (g_optimizer (nets fresh)) = n_params (g_optimizer (nets saved)) ->
  n_params (d_optimizer (nets fresh)) = n_params (d_optimizer (nets saved)) ->
  In key checkpoint_keys ->
  load_pretrained fresh
    (torch_save (delete key (checkpoint_dict saved))
       (checkpoint_path (model_path (cfg fresh)) n) fs)
  = Raise (KeyError key).
Proof.
  intros Hpm HG HD Hg Hd Hin.
  unfold load_pretrained, torch_load, torch_save.
  rewrite Hpm, lookup_insert_eq. cbn [bind].
  unfold checkpoint_keys in Hin. cbn [In] in Hin.
  repeat (destruct Hin as [<-|Hin]; [|]); try contradiction;
    repeat first
      [ rewrite item_delete_eq; reflexivity
      | rewrite item_delete_ne by discriminate;
        first [ rewrite item_gen_state_dict | rewrite item_disc_state_dict
              | rewrite item_gen_optimizer | rewrite item_disc_optimizer
              | rewrite item_ave_d_losses_real | rewrite item_ave_d_losses_fake
              | rewrite item_ave_d_losses
              | rewrite item_ave_d_gamma1 | rewrite item_ave_d_gamma2
              | rewrite item_ave_g_losses
              | rewrite item_ave_g_gamma1 | rewrite item_ave_g_gamma2 ];
        cbn [bind as_state_dict as_optimizer as_list];
        try (unfold Module_load_state_dict at 1;
             rewrite decide_True by assumption; cbn [bind]);
        try (unfold Adam_load_state_dict at 1;
             first [rewrite Hg | rewrite Hd]; rewrite Nat.eqb_refl;
             cbn [bind]) ].
Qed.

Lemma load_pretrained_missing_key_witness :
  load_pretrained ex_resuming
    (torch_save (delete "ave_g_gamma2" (checkpoint_dict ex_trained))
       (checkpoint_path (model_path (cfg ex_resuming)) 2) ∅)
  = Raise (KeyError "ave_g_gamma2").
Proof.
  apply (load_pretrained_missing_key ex_trained ex_resuming 2 ∅ "ave_g_gamma2");
    try reflexivity; try (vm_compute; reflexivity).
  unfold checkpoint_keys. cbn. tauto.
Defined.

(** A session is built without reading any file when [pretrained_model] is
    [None] or 0: it starts from the fresh networks and empty histories.
    Otherwise it looks for [<pretrained_model>_sagan.pth] under
    [model_path], and raises [FileNotFoundError] with that path when the
    file is not there. *)
Theorem SAGAN_init_pretrained (c : configs) (fresh : networks)
    (fs : gmap string file) :
  (pretrained_model c = None \/ pretrained_model c = Some 0%Z ->
   SAGAN_init c fresh fs
   = Ok {| cfg := c; nets := fresh; hist := empty_histories |})
  /\ (forall n, pretrained_model c = Some n -> n <> 0%Z ->
        fs !! checkpoint_path (model_path c) n = None ->
        SAGAN_init c fresh fs
        = Raise (FileNotFoundError (checkpoint_path (model_path c) n))).
Proof.
  unfold SAGAN_init, truthy. split.
  - intros [->| ->]; reflexivity.
  - intros n Hpm Hn Hfs. rewrite Hpm.
    destruct (Z.eqb_spec n 0) as [E|_]; [contradiction|]. cbn [negb].
    unfold load_pretrained, torch_load. cbn [cfg].
    rewrite Hpm. cbn [pretrained_file]. unfold checkpoint_path in Hfs.
    now rewrite Hfs.
Qed.

(** called on a session without [pretrained_model], [load_pretrained] looks
    for the file that the format makes of [None] *)
Lemma load_pretrained_None (s : SAGAN) (fs : gmap string file) :
  pretrained_model (cfg s) = None ->
  fs !! os_path_join (model_path (cfg s)) "None_sagan.pth" = None ->
  load_pretrained s fs
  = Raise (FileNotFoundError (os_path_join (model_path (cfg s)) "None_sagan.pth")).
Proof.
  intros Hpm Hfs. unfold load_pretrained, torch_load.
  rewrite Hpm. cbn [pretrained_file]. now rewrite Hfs.
Qed.

Lemma SAGAN_init_pretrained_witness :
  SAGAN_init (ex_configs (Some 0%Z)) ex_fresh_networks
    (save_checkpoint ex_trained 1 ∅)
  = Ok {| cfg := ex_configs (Some 0%Z); nets := ex_fresh_networks;
          hist := empty_histories |}
  /\ SAGAN_init (ex_configs (Some 5%Z)) ex_fresh_networks
       (save_checkpoint ex_trained 1 ∅)
     = Raise (FileNotFoundError "models/5_sagan.pth").
Proof.
  split.
  - apply (proj1 (SAGAN_init_pretrained (ex_configs (Some 0%Z))
                    ex_fresh_networks (save_checkpoint ex_trained 1 ∅))).
    now right.
  - apply (proj2 (SAGAN_init_pretrained (ex_configs (Some 5%Z))
                    ex_fresh_networks (save_checkpoint ex_trained 1 ∅)) 5%Z);
      [reflexivity | discriminate | vm_compute; reflexivity].
Defined.

(** *** File names *)

Lemma string_length_app (s t : string) :
  String.length (s +:+ t) = String.length s + String.length t.
Proof.
  induction s as [|a s IH]; [reflexivity|].
  change (String a s +:+ t) with (String a (s +:+ t)).
  cbn [String.length]. now rewrite IH.
Qed.

Lemma string_app_inj_r (t s1 s2 : string) :
  s1 +:+ t = s2 +:+ t -> s1 = s2.
Proof.
  revert s2. induction s1 as [|a s1 IH]; intros [|c s2] H.
  - reflexivity.
  - apply (f_equal String.length) in H.
    rewrite !string_length_app in H. cbn in H. lia.
  - apply (f_equal String.length) in H.
    rewrite !string_length_app in H. cbn in H. lia.
  - change (String a (s1 +:+ t) = String c (s2 +:+ t)) in H.
    injection H as -> H. f_equal. now apply IH.
Qed.

Lemma prefix_slash_inv (s : string) :
  String.prefix "/" s = true -> exists s', s = String "/" s'.
Proof.
  destruct s as [|a s].
  - change (String.prefix "/" "") with false. discriminate.
  - change (String.prefix "/" (String a s))
      with (if ascii_dec "/" a then String.prefix "" s else false).
    destruct (ascii_dec "/" a) as [<-|_]; [eauto | discriminate].
Qed.

(** the digits of a number never begin with a slash *)
Lemma pretty_N_go_no_slash (x : N) (s : string) :
  (forall s', s <> String "/" s') ->
  forall s', pretty_N_go x s <> String "/" s'.
Proof.
  revert s. induction (N.lt_wf_0 x) as [x _ IH]. intros s Hs.
  destruct (N.eq_dec x 0%N) as [->|Hx].
  - rewrite pretty_N_go_0. exact Hs.
  - rewrite pretty_N_go_step by lia. apply IH.
    + apply N.div_lt; lia.
    + intros s' E. injection E as E _. revert E.
      unfold pretty_N_char.
      repeat match goal with
             | |- context [match ?y with _ => _ end] => destruct y
             end; discriminate.
Qed.

Lemma sagan_pth_no_slash (n : Z) : String.prefix "/" (sagan_pth n) = false.
Proof.
  destruct (String.prefix "/" (sagan_pth n)) eqn:E; [|reflexivity].
  exfalso. apply prefix_slash_inv in E as [s' E]. unfold sagan_pth in E.
  destruct n as [|p|p]; cbn in E; try discriminate.
  unfold pretty, pretty_positive, pretty, pretty_N in E.
  destruct (decide (N.pos p = 0%N)) as [E0|_]; [discriminate|].
  destruct (pretty_N_go (N.pos p) "") as [|a s] eqn:Ep; cbn in E.
  - discriminate.
  - injection E as -> _.
    now apply (pretty_N_go_no_slash (N.pos p) "" ltac:(discriminate) s).
Qed.

Lemma checkpoint_path_inj (mp : string) (n1 n2 : Z) :
  checkpoint_path mp n1 = checkpoint_path mp n2 -> n1 = n2.
Proof.
  unfold checkpoint_path, os_path_join.
  rewrite !sagan_pth_no_slash.
  intros H.
  assert (E : sagan_pth n1 = sagan_pth n2).
  { destruct (_ || _).
    - now apply String.app_inj in H.
    - apply String.app_inj in H. now apply String.app_inj in H. }
  unfold sagan_pth in E. apply string_app_inj_r in E.
  now apply pretty_Z_inj in E.
Qed.

(** Checkpoints of different epochs go to different files: saving a later
    epoch (here by any session that shares [model_path]) leaves the earlier
    checkpoint in place, and every other file too.  Saving the same epoch
    again replaces the checkpoint. *)
Theorem save_checkpoint_other_epoch (s1 s2 : SAGAN) (e1 e2 : Z)
    (fs : gmap string file) :
  model_path (cfg s1) = model_path (cfg s2) ->
  (e1 <> e2 ->
   torch_load (checkpoint_path (model_path (cfg s1)) (e1 + 1))
     (save_checkpoint s2 e2 (save_checkpoint s1 e1 fs))
   = Ok (checkpoint_dict s1))
  /\ (forall path, path <> checkpoint_path (model_path (cfg s2)) (e2 + 1) ->
        save_checkpoint s2 e2 fs !! path = fs !! path)
  /\ torch_load (checkpoint_path (model_path (cfg s1)) (e1 + 1))
       (save_checkpoint s2 e1 (save_checkpoint s1 e1 fs))
     = Ok (checkpoint_dict s2).
Proof.
  intros Hmp. split; [|split].
  - intros Hne. unfold torch_load, save_checkpoint, torch_save.
    rewrite lookup_insert_ne.
    + now rewrite lookup_insert_eq.
    + rewrite Hmp. intros E. apply checkpoint_path_inj in E. lia.
  - intros path Hp. unfold save_checkpoint, torch_save.
    now rewrite lookup_insert_ne.
  - unfold torch_load, save_checkpoint, torch_save.
    now rewrite Hmp, lookup_insert_eq.
Qed.

Lemma save_checkpoint_other_epoch_witness :
  torch_load (checkpoint_path (model_path (cfg ex_trained)) (1 + 1))
    (save_checkpoint ex_resuming 3 (save_checkpoint ex_trained 1 ∅))
  = Ok (checkpoint_dict ex_trained).
Proof.
  apply (proj1 (save_checkpoint_other_epoch ex_trained ex_resuming 1 3 ∅
                  eq_refl)).
  lia.
Defined.

(** *** Checkpoints and sample images never share a file *)

Lemma string_app_nil_inv (s t : string) : s +:+ t = "" -> t = "".
Proof.
  destruct s as [|a s]; [exact (fun H => H)|].
  change (String a s +:+ t) with (String a (s +:+ t)). discriminate.
Qed.

Lemma string_last_app (s t : string) :
  t <> "" -> string_last (s +:+ t) = string_last t.
Proof.
  intros Ht. induction s as [|a s IH]; [reflexivity|].
  change (String a s +:+ t) with (String a (s +:+ t)).
  destruct (s +:+ t) as [|b u] eqn:E.
  - apply string_app_nil_inv in E. contradiction.
  - exact IH.
Qed.

Lemma string_last_nonempty (s : string) (c : ascii) :
  string_last s = Some c -> s <> "".
Proof. intros H ->. discriminate H. Qed.

Lemma string_last_os_path_join (a b : string) (c : ascii) :
  string_last b = Some c -> string_last (os_path_join a b) = Some c.
Proof.
  intros Hb. pose proof (string_last_nonempty _ _ Hb) as Hne.
  unfold os_path_join.
  destruct (String.prefix "/" b); [exact Hb|].
  destruct (String.eqb a "" || ends_with_slash a).
  - now rewrite string_last_app.
  - rewrite string_last_app.
    + now rewrite string_last_app.
    + intros E. apply string_app_nil_inv in E. contradiction.
Qed.

Lemma string_last_sagan_pth (n : Z) : string_last (sagan_pth n) = Some "h"%char.
Proof. unfold sagan_pth. now rewrite string_last_app. Qed.

Lemma string_last_epoch_png (n : Z) : string_last (epoch_png n) = Some "g"%char.
Proof.
  unfold epoch_png.
  assert (H : string_last (pretty n +:+ ".png") = Some "g"%char)
    by now rewrite string_last_app.
  rewrite string_last_app; [exact H|]. eapply string_last_nonempty. exact H.
Qed.

(** a checkpoint ends in [.pth], a sample image in [.png] *)
Lemma checkpoint_path_not_image (mp sp : string) (n k : Z) :
  checkpoint_path mp n <> sample_image_path sp k.
Proof.
  intros E. apply (f_equal string_last) in E.
  unfold checkpoint_path, sample_image_path in E.
  rewrite (string_last_os_path_join _ _ _ (string_last_sagan_pth n)) in E.
  rewrite (string_last_os_path_join _ _ _ (string_last_epoch_png k)) in E.
  discriminate E.
Qed.

(** what the writes of an epoch leave in place *)
Lemma epoch_writes_facts (c : configs) (e : Z) (fs fs' : gmap string file) :
  epoch_writes c e fs fs' ->
  (forall p, is_Some (fs !! p) -> is_Some (fs' !! p))
  /\ (forall p,
        (saving_epoch c e = true -> p <> checkpoint_path (model_path c) (e + 1)) ->
        p <> sample_image_path (sample_path c) (e + 1) ->
        fs' !! p = fs !! p)
  /\ (forall n, checkpoint_at fs (checkpoint_path (model_path c) n) ->
                checkpoint_at fs' (checkpoint_path (model_path c) n))
  /\ (forall n, image_at fs (sample_image_path (sample_path c) n) ->
                image_at fs' (sample_image_path (sample_path c) n)).
Proof.
  set (ip := sample_image_path (sample_path c) (e + 1)).
  set (cp := checkpoint_path (model_path c) (e + 1)).
  assert (Himg : forall img (g : gmap string file),
            (forall p, is_Some (g !! p) -> is_Some (save_image img ip g !! p))
            /\ (forall p, p <> ip -> save_image img ip g !! p = g !! p)
            /\ (forall n, checkpoint_at g (checkpoint_path (model_path c) n) ->
                  checkpoint_at (save_image img ip g)
                    (checkpoint_path (model_path c) n))
            /\ (forall n, image_at g (sample_image_path (sample_path c) n) ->
                  image_at (save_image img ip g)
                    (sample_image_path (sample_path c) n))).
  { intros img g. unfold save_image. split; [|split; [|split]].
    - intros p Hp. destruct (decide (ip = p)) as [<-|Hne].
      + rewrite lookup_insert_eq. eauto.
      + now rewrite lookup_insert_ne.
    - intros p Hp. now rewrite lookup_insert_ne.
    - intros n [obj Hn]. exists obj.
      rewrite lookup_insert_ne; [exact Hn|].
      intros E. symmetry in E. now apply checkpoint_path_not_image in E.
    - intros n [im Hn]. destruct (decide (ip = sample_image_path (sample_path c) n))
        as [<-|Hne].
      + exists img. apply lookup_insert_eq.
      + exists im. now rewrite lookup_insert_ne. }
  assert (Hck : forall obj (g : gmap string file),
            (forall p, is_Some (g !! p) -> is_Some (torch_save obj cp g !! p))
            /\ (forall p, p <> cp -> torch_save obj cp g !! p = g !! p)
            /\ (forall n, checkpoint_at g (checkpoint_path (model_path c) n) ->
                  checkpoint_at (torch_save obj cp g)
                    (checkpoint_path (model_path c) n))
            /\ (forall n, image_at g (sample_image_path (sample_path c) n) ->
                  image_at (torch_save obj cp g)
                    (sample_image_path (sample_path c) n))).
  { intros obj g. unfold torch_save. split; [|split; [|split]].
    - intros p Hp. destruct (decide (cp = p)) as [<-|Hne].
      + rewrite lookup_insert_eq. eauto.
      + now rewrite lookup_insert_ne.
    - intros p Hp. now rewrite lookup_insert_ne.
    - intros n [o Hn]. destruct (decide (cp = checkpoint_path (model_path c) n))
        as [<-|Hne].
      + exists obj. apply lookup_insert_eq.
      + exists o. now rewrite lookup_insert_ne.
    - intros n [im Hn]. exists im.
      rewrite lookup_insert_ne; [exact Hn|].
      apply checkpoint_path_not_image. }
  intros [->|[(img & ->)|(Hs & img & obj & ->)]].
  - auto.
  - destruct (Himg img fs) as (H1 & H2 & H3 & H4).
    split; [exact H1|]. split; [|split; assumption].
    intros p _ Hp. now apply H2.
  - destruct (Himg img fs) as (H1 & H2 & H3 & H4).
    destruct (Hck obj (save_image img ip fs)) as (K1 & K2 & K3 & K4).
    split; [|split; [|split]].
    + intros p Hp. apply K1, H1, Hp.
    + intros p Hp Hq. rewrite K2 by (apply Hp; exact Hs). now apply H2.
    + intros n Hn. apply K3, H3, Hn.
    + intros n Hn. apply K4, H4, Hn.
Qed.

(** ** The training loop: runs that stop early or do nothing *)

Section TrainEdges.
Variable train_step :
  configs -> Z -> Z -> Q -> networks -> result (networks * step_log).
Variable sample_images : networks -> tensor float.

(** a step that is not a logging step leaves the local lists alone *)
Lemma step_body_no_log (e s : Z) (logs logs' : list step_log) (w w' : world) :
  step_body train_step e s logs w = (Ok logs', w') ->
  ((s + 1) mod log_step (cfg (self w)))%Z <> 0%Z ->
  logs' = logs.
Proof.
  unfold step_body, mbind', get_self, lift, emit, set_self, ret, pymod.
  destruct (inst_noise_sigma_curr _ _ s) as [sg|ex]; [|discriminate].
  cbn [self files trace].
  destruct (train_step _ e s sg _) as [[n' lg]|ex]; [|discriminate].
  cbn [self files trace cfg nets hist fst snd].
  destruct (Z.eqb_spec (log_step (cfg (self w))) 0); [discriminate|].
  destruct (Z.eqb_spec ((s + 1) mod log_step (cfg (self w))) 0) as [Em|Nm];
    intros E Hm; [contradiction|]. now injection E as <- _.
Qed.

Lemma steps_loop_no_log (e : Z) (l : list Z) :
  forall (logs logs' : list step_log) (w w' : world),
  for_each l logs (step_body train_step e) w = (Ok logs', w') ->
  (forall s, In s l -> ((s + 1) mod log_step (cfg (self w)))%Z <> 0%Z) ->
  logs' = logs.
Proof.
  induction l as [|s l IH]; intros logs logs' w w'; cbn [for_each].
  - unfold ret. intros E _. now injection E as <- _.
  - unfold mbind'.
    destruct (step_body train_step e s logs w) as [[logs1|ex] w1] eqn:E1;
      [|discriminate].
    intros E Hno.
    pose proof (step_body_no_log _ _ _ _ _ _ E1 (Hno s (or_introl eq_refl))) as ->.
    apply step_body_spec in E1 as (Hc1 & _).
    eapply IH; [exact E|]. intros s' Hs'. rewrite Hc1. apply Hno. now right.
Qed.

(** the events of a step loop are the steps it has run, in order *)
Lemma steps_run_step_events (c : configs) (e : Z) (l : list Z) (ext : list event) :
  Forall2 (step_event c e) l ext ->
  steps_run ext = map (pair e) l
  /\ saves_run ext = [] /\ epochs_run ext = [].
Proof.
  induction 1 as [|s ev l ext (sg & -> & _) _ (IH1 & IH2 & IH3)]; cbn.
  - auto.
  - now rewrite IH1, IH2, IH3.
Qed.
End TrainEdges.

(** When there is no epoch to run, [train] touches nothing.  With an empty
    data loader it raises [ZeroDivisionError] at once; when the epoch to
    resume from is not below [epochs] (also when [total_steps] is less than
    one epoch of batches) it returns at once.  Session, files and trace stay
    as they were. *)
Theorem train_without_epochs
    (train_step : configs -> Z -> Z -> Q -> networks -> result (networks * step_log))
    (sample_images : networks -> tensor float)
    (w : world) :
  (dataloader_len (cfg (self w)) = 0 ->
   train train_step sample_images w = (Raise ZeroDivisionError, w))
  /\ (forall epochs,
        epochs_of (cfg (self w)) = Ok epochs ->
        (epochs <= start_epoch (cfg (self w)))%Z ->
        train train_step sample_images w = (Ok tt, w)).
Proof.
  split.
  - intros H0. unfold train, mbind', get_self, lift, epochs_of, truediv.
    rewrite H0. reflexivity.
  - intros epochs He Hle.
    rewrite (train_unfold train_step sample_images w epochs He), range_nil by exact Hle.
    reflexivity.
Qed.

Lemma train_without_epochs_witness :
  train ex_train_step ex_sample_images ex_world_done = (Ok tt, ex_world_done).
Proof.
  apply (proj2 (train_without_epochs ex_train_step ex_sample_images ex_world_done) 2%Z);
    [reflexivity | cbn; lia].
Defined.

(** With a decay horizon of 0 a run that has an epoch to do enters that
    epoch and raises [ZeroDivisionError] at its first step, before any
    training step is taken: nothing is trained, logged or saved. *)
Theorem train_zero_horizon
    (train_step : configs -> Z -> Z -> Q -> networks -> result (networks * step_log))
    (sample_images : networks -> tensor float)
    (w : world) (epochs : Z) :
  inst_noise_sigma_iters (cfg (self w)) = 0%Z ->
  epochs_of (cfg (self w)) = Ok epochs ->
  (start_epoch (cfg (self w)) < epochs)%Z ->
  train train_step sample_images w
  = (Raise ZeroDivisionError,
     {| self := self w; files := files w;
        trace := trace w ++ [EvEpoch (start_epoch (cfg (self w)))] |}).
Proof.
  intros Hi He Hlt.
  destruct (epochs_of_inv _ _ He) as [Hlen _].
  rewrite (train_unfold train_step sample_images w epochs He), range_cons by exact Hlt.
  cbn [for_each]. unfold mbind' at 1. unfold epoch_body.
  unfold mbind' at 1. unfold emit at 1. cbn [fst snd].
  rewrite (range_cons 0) by lia. cbn [for_each].
  unfold mbind' at 1. unfold mbind' at 1.
  unfold step_body. unfold mbind' at 1. unfold get_self at 1.
  unfold mbind' at 1. unfold lift at 1. cbn [self cfg].
  rewrite Hi. reflexivity.
Qed.

Lemma train_zero_horizon_witness :
  fst (train ex_train_step ex_sample_images ex_world_zero_horizon) = Raise ZeroDivisionError
  /\ trace (snd (train ex_train_step ex_sample_images ex_world_zero_horizon)) = [EvEpoch 0].
Proof.
  rewrite (train_zero_horizon ex_train_step ex_sample_images ex_world_zero_horizon 2%Z);
    [split; reflexivity | reflexivity | reflexivity | cbn; lia].
Defined.

(** When [log_step] is larger than the number of batches per epoch, no
    step of an epoch is a logging step: a run that has an epoch to do runs
    every training step of that epoch, then raises [StatisticsError] on the
    mean of an empty list.  No history is extended and nothing is saved. *)
Theorem train_log_step_too_large
    (train_step : configs -> Z -> Z -> Q -> networks -> result (networks * step_log))
    (sample_images : networks -> tensor float)
    (w : world) (epochs : Z) :
  inst_noise_sigma_iters (cfg (self w)) <> 0%Z ->
  (Z.of_nat (dataloader_len (cfg (self w))) < log_step (cfg (self w)))%Z ->
  (forall c e s sg n, exists x, train_step c e s sg n = Ok x) ->
  epochs_of (cfg (self w)) = Ok epochs ->
  (start_epoch (cfg (self w)) < epochs)%Z ->
  let r := train train_step sample_images w in
  let e0 := start_epoch (cfg (self w)) in
  fst r = Raise StatisticsError
  /\ (exists ext,
        trace (snd r) = trace w ++ EvEpoch e0 :: ext
        /\ steps_run ext
           = map (pair e0) (range 0 (Z.of_nat (dataloader_len (cfg (self w))))))
  /\ hist (self (snd r)) = hist (self w)
  /\ files (snd r) = files w.
Proof.
  intros Hi Hlog Htot He Hlt r e0. subst r.
  destruct (epochs_of_inv _ _ He) as [Hlen _].
  set (spe := Z.of_nat (dataloader_len (cfg (self w)))) in *.
  cut (exists w',
         train train_step sample_images w = (Raise StatisticsError, w')
         /\ (exists ext,
               trace w' = trace w ++ EvEpoch e0 :: ext
               /\ steps_run ext = map (pair e0) (range 0 spe))
         /\ hist (self w') = hist (self w)
         /\ files w' = files w).
  { intros (w' & -> & H). cbn [fst snd]. split; [reflexivity | exact H]. }
  rewrite (train_unfold train_step sample_images w epochs He), range_cons by exact Hlt.
  fold e0. fold spe.
  cbn [for_each]. unfold mbind' at 1. unfold epoch_body.
  unfold mbind' at 1. unfold emit at 1. cbn [fst snd].
  set (w0 := {| self := self w; files := files w;
                trace := trace w ++ [EvEpoch e0] |}).
  unfold mbind' at 1.
  destruct (steps_loop_ok train_step e0 (range 0 spe) [] w0)
    as (logs & w1 & E1); [| exact Hi | subst w0; cbn; lia | exact Htot |].
  { intros s Hs Hm. apply in_range in Hs. subst w0. cbn [self] in Hm.
    rewrite Z.mod_small in Hm by lia. lia. }
  rewrite E1.
  pose proof (steps_loop_no_log train_step _ _ _ _ _ _ E1) as Hlogs.
  rewrite Hlogs.
  2:{ intros s Hs. apply in_range in Hs. subst w0. cbn [self].
      rewrite Z.mod_small by lia. lia. }
  apply steps_loop_spec in E1
    as (Hc1 & Hh1 & Hf1 & ext1 & Htr1 & _ & _ & HF & _).
  subst w0. cbn [self files trace] in *.
  unfold mbind' at 1. unfold lift at 1.
  cbn [epoch_means statistics_mean map bind fst snd].
  exists w1. split; [reflexivity|]. split; [|split; assumption].
  exists ext1. rewrite Htr1, <- app_assoc. split; [reflexivity|].
  now apply (steps_run_step_events (cfg (self w)) e0).
Qed.

Lemma train_log_step_too_large_witness :
  fst (train ex_train_step ex_sample_images ex_world_log_step_5) = Raise StatisticsError
  /\ hist (self (snd (train ex_train_step ex_sample_images ex_world_log_step_5)))
     = empty_histories.
Proof.
  destruct (train_log_step_too_large ex_train_step ex_sample_images ex_world_log_step_5 2%Z)
    as (H1 & _ & H2 & _).
  - discriminate.
  - cbn. lia.
  - intros c e s sg n. eexists. reflexivity.
  - reflexivity.
  - cbn. lia.
  - split; [exact H1 | exact H2].
Defined.

(** ** The training loop: a loss that no loop has bound *)

Lemma steps_run_app (tr1 tr2 : list event) :
  steps_run (tr1 ++ tr2) = steps_run tr1 ++ steps_run tr2.
Proof.
  induction tr1 as [|ev tr1 IH]; cbn; [reflexivity|].
  destruct ev; cbn; now rewrite IH.
Qed.

Lemma for_each_app {A S} (l1 l2 : list A) (body : A -> S -> M S) :
  forall (acc : S) (w : world),
  for_each (l1 ++ l2) acc body w
  = match for_each l1 acc body w with
    | (Ok acc', w') => for_each l2 acc' body w'
    | (Raise ex, w') => (Raise ex, w')
    end.
Proof.
  induction l1 as [|a l1 IH]; intros acc w; cbn [for_each app].
  - reflexivity.
  - unfold mbind'. destruct (body a acc w) as [[acc1|ex] w1];
      [apply IH | reflexivity].
Qed.

Lemma range_split (a m b : Z) :
  (a <= m <= b)%Z -> range a b = range a m ++ range m b.
Proof.
  intros [H1 H2].
  remember (Z.to_nat (m - a)) as n eqn:Hn. revert a H1 Hn.
  induction n as [|n IH]; intros a H1 Hn.
  - replace m with a by lia. now rewrite (range_nil a a) by lia.
  - rewrite (range_cons a b), (range_cons a m) by lia.
    cbn [app]. f_equal. apply IH; lia.
Qed.

Section TrainUnbound.
Variable train_step :
  configs -> Z -> Z -> Q -> networks -> result (networks * step_log).

(** a logging step of a configuration without a pass through one of the
    two loops reads a loss that was never bound *)
Lemma step_body_unbound (e s : Z) (logs : list step_log) (w : world) :
  (d_iters (cfg (self w)) <= 0 \/ g_iters (cfg (self w)) <= 0)%Z ->
  inst_noise_sigma_iters (cfg (self w)) <> 0%Z ->
  log_step (cfg (self w)) <> 0%Z ->
  ((s + 1) mod log_step (cfg (self w)))%Z = 0%Z ->
  (forall c e s sg n, exists r, train_step c e s sg n = Ok r) ->
  exists w' sg,
    step_body train_step e s logs w
    = (Raise (UnboundLocalError
                (if (d_iters (cfg (self w)) <=? 0)%Z then "d_loss" else "g_loss")),
       w')
    /\ hist (self w') = hist (self w)
    /\ files w' = files w
    /\ trace w' = trace w ++ [EvStep e s sg].
Proof.
  intros Hdg Hi Hl Hm Htot.
  unfold step_body, mbind', get_self, lift, emit, set_self, ret, pymod.
  destruct (inst_noise_sigma_curr_defined
              (inst_noise_sigma (cfg (self w))) _ s Hi) as [sg ->].
  cbn [self files trace].
  destruct (Htot (cfg (self w)) e s sg (nets (self w))) as [[n' lg] ->].
  cbn [self files trace cfg nets hist fst snd].
  destruct (Z.eqb_spec (log_step (cfg (self w))) 0); [contradiction|].
  rewrite Hm. cbn [Z.eqb].
  destruct (Z.leb_spec (d_iters (cfg (self w))) 0) as [Ld|Ld].
  - eexists _, sg. split; [reflexivity|]. cbn. auto.
  - destruct (Z.leb_spec (g_iters (cfg (self w))) 0) as [Lg|Lg]; [|lia].
    eexists _, sg. split; [reflexivity|]. cbn. auto.
Qed.
End TrainUnbound.

(** When the discriminator loop or the generator loop of a step does not
    run at all ([d_iters <= 0] or [g_iters <= 0]), the losses that a
    logging step reads are never bound: a run that has an epoch to do takes
    the steps up to its first logging step, [log_step] of them, and raises
    [UnboundLocalError] there, for [d_loss] when the discriminator loop is
    the empty one and for [g_loss] otherwise.  No history is extended and
    no file is written. *)
Theorem train_unbound_loss
    (train_step : configs -> Z -> Z -> Q -> networks -> result (networks * step_log))
    (sample_images : networks -> tensor float)
    (w : world) (epochs : Z) :
  (d_iters (cfg (self w)) <= 0 \/ g_iters (cfg (self w)) <= 0)%Z ->
  inst_noise_sigma_iters (cfg (self w)) <> 0%Z ->
  (0 < log_step (cfg (self w)) <= Z.of_nat (dataloader_len (cfg (self w))))%Z ->
  (forall c e s sg n, exists x, train_step c e s sg n = Ok x) ->
  epochs_of (cfg (self w)) = Ok epochs ->
  (start_epoch (cfg (self w)) < epochs)%Z ->
  let r := train train_step sample_images w in
  let e0 := start_epoch (cfg (self w)) in
  fst r = Raise (UnboundLocalError
                   (if (d_iters (cfg (self w)) <=? 0)%Z then "d_loss"
                    else "g_loss"))
  /\ (exists ext,
        trace (snd r) = trace w ++ EvEpoch e0 :: ext
        /\ steps_run ext = map (pair e0) (range 0 (log_step (cfg (self w)))))
  /\ hist (self (snd r)) = hist (self w)
  /\ files (snd r) = files w.
Proof.
  intros Hdg Hi Hlog Htot He Hlt r e0. subst r.
  set (spe := Z.of_nat (dataloader_len (cfg (self w)))) in *.
  set (ls := log_step (cfg (self w))) in *.
  set (name := if (d_iters (cfg (self w)) <=? 0)%Z then "d_loss" else "g_loss").
  cut (exists w',
         train train_step sample_images w = (Raise (UnboundLocalError name), w')
         /\ (exists ext,
               trace w' = trace w ++ EvEpoch e0 :: ext
               /\ steps_run ext = map (pair e0) (range 0 ls))
         /\ hist (self w') = hist (self w)
         /\ files w' = files w).
  { intros (w' & -> & H). cbn [fst snd]. split; [reflexivity | exact H]. }
  rewrite (train_unfold train_step sample_images w epochs He),
    range_cons by exact Hlt.
  fold e0. fold spe.
  cbn [for_each]. unfold mbind' at 1. unfold epoch_body.
  unfold mbind' at 1. unfold emit at 1. cbn [fst snd].
  set (w0 := {| self := self w; files := files w;
                trace := trace w ++ [EvEpoch e0] |}).
  unfold mbind' at 1.
  (* the steps before the first logging step, that step, and the rest *)
  rewrite (range_split 0 (ls - 1) spe) by lia.
  rewrite (range_cons (ls - 1) spe) by lia.
  rewrite for_each_app.
  destruct (steps_loop_ok train_step e0 (range 0 (ls - 1)) [] w0)
    as (logs & w1 & E1); [| exact Hi | subst w0 ls; cbn; lia | exact Htot |].
  { intros s Hs Hm. apply in_range in Hs. subst w0. cbn [self] in Hm.
    fold ls in Hm. rewrite Z.mod_small in Hm by lia. lia. }
  rewrite E1.
  apply steps_loop_spec in E1
    as (Hc1 & Hh1 & Hf1 & ext1 & Htr1 & _ & _ & HF & _).
  subst w0. cbn [self files trace] in *.
  cbn [for_each]. unfold mbind' at 1.
  destruct (step_body_unbound train_step e0 (ls - 1)%Z logs w1)
    as (w2 & sg & E2 & Hh2 & Hf2 & Htr2);
    rewrite ?Hc1; try assumption.
  { subst ls. lia. }
  { replace (ls - 1 + 1)%Z with ls by lia. subst ls. apply Z.mod_same. lia. }
  rewrite E2, Hc1. fold name.
  exists w2. split; [reflexivity|]. split; [|split; congruence].
  exists (ext1 ++ [EvStep e0 (ls - 1) sg]).
  rewrite Htr2, Htr1, <- !app_assoc. split; [reflexivity|].
  destruct (steps_run_step_events (cfg (self w)) e0 _ _ HF) as (Hst & _ & _).
  rewrite steps_run_app, Hst. cbn [steps_run].
  rewrite (range_split 0 (ls - 1) ls), (range_cons (ls - 1) ls),
    (range_nil (ls - 1 + 1) ls) by lia.
  now rewrite map_app.
Qed.

Lemma train_unbound_loss_witness :
  fst (train ex_train_step ex_sample_images ex_world_no_d_iters)
  = Raise (UnboundLocalError "d_loss")
  /\ hist (self (snd (train ex_train_step ex_sample_images ex_world_no_d_iters)))
     = empty_histories
  /\ files (snd (train ex_train_step ex_sample_images ex_world_no_d_iters)) = ∅.
Proof.
  destruct (train_unbound_loss ex_train_step ex_sample_images
              ex_world_no_d_iters 2%Z)
    as (H1 & _ & H2 & H3).
  - left. change (0 <= 0)%Z. lia.
  - discriminate.
  - change (0 < 2 <= 3)%Z. lia.
  - intros c e s sg n. eexists. reflexivity.
  - reflexivity.
  - change (0 < 2)%Z. lia.
  - split; [exact H1|]. split; [exact H2 | exact H3].
Defined.

(** ** The training loop: what a run does to histories, files and steps *)

Lemma saves_run_app (tr1 tr2 : list event) :
  saves_run (tr1 ++ tr2) = saves_run tr1 ++ saves_run tr2.
Proof.
  induction tr1 as [|ev tr1 IH]; cbn; [reflexivity|].
  destruct ev; cbn; now rewrite IH.
Qed.

Lemma extends_histories_nil (h : histories) : extends_histories h h [].
Proof. unfold extends_histories. cbn. now rewrite !app_nil_r. Qed.

Lemma extends_histories_append (h : histories) (m : step_log) :
  extends_histories h (append_means h m) [m].
Proof. unfold extends_histories, append_means. cbn. repeat split. Qed.

Lemma extends_histories_trans (h1 h2 h3 : histories) (a b : list step_log) :
  extends_histories h1 h2 a -> extends_histories h2 h3 b ->
  extends_histories h1 h3 (a ++ b).
Proof.
  unfold extends_histories.
  intros (A1 & A2 & A3 & A4 & A5 & A6 & A7 & A8)
         (B1 & B2 & B3 & B4 & B5 & B6 & B7 & B8).
  rewrite B1, B2, B3, B4, B5, B6, B7, B8, A1, A2, A3, A4, A5, A6, A7, A8.
  rewrite !map_app, <- !app_assoc. repeat split.
Qed.

Section TrainEffects.
Variable train_step :
  configs -> Z -> Z -> Q -> networks -> result (networks * step_log).
Variable sample_images : networks -> tensor float.

(** whether it ends or raises, a step loop adds step events only *)
Lemma steps_loop_only_steps (e : Z) (l : list Z) :
  forall (logs : list step_log) (w w' : world) (r : result (list step_log)),
  for_each l logs (step_body train_step e) w = (r, w') ->
  exists ext,
    trace w' = trace w ++ ext
    /\ saves_run ext = [] /\ epochs_run ext = [].
Proof.
  induction l as [|s l IH]; intros logs w w' r; cbn [for_each].
  - unfold ret. intros E. injection E as <- <-.
    exists []. now rewrite app_nil_r.
  - unfold mbind'.
    destruct (step_body train_step e s logs w) as [[logs1|ex] w1] eqn:E1;
      apply step_body_spec in E1 as (_ & _ & _ & H1).
    + destruct H1 as ((ev & (sg & -> & _) & Htr1) & _).
      intros E. apply IH in E as (ext & Htr & Hs & He).
      exists (EvStep e s sg :: ext). rewrite Htr, Htr1, <- app_assoc.
      cbn. auto.
    + intros E. injection E as <- <-.
      destruct H1 as [Htr1|(ev & (sg & -> & _) & Htr1)].
      * exists []. now rewrite app_nil_r.
      * exists [EvStep e s sg]. cbn. auto.
Qed.

(** all that one pass of the epoch loop does *)
Lemma epoch_body_inv (spe e : Z) (w w' : world) (r : result unit) :
  epoch_body train_step sample_images spe e tt w = (r, w') ->
  cfg (self w') = cfg (self w)
  /\ epoch_writes (cfg (self w)) e (files w) (files w')
  /\ exists ext,
       trace w' = trace w ++ EvEpoch e :: ext
       /\ match r with
          | Ok _ =>
              steps_run ext = map (pair e) (range 0 spe)
              /\ (exists means,
                    hist (self w') = append_means (hist (self w)) means)
              /\ save_epoch (cfg (self w)) <> 0%Z
              /\ image_at (files w')
                   (sample_image_path (sample_path (cfg (self w))) (e + 1))
              /\ (if saving_epoch (cfg (self w)) e
                  then saves_run ext = [e]
                       /\ files w' !! checkpoint_path (model_path (cfg (self w)))
                                        (e + 1)
                          = Some (CheckpointFile (checkpoint_dict (self w')))
                  else saves_run ext = [])
          | Raise _ =>
              saves_run ext = []
              /\ (hist (self w') = hist (self w)
                  \/ exists means,
                       hist (self w') = append_means (hist (self w)) means)
          end.
Proof.
  unfold epoch_body.
  unfold mbind' at 1. unfold emit at 1. cbn [fst snd].
  set (w0 := {| self := self w; files := files w;
                trace := trace w ++ [EvEpoch e] |}).
  unfold mbind' at 1.
  destruct (for_each (range 0 spe) [] (step_body train_step e) w0)
    as [[logs|ex] w1] eqn:E1;
    pose proof (steps_loop_only_steps _ _ _ _ _ _ E1) as (ext1 & Htr1 & Hsv1 & _);
    apply steps_loop_spec in E1
      as (Hc1 & Hh1 & Hf1 & ext1' & Htr1' & _ & _ & Hr1);
    rewrite Htr1 in Htr1'; apply app_inv_head in Htr1'; subst ext1';
    subst w0; cbn [self files trace] in *;
    rewrite <- app_assoc in Htr1; cbn [app] in Htr1.
  2:{ intros E. injection E as <- <-. split; [exact Hc1|].
      split; [left; exact Hf1|].
      exists ext1. split; [exact Htr1|]. auto. }
  destruct Hr1 as (HF & _ & _).
  destruct (steps_run_step_events _ _ _ _ HF) as (Hst1 & _ & _).
  unfold mbind', lift, get_self, set_self, get_files, set_files, emit, ret.
  destruct (epoch_means logs) as [means|ex].
  2:{ intros E. injection E as <- <-. split; [exact Hc1|].
      split; [left; exact Hf1|].
      exists ext1. split; [exact Htr1|]. auto. }
  cbn [self files trace cfg nets hist].
  destruct (scalars_at _ e) as [sc|ex].
  2:{ intros E. injection E as <- <-. cbn [self files trace cfg hist].
      split; [exact Hc1|]. split; [left; exact Hf1|].
      exists ext1. split; [exact Htr1|]. rewrite Hh1. eauto. }
  cbn [self files trace cfg nets hist].
  unfold pymod, saving_epoch. rewrite Hc1, Hf1.
  set (img := denorm (sample_images (nets (self w1)))).
  set (ip := sample_image_path (sample_path (cfg (self w))) (e + 1)).
  destruct (Z.eqb_spec (save_epoch (cfg (self w))) 0) as [E0|N0].
  { intros E. injection E as <- <-. cbn [self files trace cfg hist].
    split; [first [exact Hc1 | reflexivity]|].
    split; [right; left; exists img; reflexivity|].
    exists (ext1 ++ [EvScalars e sc; EvSample e]).
    rewrite Htr1, <- !app_assoc. split; [reflexivity|].
    rewrite saves_run_app, Hsv1, Hh1. cbn. eauto. }
  destruct (Z.eqb ((e + 1) mod save_epoch (cfg (self w))) 0) eqn:Esave;
    intros E; injection E as <- <-; cbn [self files trace cfg hist].
  - split; [first [exact Hc1 | reflexivity]|].
    split.
    { right; right. split; [unfold saving_epoch; exact Esave|].
      eexists img, _. unfold save_checkpoint. cbn [cfg]. rewrite ?Hc1.
      reflexivity. }
    exists (ext1 ++ [EvScalars e sc; EvSample e; EvSave e]).
    rewrite Htr1, <- !app_assoc. split; [reflexivity|].
    rewrite steps_run_app, saves_run_app, Hsv1, Hst1, Hh1. cbn.
    rewrite app_nil_r.
    split; [reflexivity|]. split; [eauto|]. split; [exact N0|].
    unfold save_checkpoint, torch_save, save_image. cbn [cfg]. rewrite ?Hc1.
    split.
    + exists img. rewrite lookup_insert_ne by apply checkpoint_path_not_image.
      apply lookup_insert_eq.
    + split; [reflexivity|]. apply lookup_insert_eq.
  - split; [first [exact Hc1 | reflexivity]|].
    split; [right; left; exists img; reflexivity|].
    exists (ext1 ++ [EvScalars e sc; EvSample e]).
    rewrite Htr1, <- !app_assoc. split; [reflexivity|].
    rewrite steps_run_app, saves_run_app, Hsv1, Hst1, Hh1. cbn.
    rewrite app_nil_r.
    split; [reflexivity|]. split; [eauto|]. split; [exact N0|].
    split; [|reflexivity].
    exists img. unfold save_image. apply lookup_insert_eq.
Qed.

(** the histories over the epoch loop *)
Lemma epochs_loop_hist (spe : Z) (l : list Z) :
  forall (w w' : world) (r : result unit),
  for_each l tt (epoch_body train_step sample_images spe) w = (r, w') ->
  exists added,
    extends_histories (hist (self w)) (hist (self w')) added
    /\ length added <= length l
    /\ (fst (r, w') = Ok tt -> length added = length l).
Proof.
  induction l as [|e l IH]; intros w w' r; cbn [for_each].
  - unfold ret. intros E. injection E as <- <-.
    exists []. split; [apply extends_histories_nil | auto].
  - unfold mbind'.
    destruct (epoch_body train_step sample_images spe e tt w) as [[u|ex] w1] eqn:E1;
      apply epoch_body_inv in E1 as (Hc1 & _ & ext1 & Htr1 & H1).
    + destruct H1 as (_ & (means & Hh1) & _). destruct u.
      intros E. apply IH in E as (added & Hext & Hle & Hok).
      exists (means :: added). split; [|split].
      * change (means :: added) with ([means] ++ added).
        eapply extends_histories_trans; [|exact Hext].
        rewrite Hh1. apply extends_histories_append.
      * cbn. lia.
      * intros Hr. cbn. f_equal. apply Hok. exact Hr.
    + intros E. injection E as <- <-.
      destruct H1 as (_ & [Hh|(means & Hh)]).
      * exists []. rewrite Hh. split; [apply extends_histories_nil|].
        split; [cbn; lia | discriminate].
      * exists [means]. rewrite Hh. split; [apply extends_histories_append|].
        split; [cbn; lia | discriminate].
Qed.

(** the files over the epoch loop *)
Lemma epochs_loop_files (spe : Z) (l : list Z) :
  forall (w w' : world) (r : result unit),
  for_each l tt (epoch_body train_step sample_images spe) w = (r, w') ->
  (forall p, is_Some (files w !! p) -> is_Some (files w' !! p))
  /\ (forall p,
        (forall e, In e l -> saving_epoch (cfg (self w)) e = true ->
           p <> checkpoint_path (model_path (cfg (self w))) (e + 1)) ->
        (forall e, In e l ->
           p <> sample_image_path (sample_path (cfg (self w))) (e + 1)) ->
        files w' !! p = files w !! p)
  /\ (forall n,
        checkpoint_at (files w) (checkpoint_path (model_path (cfg (self w))) n) ->
        checkpoint_at (files w') (checkpoint_path (model_path (cfg (self w))) n))
  /\ (forall n,
        image_at (files w) (sample_image_path (sample_path (cfg (self w))) n) ->
        image_at (files w') (sample_image_path (sample_path (cfg (self w))) n))
  /\ (fst (r, w') = Ok tt ->
      forall e, In e l ->
        image_at (files w')
          (sample_image_path (sample_path (cfg (self w))) (e + 1))
        /\ (saving_epoch (cfg (self w)) e = true ->
            checkpoint_at (files w')
              (checkpoint_path (model_path (cfg (self w))) (e + 1)))).
Proof.
  induction l as [|e l IH]; intros w w' r; cbn [for_each].
  - unfold ret. intros E. injection E as <- <-.
    split; [auto|]. split; [auto|]. split; [auto|]. split; [auto|].
    intros _ e0 [].
  - unfold mbind'.
    destruct (epoch_body train_step sample_images spe e tt w) as [[u|ex] w1] eqn:E1;
      apply epoch_body_inv in E1 as (Hc1 & Hw1 & ext1 & Htr1 & H1);
      apply epoch_writes_facts in Hw1 as (Hk1 & Ho1 & Hcp1 & Him1).
    + destruct H1 as (_ & _ & _ & Himg & Hsave). destruct u.
      intros E. apply IH in E as (Hkeep & Hother & Hcp & Him & Hdone).
      rewrite Hc1 in *.
      split; [|split; [|split; [|split]]].
      * intros p Hp. apply Hkeep, Hk1, Hp.
      * intros p Hp Hq. rewrite Hother.
        -- apply Ho1; [intros Hs; apply Hp; [now left | exact Hs]|].
           apply Hq. now left.
        -- intros e' He' Hs'. apply Hp; [now right | exact Hs'].
        -- intros e' He'. apply Hq. now right.
      * intros n Hn. apply Hcp, Hcp1, Hn.
      * intros n Hn. apply Him, Him1, Hn.
      * intros Hr e' [<-|He'].
        -- split; [apply Him, Himg|].
           intros Hs. rewrite Hs in Hsave. destruct Hsave as (_ & Hf).
           apply Hcp. eexists. exact Hf.
        -- apply Hdone; assumption.
    + intros E. injection E as <- <-.
      split; [exact Hk1|]. split.
      { intros p Hp Hq. apply Ho1; [intros Hs; apply Hp; [now left | exact Hs]|].
        apply Hq. now left. }
      split; [exact Hcp1|]. split; [exact Him1|]. discriminate.
Qed.

(** the steps and the saves of an epoch loop that ends *)
Lemma epochs_loop_steps (spe : Z) (l : list Z) :
  forall (w w' : world),
  for_each l tt (epoch_body train_step sample_images spe) w = (Ok tt, w') ->
  exists ext,
    trace w' = trace w ++ ext
    /\ steps_run ext = steps_of_epochs spe l
    /\ saves_run ext = List.filter (saving_epoch (cfg (self w))) l.
Proof.
  induction l as [|e l IH]; intros w w'; cbn [for_each].
  - unfold ret. intros E. injection E as <-.
    exists []. now rewrite app_nil_r.
  - unfold mbind'.
    destruct (epoch_body train_step sample_images spe e tt w) as [[u|ex] w1] eqn:E1;
      [|discriminate].
    apply epoch_body_inv in E1
      as (Hc1 & _ & ext1 & Htr1 & Hst1 & _ & _ & _ & Hsave).
    destruct u. intros E. apply IH in E as (ext & Htr & Hst & Hsv).
    rewrite Hc1 in Hsv.
    exists (EvEpoch e :: ext1 ++ ext).
    rewrite Htr, Htr1, <- app_assoc. split; [reflexivity|].
    cbn [steps_run saves_run steps_of_epochs flat_map List.filter].
    rewrite steps_run_app, saves_run_app, Hst1, Hst, Hsv.
    split; [reflexivity|].
    destruct (saving_epoch (cfg (self w)) e).
    + destruct Hsave as (-> & _). reflexivity.
    + rewrite Hsave. reflexivity.
Qed.

Lemma length_steps_of_epochs (spe : Z) (l : list Z) :
  length (steps_of_epochs spe l) = length l * Z.to_nat spe.
Proof.
  unfold steps_of_epochs. induction l as [|e l IH]; cbn; [reflexivity|].
  rewrite length_app, IH, length_map, length_range. f_equal. f_equal. lia.
Qed.
End TrainEffects.

(** The histories are append-only.  Whatever a run does, raise or end, it
    leaves the configuration alone and each of the eight histories is the
    one it started with followed by new entries, the same number for all
    eight (but for an exception between two of the appends, which the model
    does not have: the eight appends are one step); a run that ends has
    added one entry per epoch it had to do. *)
Theorem train_appends_to_histories
    (train_step : configs -> Z -> Z -> Q -> networks -> result (networks * step_log))
    (sample_images : networks -> tensor float)
    (w : world) :
  let r := train train_step sample_images w in
  cfg (self (snd r)) = cfg (self w)
  /\ exists added,
       extends_histories (hist (self w)) (hist (self (snd r))) added
       /\ (forall epochs,
             epochs_of (cfg (self w)) = Ok epochs ->
             length added
             <= Z.to_nat (epochs - start_epoch (cfg (self w)))
             /\ (fst r = Ok tt ->
                 length added
                 = Z.to_nat (epochs - start_epoch (cfg (self w))))).
Proof.
  intros r. subst r.
  destruct (epochs_of (cfg (self w))) as [epochs|ex] eqn:He.
  - rewrite (train_unfold train_step sample_images w epochs He).
    destruct (for_each _ tt _ w) as [res w'] eqn:E.
    pose proof E as E'.
    apply epochs_loop_spec in E' as (Hc & _).
    apply epochs_loop_hist in E as (added & Hext & Hle & Hok).
    cbn [fst snd] in *. split; [exact Hc|].
    exists added. split; [exact Hext|].
    intros epochs' Heq. injection Heq as <-.
    rewrite length_range in Hle, Hok. split; [exact Hle | exact Hok].
  - unfold train, mbind', get_self, lift. rewrite He. cbn [fst snd].
    split; [reflexivity|]. exists []. split; [apply extends_histories_nil|].
    intros epochs' Heq. discriminate Heq.
Qed.

Lemma train_appends_to_histories_witness :
  exists added,
    extends_histories (hist (self ex_world))
      (hist (self (snd (train ex_train_step ex_sample_images ex_world)))) added
    /\ length added = 2.
Proof.
  destruct (train_appends_to_histories ex_train_step ex_sample_images ex_world)
    as (_ & added & Hext & Hn).
  exists added. split; [exact Hext|].
  destruct (Hn 2%Z eq_refl) as (_ & Hok). apply Hok. reflexivity.
Defined.

(** What a run does to the files.  Whatever it does, raise or end, no file
    is removed, and the checkpoint file of any other epoch,
    [<model_path>/<n>_sagan.pth] where [n - 1] is not an epoch of the run
    with [n % save_epoch == 0], holds what it held before: the sample
    images go to files of another name.  After a run that ends, the sample
    image of every epoch of the run is there, and the checkpoint of every
    epoch [e] with [(e+1) % save_epoch == 0] is a file that [torch.load]
    reads. *)
Theorem train_keeps_other_checkpoints
    (train_step : configs -> Z -> Z -> Q -> networks -> result (networks * step_log))
    (sample_images : networks -> tensor float)
    (w : world) :
  let r := train train_step sample_images w in
  let c := cfg (self w) in
  (forall p, is_Some (files w !! p) -> is_Some (files (snd r) !! p))
  /\ (forall n,
        (forall epochs e,
           epochs_of c = Ok epochs -> (start_epoch c <= e < epochs)%Z ->
           saving_epoch c e = true -> n <> (e + 1)%Z) ->
        files (snd r) !! checkpoint_path (model_path c) n
        = files w !! checkpoint_path (model_path c) n)
  /\ (fst r = Ok tt ->
      forall epochs, epochs_of c = Ok epochs ->
      forall e, (start_epoch c <= e < epochs)%Z ->
        image_at (files (snd r)) (sample_image_path (sample_path c) (e + 1))
        /\ (saving_epoch c e = true ->
            exists obj,
              torch_load (checkpoint_path (model_path c) (e + 1))
                (files (snd r)) = Ok obj)).
Proof.
  intros r c. subst r c.
  destruct (epochs_of (cfg (self w))) as [epochs|ex] eqn:He.
  - rewrite (train_unfold train_step sample_images w epochs He).
    destruct (for_each _ tt _ w) as [res w'] eqn:E.
    apply epochs_loop_files in E as (Hkeep & Hother & _ & _ & Hdone).
    cbn [fst snd] in *. split; [exact Hkeep|]. split.
    + intros n Hn. apply Hother.
      * intros e Hin Hs Heq. apply in_range in Hin.
        apply checkpoint_path_inj in Heq. exact (Hn epochs e eq_refl Hin Hs Heq).
      * intros e _. apply checkpoint_path_not_image.
    + intros Hr epochs' Heq e Hin. injection Heq as <-.
      apply in_range in Hin. destruct (Hdone Hr e Hin) as [Himg Hcp].
      split; [exact Himg|].
      intros Hs. destruct (Hcp Hs) as [obj Hobj]. exists obj.
      unfold torch_load. now rewrite Hobj.
  - unfold train, mbind', get_self, lift. rewrite He. cbn [fst snd].
    split; [auto|]. split; [auto|]. discriminate.
Qed.

Lemma train_keeps_other_checkpoints_witness :
  files (snd (train ex_train_step ex_sample_images ex_world))
    !! checkpoint_path "models" 1 = None
  /\ image_at (files (snd (train ex_train_step ex_sample_images ex_world)))
       (sample_image_path "samples" 1)
  /\ exists obj,
       torch_load (checkpoint_path "models" 2)
         (files (snd (train ex_train_step ex_sample_images ex_world))) = Ok obj.
Proof.
  destruct (train_keeps_other_checkpoints ex_train_step ex_sample_images ex_world)
    as (_ & Hother & Hdone).
  split; [|split].
  - change "models" with (model_path (cfg (self ex_world))).
    rewrite (Hother 1%Z); [reflexivity|].
    intros epochs e He Hin Hs. injection He as <-.
    assert (E : e = 0%Z \/ e = 1%Z) by (change (0 <= e < 2)%Z in Hin; lia).
    destruct E as [-> | ->]; [discriminate Hs | discriminate].
  - apply (Hdone eq_refl 2%Z eq_refl 0%Z). cbn. lia.
  - apply (Hdone eq_refl 2%Z eq_refl 1%Z); [cbn; lia | reflexivity].
Defined.

(** On a runnable session with training steps that do not raise, a run
    that starts with an empty trace ends normally and has taken, in order,
    every step [0 .. step_per_epoch - 1] of every epoch from [start_epoch]
    to [epochs - 1], and has saved after exactly the epochs [e] with
    [(e+1) % save_epoch == 0].  On a fresh run with a number of total steps
    of less than 54 bits, the number of training steps is therefore at most
    [total_steps], and short of it by less than one epoch of batches: the
    remainder of [total_steps / step_per_epoch] is never run. *)
Theorem train_runs_every_step
    (train_step : configs -> Z -> Z -> Q -> networks -> result (networks * step_log))
    (sample_images : networks -> tensor float)
    (w : world) (epochs : Z) :
  trace w = [] ->
  epochs_of (cfg (self w)) = Ok epochs ->
  runnable (self w) ->
  (forall c e s sg n, exists x, train_step c e s sg n = Ok x) ->
  let c := cfg (self w) in
  let r := train train_step sample_images w in
  let done := steps_run (trace (snd r)) in
  fst r = Ok tt
  /\ done = steps_of_epochs (Z.of_nat (dataloader_len c))
              (range (start_epoch c) epochs)
  /\ length done = Z.to_nat (epochs - start_epoch c) * dataloader_len c
  /\ saves_run (trace (snd r))
     = List.filter (saving_epoch c) (range (start_epoch c) epochs)
  /\ (pretrained_model c = None -> (0 <= total_steps c < 2 ^ 53)%Z ->
      (Z.of_nat (length done) <= total_steps c
       < Z.of_nat (length done) + Z.of_nat (dataloader_len c))%Z).
Proof.
  intros Htr He Hrun Htot c r done. subst c r done.
  destruct (epochs_of_inv _ _ He) as [Hlen Hq].
  destruct Hrun as [Hb Hdi Hgi Hi Hls Hs Hst Hh].
  rewrite (train_unfold train_step sample_images w epochs He).
  destruct (epochs_loop_ok train_step sample_images epochs
              (Z.to_nat (epochs - start_epoch (cfg (self w))))
              (start_epoch (cfg (self w))) w eq_refl Hdi Hgi Hi Hls Hs Htot)
    as [w' E].
  { rewrite start_epoch_eq.
    destruct (pretrained_model (cfg (self w))); [exact Hst | lia]. }
  { rewrite start_epoch_eq. exact Hh. }
  rewrite E. cbn [fst snd].
  apply epochs_loop_steps in E as (ext & Ht & Hsteps & Hsaves).
  rewrite Ht, Htr. cbn [app]. rewrite Hsteps, Hsaves.
  split; [reflexivity|]. split; [reflexivity|].
  rewrite length_steps_of_epochs, length_range, Nat2Z.id.
  split; [reflexivity|]. split; [reflexivity|].
  intros Hpm Hts.
  rewrite start_epoch_eq, Hpm, Z.sub_0_r.
  set (spe := Z.of_nat (dataloader_len (cfg (self w)))) in *.
  assert (Hspe : (0 < spe)%Z) by (subst spe; lia).
  specialize (Hq ltac:(lia)).
  rewrite Z.quot_div_nonneg in Hq by lia.
  pose proof (Z.div_mod (total_steps (cfg (self w))) spe ltac:(lia)) as Hdm.
  pose proof (Z.mod_pos_bound (total_steps (cfg (self w))) spe Hspe) as Hmod.
  pose proof (Z.div_pos (total_steps (cfg (self w))) spe ltac:(lia) Hspe)
    as Hdiv.
  rewrite <- Hq in Hdm, Hdiv.
  rewrite Nat2Z.inj_mul, Z2Nat.id by exact Hdiv. fold spe.
  lia.
Qed.

Lemma train_runs_every_step_witness :
  fst (train ex_train_step ex_sample_images ex_world) = Ok tt
  /\ steps_run (trace (snd (train ex_train_step ex_sample_images ex_world)))
     = [(0, 0); (0, 1); (0, 2); (1, 0); (1, 1); (1, 2)]%Z
  /\ saves_run (trace (snd (train ex_train_step ex_sample_images ex_world)))
     = [1%Z].
Proof.
  destruct (train_runs_every_step ex_train_step ex_sample_images ex_world 2
              eq_refl eq_refl)
    as (H1 & H2 & _ & H3 & _).
  - constructor.
    + change (0 < 3). lia.
    + change (1 <= 1)%Z. lia.
    + change (1 <= 1)%Z. lia.
    + change (2%Z <> 0%Z). discriminate.
    + change (0 < 2 <= Z.of_nat 3)%Z. lia.
    + change (2%Z <> 0%Z). discriminate.
    + exact I.
    + change (Forall (fun n => (0 <= Z.of_nat n)%Z) (repeat 0%nat 8)).
      apply Forall_forall. intros n _. lia.
  - intros c e s sg n. eexists. reflexivity.
  - split; [exact H1|]. split; [exact H2 | exact H3].
Defined.
